(** * Trade-copy engine of the smart-money service

    A shallow embedding of [src/services/smart-money-service.ts]
    (class [SmartMoneyService]): the cohort cache, the shared trade stream
    subscription with its listener fan-out, and the auto-copy handler with
    its running statistics; then the market categories and the figures of
    the wallet reports (paging, performance, best and worst markets,
    category distribution, trading patterns, risk and recommendation, wallet
    comparison, pie charts).

    Conventions of the embedding.
    - A JavaScript [number] holding money, a size or a price is an exact
      rational ([Q]); rounding, [NaN] and the infinities of IEEE doubles
      (hence what JavaScript makes of a division by zero) are outside the
      model.  Millisecond clocks are [Z], event counters are [N].  The
      sizing clamp, the numeric guards of the copy handler and the one
      numeric scenario of the specification are checked on binary64 numbers
      as well ([sizing64], [amount64], [slippagePrice64]).  What is stated
      of sums, averages and percentages is limited to counting, order and
      sign.
    - An optional field ([x?: T]) is an [option].
    - A [Map] or [Set] of JavaScript iterates in insertion order: the
      [Map<string, SmartMoneyWallet>] is an insertion-ordered association
      list, the [Set] of handlers a duplicate-free list; the membership
      [Set<string>], which is never iterated, is a [gset].
    - [Date.now()] and the replies of the collaborators (leaderboard
      provider, trade stream, trading backend) are explicit inputs; the calls
      made to collaborators are recorded in ghost logs.
    - [async] functions are cut at their [await]s into synchronous segments.
    - Strings are read as ASCII text.  The records of the data API
      ([ClosedPosition], [Position], [PeriodLeaderboardEntry]) have the
      fields the service reads.  [Array.prototype.sort] is a stable
      insertion sort; [Number.prototype.toFixed] is left open. *)

From Stdlib Require Import ZArith QArith Qround Qabs Lqa Floats Ascii String.
From stdpp Require Import gmap strings list fin_maps pretty sorting.

Set Default Proof Using "Type".
Set Warnings "-clear-no-such-hyp".

(** ** JavaScript primitives *)

(** [x < y] on numbers. *)
Definition Qltb (x y : Q) : bool := negb (Qle_bool y x).

(** [Math.round]: the nearest integer, halves towards plus infinity. *)
Definition Math_round (x : Q) : Z := Qfloor (x + (1 # 2)).

(** [String.prototype.toLowerCase], on the ASCII letters. *)
Definition lower_ascii (c : ascii) : ascii :=
  let n := nat_of_ascii c in
  if (65 <=? n)%nat && (n <=? 90)%nat then ascii_of_nat (n + 32) else c.

Fixpoint toLowerCase (s : string) : string :=
  match s with
  | EmptyString => EmptyString
  | String c r => String (lower_ascii c) (toLowerCase r)
  end.

(** [Array.prototype.includes] on strings. *)
Definition includes (l : list string) (x : string) : bool :=
  bool_decide (x ∈ l).

(** JavaScript [Map<string, V>]: insertion-ordered, [set] on a present key
    replaces the value in place. *)
Module JsMap.
Section Ops.
Context {V : Type}.

Fixpoint set (k : string) (v : V) (m : list (string * V)) : list (string * V) :=
  match m with
  | [] => [(k, v)]
  | (k', v') :: r => if String.eqb k' k then (k, v) :: r else (k', v') :: set k v r
  end.

Fixpoint get (k : string) (m : list (string * V)) : option V :=
  match m with
  | [] => None
  | (k', v') :: r => if String.eqb k' k then Some v' else get k r
  end.

Definition has (k : string) (m : list (string * V)) : bool :=
  match get k m with Some _ => true | None => false end.

Definition values (m : list (string * V)) : list V := m.*2.

Definition size (m : list (string * V)) : nat := length m.
End Ops.
End JsMap.

(** ** Data model *)

Inductive Side := BUY | SELL.

#[global] Instance Side_eq_dec : EqDecision Side.
Proof. solve_decision. Defined.

(** An entry of the leaderboard page returned by
    [walletService.getLeaderboard]. *)
Record LeaderboardEntry := {
  le_address : string;
  le_userName : option string;
  le_pnl : Q;
  le_volume : Q;
  le_rank : option nat;
}.

(** [SmartMoneyWallet]. *)
Record SmartMoneyWallet := {
  w_address : string;
  w_name : option string;
  w_pnl : Q;
  w_volume : Q;
  w_score : Z;
  w_rank : option nat;
}.

(** [SmartMoneyServiceConfig], defaults resolved by the constructor. *)
Record ServiceConfig := {
  minPnl : Q;
  cacheTtl : Z;
}.

Definition defaultConfig : ServiceConfig :=
  {| minPnl := 1000; cacheTtl := 300000 |}.

(** ** Cohort cache *)

Module Cache.

(** The three cache fields of the class. *)
Record t := {
  smartMoneyCache : list (string * SmartMoneyWallet);
  smartMoneySet : gset string;
  cacheTimestamp : Z;
}.

Definition empty : t :=
  {| smartMoneyCache := []; smartMoneySet := ∅; cacheTimestamp := 0 |}.

(** What [await walletService.getLeaderboard(offset, limit)] settles to. *)
Inductive ProviderReply :=
| Entries (entries : list LeaderboardEntry)
| ProviderError.

Definition Provider := nat -> nat -> ProviderReply.

(** A settled promise with the state it leaves and the provider calls
    [(offset, limit)] it made. *)
Record Settled (A : Type) := {
  result : option A;           (* [None]: the promise rejected *)
  after : t;
  providerCalls : list (nat * nat);
}.
Arguments result {A} _.
Arguments after {A} _.
Arguments providerCalls {A} _.

Section WithConfig.
Variable config : ServiceConfig.

Definition isCacheValid (now : Z) (st : t) : bool :=
  (now - cacheTimestamp st <? cacheTtl config)%Z
  && (0 <? JsMap.size (smartMoneyCache st))%nat.

(** The object literal built in the loop body, [i] the loop index.  The
    score is rounded from the exact rational; the code rounds the binary64
    value, which can lie on the other side of a half (a PnL of 29000 without
    volume: 14.499999999999998 in binary64, 14.5 here). *)
Definition toWallet (i : nat) (trader : LeaderboardEntry) : SmartMoneyWallet :=
  {| w_address := toLowerCase (le_address trader);
     w_name := le_userName trader;
     w_pnl := le_pnl trader;
     w_volume := le_volume trader;
     w_score :=
       Z.min 100 (Math_round ((le_pnl trader / 100000) * 50
                              + (le_volume trader / 1000000) * 50)%Q);
     w_rank := Some (default (i + 1)%nat (le_rank trader)) |}.

(** The [for] loop of [getSmartMoneyList], from index [i] on. *)
Fixpoint refreshLoop (i : nat) (entries : list LeaderboardEntry)
    (smartMoneyList : list SmartMoneyWallet) (st : t)
    : list SmartMoneyWallet * t :=
  match entries with
  | [] => (smartMoneyList, st)
  | trader :: rest =>
      if Qltb (le_pnl trader) (minPnl config)
      then refreshLoop (S i) rest smartMoneyList st
      else
        let wallet := toWallet i trader in
        refreshLoop (S i) rest (smartMoneyList ++ [wallet])
          {| smartMoneyCache :=
               JsMap.set (w_address wallet) wallet (smartMoneyCache st);
             smartMoneySet := {[ w_address wallet ]} ∪ smartMoneySet st;
             cacheTimestamp := cacheTimestamp st |}
  end.

(** The part of [getSmartMoneyList] that runs once the provider has
    answered: the loop, the timestamp, the returned list.  [st] is the
    cache as it is when the [await] resumes, [now'] the clock then. *)
Definition refresh (entries : list LeaderboardEntry) (now' : Z) (st : t)
    : list SmartMoneyWallet * t :=
  let '(smartMoneyList, st') := refreshLoop 0 entries [] st in
  (smartMoneyList,
   {| smartMoneyCache := smartMoneyCache st';
      smartMoneySet := smartMoneySet st';
      cacheTimestamp := now' |}).

(** [getSmartMoneyList(limit)], with nothing interleaved at its [await]:
    [now] is the clock at the validity test. *)
Definition getSmartMoneyList (limit : nat) (now : Z) (provider : Provider)
    (now' : Z) (st : t) : Settled (list SmartMoneyWallet) :=
  if isCacheValid now st then
    {| result := Some (JsMap.values (smartMoneyCache st));
       after := st; providerCalls := [] |}
  else
    match provider 0%nat limit with
    | ProviderError =>
        {| result := None; after := st; providerCalls := [(0%nat, limit)] |}
    | Entries entries =>
        let '(smartMoneyList, st') := refresh entries now' st in
        {| result := Some smartMoneyList; after := st';
           providerCalls := [(0%nat, limit)] |}
    end.

(** [isSmartMoney(address)]; the inner call uses the default limit 100. *)
Definition isSmartMoney (address : string) (now : Z) (provider : Provider)
    (now' : Z) (st : t) : Settled bool :=
  let normalized := toLowerCase address in
  if isCacheValid now st then
    {| result := Some (bool_decide (normalized ∈ smartMoneySet st));
       after := st; providerCalls := [] |}
  else
    let r := getSmartMoneyList 100 now provider now' st in
    {| result :=
         match result r with
         | Some _ => Some (bool_decide (normalized ∈ smartMoneySet (after r)))
         | None => None
         end;
       after := after r; providerCalls := providerCalls r |}.

(** [getSmartMoneyInfo(address)]. *)
Definition getSmartMoneyInfo (address : string) (now : Z) (provider : Provider)
    (now' : Z) (st : t) : Settled (option SmartMoneyWallet) :=
  let normalized := toLowerCase address in
  if isCacheValid now st && JsMap.has normalized (smartMoneyCache st) then
    {| result := Some (JsMap.get normalized (smartMoneyCache st));
       after := st; providerCalls := [] |}
  else
    let r := getSmartMoneyList 100 now provider now' st in
    {| result :=
         match result r with
         | Some _ => Some (JsMap.get normalized (smartMoneyCache (after r)))
         | None => None
         end;
       after := after r; providerCalls := providerCalls r |}.

(** [disconnect()], as far as the cache goes. *)
Definition disconnect (st : t) : t :=
  {| smartMoneyCache := []; smartMoneySet := ∅;
     cacheTimestamp := cacheTimestamp st |}.

(** *** Vocabulary for the properties *)

(** An entry of a response passes the PnL threshold. *)
Definition qualifies (trader : LeaderboardEntry) : bool :=
  negb (Qltb (le_pnl trader) (minPnl config)).

(** The wallets a response contributes, [i] the index of its head. *)
Fixpoint selected (i : nat) (entries : list LeaderboardEntry)
    : list SmartMoneyWallet :=
  match entries with
  | [] => []
  | trader :: rest =>
      if qualifies trader then toWallet i trader :: selected (S i) rest
      else selected (S i) rest
  end.

Definition meetsThreshold (w : SmartMoneyWallet) : Prop :=
  (minPnl config <= w_pnl w)%Q.

(** Every wallet held by the cache passed the threshold test. *)
Definition cacheMeetsThreshold (st : t) : Prop :=
  Forall meetsThreshold (JsMap.values (smartMoneyCache st)).

End WithConfig.

End Cache.


(** ** Trades *)

(** [ActivityTrade] of the realtime service, the fields the service reads. *)
Record Trader := {
  tr_address : option string;
  tr_name : option string;
}.

Record ActivityTrade := {
  a_trader : option Trader;
  a_conditionId : option string;
  a_marketSlug : option string;
  a_side : Side;
  a_size : Q;
  a_price : Q;
  a_asset : option string;
  a_outcome : option string;
  a_transactionHash : option string;
  a_timestamp : Z;
}.

(** [SmartMoneyTrade]. *)
Record SmartMoneyTrade := {
  t_traderAddress : string;
  t_traderName : option string;
  t_conditionId : option string;
  t_marketSlug : option string;
  t_side : Side;
  t_size : Q;
  t_price : Q;
  t_tokenId : option string;
  t_outcome : option string;
  t_txHash : option string;
  t_timestamp : Z;
  t_isSmartMoney : bool;
  t_smartMoneyInfo : option SmartMoneyWallet;
}.

(** The options of [subscribeSmartMoneyTrades]. *)
Record SubscribeOptions := {
  filterAddresses : option (list string);
  minSize : option Q;
  smartMoneyOnly : option bool;
}.

Definition noOptions : SubscribeOptions :=
  {| filterAddresses := None; minSize := None; smartMoneyOnly := None |}.

(** How a call of a JavaScript function ends. *)
Inductive Completion := Returned | Threw.

(** ** Shared stream subscription and listener fan-out *)

Module Stream.

Section WithWorld.
(** Everything the listeners can change: left open here. *)
Context {World : Type}.

(** A listener function: [handlerId] is the identity of the function
    object (what the [Set] compares), [call] what calling it does. *)
Record Handler := {
  handlerId : nat;
  call : SmartMoneyTrade -> World -> World * Completion;
}.

(** The object returned by [realtimeService.subscribeAllActivity]: which
    subscription it is, and the [options] its [onTrade] closure captured. *)
Record Upstream := {
  upstreamId : nat;
  capturedOptions : SubscribeOptions;
}.

(** The fields of the class, and what the collaborators have been asked. *)
Record t := {
  cache : Cache.t;
  activeSubscription : option Upstream;
  tradeHandlers : list Handler;
  (* ghost *)
  providerCalls : list (nat * nat);   (* [getLeaderboard(offset, limit)] calls *)
  upstreamOpened : nat;               (* calls of [subscribeAllActivity] *)
  upstreamClosed : list nat;          (* upstream [unsubscribe()] calls, by id *)
}.

Definition init : t :=
  {| cache := Cache.empty; activeSubscription := None; tradeHandlers := [];
     providerCalls := []; upstreamOpened := 0; upstreamClosed := [] |}.

(** [Set.prototype.add], [delete] and [has] on the handler set. *)
Definition registered (id : nat) (hs : list Handler) : bool :=
  bool_decide (id ∈ handlerId <$> hs).

Definition handlers_add (h : Handler) (hs : list Handler) : list Handler :=
  if registered (handlerId h) hs then hs else hs ++ [h].

Definition handlers_delete (id : nat) (hs : list Handler) : list Handler :=
  List.filter (fun h => negb (Nat.eqb (handlerId h) id)) hs.

(** The object returned by [subscribeSmartMoneyTrades]: its [unsubscribe]
    closure captured [onTrade]. *)
Record Subscription := {
  id : string;
  onTrade : nat;
}.

Section WithConfig.
Variable config : ServiceConfig.

(** [subscribeSmartMoneyTrades(onTrade, options)] at clock [now].  The
    cache warm-up [getSmartMoneyList().catch(() => {})] is not awaited:
    only its first segment runs here, the provider's answer arrives
    through [warmupSettles]. *)
Definition subscribeSmartMoneyTrades (h : Handler) (options : SubscribeOptions)
    (now : Z) (svc : t) : Subscription * t :=
  let handlers := handlers_add h (tradeHandlers svc) in
  let calls :=
    if Cache.isCacheValid config now (cache svc) then providerCalls svc
    else providerCalls svc ++ [(0, 100)%nat] in
  let '(active, opened) :=
    match activeSubscription svc with
    | None =>
        (Some {| upstreamId := upstreamOpened svc; capturedOptions := options |},
         S (upstreamOpened svc))
    | Some up => (Some up, upstreamOpened svc)
    end in
  ({| id := "smart_money_" +:+ pretty now; onTrade := handlerId h |},
   {| cache := cache svc; activeSubscription := active;
      tradeHandlers := handlers; providerCalls := calls;
      upstreamOpened := opened; upstreamClosed := upstreamClosed svc |}).

(** The provider answers a warm-up; a rejection is swallowed. *)
Definition warmupSettles (reply : Cache.ProviderReply) (now' : Z) (svc : t) : t :=
  match reply with
  | Cache.ProviderError => svc
  | Cache.Entries entries =>
      {| cache := (Cache.refresh config entries now' (cache svc)).2;
         activeSubscription := activeSubscription svc;
         tradeHandlers := tradeHandlers svc;
         providerCalls := providerCalls svc;
         upstreamOpened := upstreamOpened svc;
         upstreamClosed := upstreamClosed svc |}
  end.
End WithConfig.

(** The [unsubscribe] closure of a subscription. *)
Definition unsubscribe (sub : Subscription) (svc : t) : t :=
  let handlers := handlers_delete (onTrade sub) (tradeHandlers svc) in
  match handlers, activeSubscription svc with
  | [], Some up =>
      {| cache := cache svc; activeSubscription := None;
         tradeHandlers := handlers; providerCalls := providerCalls svc;
         upstreamOpened := upstreamOpened svc;
         upstreamClosed := upstreamClosed svc ++ [upstreamId up] |}
  | _, _ =>
      {| cache := cache svc; activeSubscription := activeSubscription svc;
         tradeHandlers := handlers; providerCalls := providerCalls svc;
         upstreamOpened := upstreamOpened svc;
         upstreamClosed := upstreamClosed svc |}
  end.

(** [disconnect()]. *)
Definition disconnect (svc : t) : t :=
  {| cache := Cache.disconnect (cache svc);
     activeSubscription := None;
     tradeHandlers := [];
     providerCalls := providerCalls svc;
     upstreamOpened := upstreamOpened svc;
     upstreamClosed :=
       match activeSubscription svc with
       | Some up => upstreamClosed svc ++ [upstreamId up]
       | None => upstreamClosed svc
       end |}.

(** JavaScript truthiness of the optional fields tested with [&&]. *)
Definition truthyString (s : option string) : option string :=
  match s with
  | Some EmptyString | None => None
  | Some s => Some s
  end.

Definition truthyNumber (x : option Q) : option Q :=
  match x with
  | Some q => if Qeq_bool q 0 then None else Some q
  | None => None
  end.

(** The filter chain of [handleActivityTrade] and the record it builds:
    [None] is one of the early [return]s. *)
Definition normalize (options : SubscribeOptions) (c : Cache.t)
    (trade : ActivityTrade) : option SmartMoneyTrade :=
  match truthyString (a_trader trade ≫= tr_address) with
  | None => None
  | Some rawAddress =>
      let traderAddress := toLowerCase rawAddress in
      if match filterAddresses options with
         | Some (a :: l) =>
             negb (includes (toLowerCase <$> (a :: l)) traderAddress)
         | _ => false
         end
      then None
      else if match truthyNumber (minSize options) with
              | Some m => Qltb (a_size trade) m
              | None => false
              end
      then None
      else
        let isSmartMoney := bool_decide (traderAddress ∈ Cache.smartMoneySet c) in
        if default false (smartMoneyOnly options) && negb isSmartMoney
        then None
        else Some
          {| t_traderAddress := traderAddress;
             t_traderName := a_trader trade ≫= tr_name;
             t_conditionId := a_conditionId trade;
             t_marketSlug := a_marketSlug trade;
             t_side := a_side trade;
             t_size := a_size trade;
             t_price := a_price trade;
             t_tokenId := a_asset trade;
             t_outcome := a_outcome trade;
             t_txHash := a_transactionHash trade;
             t_timestamp := a_timestamp trade;
             t_isSmartMoney := isSmartMoney;
             t_smartMoneyInfo := JsMap.get traderAddress (Cache.smartMoneyCache c) |}
  end.

(** What a dispatch leaves behind for an observer: who was called with
    what, and the handler errors written to the console. *)
Record Trace := {
  delivered : list (nat * SmartMoneyTrade);
  handlerErrors : list nat;
}.

Definition noTrace : Trace := {| delivered := []; handlerErrors := [] |}.

(** One turn of the loop: [try { handler(trade) } catch { console.error }]. *)
Definition tryHandler (h : Handler) (trade : SmartMoneyTrade)
    (w : World) (tr : Trace) : World * Trace :=
  let '(w', completion) := call h trade w in
  match completion with
  | Returned =>
      (w', {| delivered := delivered tr ++ [(handlerId h, trade)];
              handlerErrors := handlerErrors tr |})
  | Threw =>
      (w', {| delivered := delivered tr ++ [(handlerId h, trade)];
              handlerErrors := handlerErrors tr ++ [handlerId h] |})
  end.

(** [for (const handler of this.tradeHandlers) ...]. *)
Fixpoint dispatch (handlers : list Handler) (trade : SmartMoneyTrade)
    (w : World) (tr : Trace) : World * Trace :=
  match handlers with
  | [] => (w, tr)
  | h :: rest =>
      let '(w', tr') := tryHandler h trade w tr in
      dispatch rest trade w' tr'
  end.

(** [handleActivityTrade(trade, options)]. *)
Definition handleActivityTrade (trade : ActivityTrade) (options : SubscribeOptions)
    (svc : t) (w : World) (tr : Trace) : World * Trace :=
  match normalize options (cache svc) trade with
  | None => (w, tr)
  | Some smartMoneyTrade => dispatch (tradeHandlers svc) smartMoneyTrade w tr
  end.

(** The stream delivers an event: the [onTrade] callback given to
    [subscribeAllActivity] runs, with the options it captured.  A closed
    upstream subscription delivers nothing. *)
Definition onActivityTrade (trade : ActivityTrade) (svc : t) (w : World)
    (tr : Trace) : World * Trace :=
  match activeSubscription svc with
  | Some up => handleActivityTrade trade (capturedOptions up) svc w tr
  | None => (w, tr)
  end.

(** A run of stream events. *)
Fixpoint onActivityTrades (trades : list ActivityTrade) (svc : t) (w : World)
    (tr : Trace) : World * Trace :=
  match trades with
  | [] => (w, tr)
  | trade :: rest =>
      let '(w', tr') := onActivityTrade trade svc w tr in
      onActivityTrades rest svc w' tr'
  end.

(** *** Vocabulary for the properties *)

(** What one event hands to the listeners: the normalized trade, once per
    registered handler, if the event passes the options the stream was
    opened with. *)
Definition fanOut (svc : t) (trade : ActivityTrade) : list (nat * SmartMoneyTrade) :=
  match activeSubscription svc with
  | Some up =>
      match normalize (capturedOptions up) (cache svc) trade with
      | Some smartMoneyTrade =>
          (fun h => (handlerId h, smartMoneyTrade)) <$> tradeHandlers svc
      | None => []
      end
  | None => []
  end.

(** The normalized trade an event is handed on as: [None] when the stream
    is closed or the filter chain drops the event. *)
Definition handedOn (svc : t) (trade : ActivityTrade) : option SmartMoneyTrade :=
  match activeSubscription svc with
  | Some up => normalize (capturedOptions up) (cache svc) trade
  | None => None
  end.

(** The handlers called one after the other with the trade, each on the
    world the one before it left, however each call ends. *)
Definition callAll (handlers : list Handler) (trade : SmartMoneyTrade) (w : World)
    : World :=
  foldl (fun w h => (call h trade w).1) w handlers.

(** Those of these calls that throw. *)
Fixpoint throwers (handlers : list Handler) (trade : SmartMoneyTrade) (w : World)
    : list nat :=
  match handlers with
  | [] => []
  | h :: rest =>
      match (call h trade w).2 with
      | Threw => handlerId h :: throwers rest trade (call h trade w).1
      | Returned => throwers rest trade (call h trade w).1
      end
  end.

(** The states in which no handler is left have no open upstream. *)
Definition quiescent (svc : t) : Prop :=
  tradeHandlers svc = [] -> activeSubscription svc = None.

End WithWorld.

Arguments Handler : clear implicits.
Arguments t : clear implicits.

End Stream.

(** ** Auto-copy sessions *)

Inductive OrderType := FOK | FAK.

(** [OrderResult] of the trading service. *)
Record OrderResult := {
  success : bool;
  orderId : option string;
}.

(** The argument of [tradingService.createMarketOrder]. *)
Record MarketOrder := {
  mo_tokenId : string;
  mo_side : Side;
  mo_amount : Q;
  mo_price : Q;
  mo_orderType : OrderType;
}.

(** [AutoCopyTradingStats]. *)
Record AutoCopyTradingStats := {
  startTime : Z;
  tradesDetected : N;
  tradesExecuted : N;
  tradesSkipped : N;
  tradesFailed : N;
  totalUsdcSpent : Q;
}.

(** [AutoCopyTradingOptions].  A callback is what its call does: return or
    throw. *)
Record AutoCopyTradingOptions := {
  o_targetAddresses : option (list string);
  o_topN : option nat;
  o_sizeScale : option Q;
  o_maxSizePerTrade : option Q;
  o_maxSlippage : option Q;
  o_orderType : option OrderType;
  o_delay : option Z;
  o_minTradeSize : option Q;
  o_sideFilter : option Side;
  o_dryRun : option bool;
  o_onTrade : option (SmartMoneyTrade -> OrderResult -> Completion);
  o_onError : option Completion;
}.

Module AutoCopy.

(** Objects live in a heap and are named by their location. *)
Definition loc := nat.

(** What the handler closure of one session captured: the [stats] object
    (by reference), the target list and the resolved configuration. *)
Record Session := {
  stats : loc;
  targetAddresses : list string;
  sizeScale : Q;
  maxSizePerTrade : Q;
  maxSlippage : Q;
  orderType : OrderType;
  minTradeSize : Q;
  sideFilter : option Side;
  delay : Z;
  dryRun : bool;
  onTrade : option (SmartMoneyTrade -> OrderResult -> Completion);
  onError : option Completion;
}.

(** A handler invocation parked at one of its two [await]s, with the
    locals it still needs. *)
Inductive Suspended :=
| AwaitDelay (c : Session) (trade : SmartMoneyTrade) (copySize copyValue : Q)
| AwaitOrder (c : Session) (trade : SmartMoneyTrade) (usdcAmount : Q).

(** What the handlers do to the outside, in order. *)
Inductive Effect :=
| CreateMarketOrder (session : loc) (order : MarketOrder)
| ConsoleDryRun (session : loc) (trade : SmartMoneyTrade) (copySize usdcAmount : Q)
| OnTradeCalled (session : loc) (trade : SmartMoneyTrade) (r : OrderResult)
| OnErrorCalled (session : loc)
| UnhandledRejection (session : loc).

Record World := {
  clock : Z;                              (* [Date.now()] *)
  heap : gmap loc AutoCopyTradingStats;   (* the [stats] objects *)
  inflight : list Suspended;
  journal : list Effect;
}.

Definition emptyWorld : World :=
  {| clock := 0; heap := ∅; inflight := []; journal := [] |}.

Definition setClock (now : Z) (w : World) : World :=
  {| clock := now; heap := heap w; inflight := inflight w; journal := journal w |}.

(** A write through a reference to a stats object. *)
Definition modify (l : loc) (f : AutoCopyTradingStats -> AutoCopyTradingStats)
    (w : World) : World :=
  {| clock := clock w; heap := alter f l (heap w);
     inflight := inflight w; journal := journal w |}.

Definition suspend (k : Suspended) (w : World) : World :=
  {| clock := clock w; heap := heap w;
     inflight := inflight w ++ [k]; journal := journal w |}.

Definition resume (i : nat) (w : World) : World :=
  {| clock := clock w; heap := heap w;
     inflight := delete i (inflight w); journal := journal w |}.

Definition emit (e : Effect) (w : World) : World :=
  {| clock := clock w; heap := heap w;
     inflight := inflight w; journal := journal w ++ [e] |}.

(** [stats.tradesDetected++] and its siblings. *)
Definition detected (s : AutoCopyTradingStats) : AutoCopyTradingStats :=
  {| startTime := startTime s; tradesDetected := tradesDetected s + 1;
     tradesExecuted := tradesExecuted s; tradesSkipped := tradesSkipped s;
     tradesFailed := tradesFailed s; totalUsdcSpent := totalUsdcSpent s |}.

Definition skipped (s : AutoCopyTradingStats) : AutoCopyTradingStats :=
  {| startTime := startTime s; tradesDetected := tradesDetected s;
     tradesExecuted := tradesExecuted s; tradesSkipped := tradesSkipped s + 1;
     tradesFailed := tradesFailed s; totalUsdcSpent := totalUsdcSpent s |}.

Definition failed (s : AutoCopyTradingStats) : AutoCopyTradingStats :=
  {| startTime := startTime s; tradesDetected := tradesDetected s;
     tradesExecuted := tradesExecuted s; tradesSkipped := tradesSkipped s;
     tradesFailed := tradesFailed s + 1; totalUsdcSpent := totalUsdcSpent s |}.

(** [stats.tradesExecuted++; stats.totalUsdcSpent += usdcAmount]; the sum
    is exact here, the [+=] of the code rounds it. *)
Definition executed (usdcAmount : Q) (s : AutoCopyTradingStats) : AutoCopyTradingStats :=
  {| startTime := startTime s; tradesDetected := tradesDetected s;
     tradesExecuted := tradesExecuted s + 1; tradesSkipped := tradesSkipped s;
     tradesFailed := tradesFailed s;
     totalUsdcSpent := (totalUsdcSpent s + usdcAmount)%Q |}.

(** "Polymarket minimum order is $1". *)
Definition MIN_ORDER_SIZE : Q := 1.

(** "Calculate size" and "Enforce max size": [(copySize, copyValue)]. *)
Definition sizing (c : Session) (trade : SmartMoneyTrade) : Q * Q :=
  let copySize := (t_size trade * sizeScale c)%Q in
  let copyValue := (copySize * t_price trade)%Q in
  if Qltb (maxSizePerTrade c) copyValue
  then ((maxSizePerTrade c / t_price trade)%Q, maxSizePerTrade c)
  else (copySize, copyValue).

(** "Price with slippage". *)
Definition slippagePrice (c : Session) (trade : SmartMoneyTrade) : Q :=
  match t_side trade with
  | BUY => (t_price trade * (1 + maxSlippage c))%Q
  | SELL => (t_price trade * (1 - maxSlippage c))%Q
  end.

(** The same two computations on binary64 numbers. *)
Definition sizing64 (size sizeScale price maxSizePerTrade : float) : float * float :=
  let copySize := (size * sizeScale)%float in
  let copyValue := (copySize * price)%float in
  if (maxSizePerTrade <? copyValue)%float
  then ((maxSizePerTrade / price)%float, maxSizePerTrade)
  else (copySize, copyValue).

Definition slippagePrice64 (side : Side) (price maxSlippage : float) : float :=
  match side with
  | BUY => (price * (1 + maxSlippage))%float
  | SELL => (price * (1 - maxSlippage))%float
  end.

(** The numeric guards of the handler on binary64 numbers, from "Filters"
    to "Polymarket minimum order": the [amount] of the order a trade of this
    size and price leads to, [None] when a guard skips the trade. *)
Definition amount64 (size price sizeScale maxSizePerTrade minTradeSize : float)
    : option float :=
  let tradeValue := (size * price)%float in
  if (tradeValue <? minTradeSize)%float then None
  else
    let '(_, copyValue) := sizing64 size sizeScale price maxSizePerTrade in
    if (copyValue <? 1)%float then None else Some copyValue.

(** The [catch] block of the handler. *)
Definition catchBlock (c : Session) (w : World) : World :=
  let w := modify (stats c) failed w in
  match onError c with
  | None => w
  | Some Returned => emit (OnErrorCalled (stats c)) w
  | Some Threw => emit (UnhandledRejection (stats c)) (emit (OnErrorCalled (stats c)) w)
  end.

(** From [if (result.success)] to the end of the [try] block. *)
Definition settle (c : Session) (trade : SmartMoneyTrade) (usdcAmount : Q)
    (r : OrderResult) (w : World) : World :=
  let w :=
    if success r then modify (stats c) (executed usdcAmount) w
    else modify (stats c) failed w in
  match onTrade c with
  | None => w
  | Some callback =>
      let w := emit (OnTradeCalled (stats c) trade r) w in
      match callback trade r with
      | Returned => w
      | Threw => catchBlock c w
      end
  end.

(** From "Token" to the [await] of [createMarketOrder]; in a dry run, to
    the end. *)
Definition afterDelay (c : Session) (trade : SmartMoneyTrade)
    (copySize copyValue : Q) (w : World) : World :=
  match Stream.truthyString (t_tokenId trade) with
  | None => modify (stats c) skipped w
  | Some tokenId =>
      let usdcAmount := copyValue in
      if dryRun c then
        let r := {| success := true;
                    orderId := Some ("dry_run_" +:+ pretty (clock w)) |} in
        settle c trade usdcAmount r
          (emit (ConsoleDryRun (stats c) trade copySize usdcAmount) w)
      else
        suspend (AwaitOrder c trade usdcAmount)
          (emit (CreateMarketOrder (stats c)
                   {| mo_tokenId := tokenId; mo_side := t_side trade;
                      mo_amount := usdcAmount;
                      mo_price := slippagePrice c trade;
                      mo_orderType := orderType c |}) w)
  end.

(** The handler given to [subscribeSmartMoneyTrades], up to its first
    [await].  Sizes and prices are numbers here; what the guards make of a
    [NaN] is in [amount64]. *)
Definition handler (c : Session) (trade : SmartMoneyTrade) (w : World) : World :=
  let w := modify (stats c) detected w in
  if negb (includes (targetAddresses c) (toLowerCase (t_traderAddress trade)))
  then w
  else
    let tradeValue := (t_size trade * t_price trade)%Q in
    if Qltb tradeValue (minTradeSize c) then modify (stats c) skipped w
    else if match sideFilter c with
            | Some side => negb (bool_decide (t_side trade = side))
            | None => false
            end
    then modify (stats c) skipped w
    else
      let '(copySize, copyValue) := sizing c trade in
      if Qltb copyValue MIN_ORDER_SIZE then modify (stats c) skipped w
      else if (0 <? delay c)%Z
      then suspend (AwaitDelay c trade copySize copyValue) w
      else afterDelay c trade copySize copyValue w.

(** The trades that pass every early [return] of the handler, the test for
    a token included. *)
Definition qualifying (c : Session) (trade : SmartMoneyTrade) : bool :=
  includes (targetAddresses c) (toLowerCase (t_traderAddress trade))
  && negb (Qltb (t_size trade * t_price trade)%Q (minTradeSize c))
  && match sideFilter c with
     | Some side => bool_decide (t_side trade = side)
     | None => true
     end
  && negb (Qltb (sizing c trade).2 MIN_ORDER_SIZE)
  && match Stream.truthyString (t_tokenId trade) with
     | Some _ => true
     | None => false
     end.

(** The orders handed to [tradingService.createMarketOrder]. *)
Definition backendCalls (j : list Effect) : list MarketOrder :=
  omap (fun e => match e with CreateMarketOrder _ order => Some order | _ => None end) j.

(** What [await tradingService.createMarketOrder(...)] settles to; an
    exception thrown by the call itself is a rejection. *)
Inductive BackendReply :=
| Resolved (r : OrderResult)
| Rejected.

(** The timer of the [i]-th parked invocation fires. *)
Definition timerFires (i : nat) (w : World) : World :=
  match inflight w !! i with
  | Some (AwaitDelay c trade copySize copyValue) =>
      afterDelay c trade copySize copyValue (resume i w)
  | _ => w
  end.

(** The backend answers the [i]-th parked invocation. *)
Definition orderSettles (i : nat) (reply : BackendReply) (w : World) : World :=
  match inflight w !! i with
  | Some (AwaitOrder c trade usdcAmount) =>
      match reply with
      | Resolved r => settle c trade usdcAmount r (resume i w)
      | Rejected => catchBlock c (resume i w)
      end
  | _ => w
  end.

(** What can happen to the sessions, one turn of the event loop each. *)
Inductive Event :=
| Tick (now : Z)
| Trade (c : Session) (trade : SmartMoneyTrade)
| TimerFires (i : nat)
| OrderSettles (i : nat) (reply : BackendReply).

Definition step (w : World) (e : Event) : World :=
  match e with
  | Tick now => setClock now w
  | Trade c trade => handler c trade w
  | TimerFires i => timerFires i w
  | OrderSettles i reply => orderSettles i reply w
  end.

Definition run (es : list Event) (w : World) : World := foldl step w es.

(** *** Vocabulary for the stats invariants *)

(** The session a parked invocation belongs to, and the notional it holds. *)
Definition owner (k : Suspended) : Session :=
  match k with
  | AwaitDelay c _ _ _ => c
  | AwaitOrder c _ _ => c
  end.

Definition parkedValue (k : Suspended) : Q :=
  match k with
  | AwaitDelay _ _ _ copyValue => copyValue
  | AwaitOrder _ _ usdcAmount => usdcAmount
  end.

(** The invocations in flight that will write to the stats object at [l]. *)
Definition pending (l : loc) (w : World) : nat :=
  length (filter (fun k => stats (owner k) = l) (inflight w)).

(** The terminal outcomes counted so far. *)
Definition finished (s : AutoCopyTradingStats) : N :=
  (tradesSkipped s + tradesExecuted s + tradesFailed s)%N.

(** No counter of [s'] is below its value in [s]. *)
Definition statsLe (s s' : AutoCopyTradingStats) : Prop :=
  startTime s' = startTime s
  /\ (tradesDetected s <= tradesDetected s')%N
  /\ (tradesExecuted s <= tradesExecuted s')%N
  /\ (tradesSkipped s <= tradesSkipped s')%N
  /\ (tradesFailed s <= tradesFailed s')%N
  /\ (totalUsdcSpent s <= totalUsdcSpent s')%Q.

(** From [s] to [s']: [d] more detected, [k] more terminal outcomes, nothing
    lower. *)
Definition bumped (d k : N) (s s' : AutoCopyTradingStats) : Prop :=
  statsLe s s'
  /\ tradesDetected s' = (tradesDetected s + d)%N
  /\ finished s' = (finished s + k)%N.

(** From [w] to [w']: the stats object of session [c] is bumped, the other
    objects are as they were, and no object appears. *)
Definition effect (c : Session) (d k : N) (w w' : World) : Prop :=
  (forall l s, heap w !! l = Some s ->
     exists s', heap w' !! l = Some s'
       /\ if decide (l = stats c) then bumped d k s s' else s' = s)
  /\ (forall l, heap w !! l = None -> heap w' !! l = None).

(** The [onTrade] callback of the session never throws. *)
Definition returning (c : Session) : Prop :=
  match onTrade c with
  | Some callback => forall trade r, callback trade r = Returned
  | None => True
  end.

(** Every parked invocation holds a notional that passed the minimum
    order size. *)
Definition sound (w : World) : Prop :=
  Forall (fun k => (0 <= parkedValue k)%Q) (inflight w).

(** Every detected trade has at most one terminal outcome, counted or
    still to come. *)
Definition accounted (w : World) : Prop :=
  forall l s, heap w !! l = Some s ->
    (finished s + N.of_nat (pending l w) <= tradesDetected s)%N.

(** The callbacks of the sessions involved never throw: those of the
    parked invocations, those of the trades still to be delivered. *)
Definition quietWorld (w : World) : Prop :=
  Forall (fun k => returning (owner k)) (inflight w).

Definition quietEvent (e : Event) : Prop :=
  match e with
  | Trade c _ => returning c
  | _ => True
  end.

(** The parked invocation an event resumes. *)
Definition resumes (e : Event) : option nat :=
  match e with
  | TimerFires i => Some i
  | OrderSettles i _ => Some i
  | _ => None
  end.

(** The handler as the stream sees it: an [async] function returns its
    promise, it never throws into the dispatch loop.  The closure is
    allocated together with the stats object it captured; the location of
    that object names both. *)
Definition listener (c : Session) : Stream.Handler World :=
  {| Stream.handlerId := stats c;
     Stream.call := fun trade w => (handler c trade w, Returned) |}.

(** The object returned by [startAutoCopyTrading]; [s_stats] is the
    reference held by its [stats] field and captured by [getStats],
    [s_subscription] the subscription captured by [stop]. *)
Record AutoCopyTradingSubscription := {
  s_id : string;
  s_targetAddresses : list string;
  s_startTime : Z;
  s_isActive : bool;
  s_stats : loc;
  s_subscription : Stream.Subscription;
}.

(** [[...new Set(l)]]: first occurrences, in order. *)
Definition dedupe (l : list string) : list string :=
  foldl (fun seen x => if includes seen x then seen else seen ++ [x]) [] l.

Definition Engine : Type := Stream.t World * World.

Section WithConfig.
Variable config : ServiceConfig.

(** [startAutoCopyTrading(options)]: [provider] and [now'] are the
    leaderboard provider and the clock when its answer is consumed.
    [None] is a rejected promise: the provider failed, or "No target
    addresses". *)
Definition startAutoCopyTrading (options : AutoCopyTradingOptions)
    (provider : Cache.Provider) (now' : Z) (e : Engine)
    : option AutoCopyTradingSubscription * Engine :=
  let '(svc, w) := e in
  let startTime := clock w in
  let targetAddresses :=
    match o_targetAddresses options with
    | Some (a :: l) => toLowerCase <$> (a :: l)
    | _ => []
    end in
  let top :=
    match o_topN options with
    | Some (S n) =>
        Some (Cache.getSmartMoneyList config (S n) (clock w) provider now'
                (Stream.cache svc))
    | _ => None
    end in
  let svc1 :=
    match top with
    | Some r =>
        {| Stream.cache := Cache.after r;
           Stream.activeSubscription := Stream.activeSubscription svc;
           Stream.tradeHandlers := Stream.tradeHandlers svc;
           Stream.providerCalls := Stream.providerCalls svc ++ Cache.providerCalls r;
           Stream.upstreamOpened := Stream.upstreamOpened svc;
           Stream.upstreamClosed := Stream.upstreamClosed svc |}
    | None => svc
    end in
  let w1 := match top with Some _ => setClock now' w | None => w end in
  match
    match top with
    | Some r =>
        match Cache.result r with
        | Some smartMoneyList =>
            Some (dedupe (targetAddresses ++ (w_address <$> smartMoneyList)))
        | None => None
        end
    | None => Some targetAddresses
    end
  with
  | None | Some [] => (None, (svc1, w1))
  | Some targetAddresses =>
      (* a new object: no live object and no registered function has its name *)
      let l :=
        fresh (dom (heap w1)
               ∪ list_to_set (Stream.handlerId <$> Stream.tradeHandlers svc1)) in
      let w2 :=
        {| clock := clock w1;
           heap := <[ l := {| startTime := startTime; tradesDetected := 0;
                              tradesExecuted := 0; tradesSkipped := 0;
                              tradesFailed := 0; totalUsdcSpent := 0 |} ]> (heap w1);
           inflight := inflight w1; journal := journal w1 |} in
      let minTradeSize := default 10%Q (o_minTradeSize options) in
      let c :=
        {| stats := l;
           targetAddresses := targetAddresses;
           sizeScale := default (1 # 10)%Q (o_sizeScale options);
           maxSizePerTrade := default 50%Q (o_maxSizePerTrade options);
           maxSlippage := default (3 # 100)%Q (o_maxSlippage options);
           orderType := default FOK (o_orderType options);
           minTradeSize := minTradeSize;
           sideFilter := o_sideFilter options;
           delay := default 0%Z (o_delay options);
           dryRun := default false (o_dryRun options);
           onTrade := o_onTrade options;
           onError := o_onError options |} in
      let '(subscription, svc2) :=
        Stream.subscribeSmartMoneyTrades config (listener c)
          {| filterAddresses := Some targetAddresses;
             minSize := Some minTradeSize;
             smartMoneyOnly := None |}
          (clock w2) svc1 in
      (Some {| s_id := Stream.id subscription;
               s_targetAddresses := targetAddresses;
               s_startTime := startTime;
               s_isActive := true;
               s_stats := l;
               s_subscription := subscription |},
       (svc2, w2))
  end.
End WithConfig.

(** [stop: () => subscription.unsubscribe()]. *)
Definition stop (sub : AutoCopyTradingSubscription) (e : Engine) : Engine :=
  (Stream.unsubscribe (s_subscription sub) e.1, e.2).

(** [getStats: () => ({ ...stats })]: a new object with the fields of the
    live one; the result is its location. *)
Definition getStats (sub : AutoCopyTradingSubscription) (w : World) : loc * World :=
  let l' := fresh (dom (heap w)) in
  (l',
   match heap w !! s_stats sub with
   | Some s =>
       {| clock := clock w; heap := <[ l' := s ]> (heap w);
          inflight := inflight w; journal := journal w |}
   | None => w
   end).

(** Reading [subscription.stats]. *)
Definition readStats (sub : AutoCopyTradingSubscription) (w : World)
    : option AutoCopyTradingStats :=
  heap w !! s_stats sub.

End AutoCopy.

(** ** Sample inputs *)

Module Sample.

Definition alice : LeaderboardEntry :=
  {| le_address := "0xAAA"; le_userName := Some "alice"; le_pnl := 5000;
     le_volume := 200000; le_rank := Some 1%nat |}.

Definition bob : LeaderboardEntry :=
  {| le_address := "0xbbb"; le_userName := None; le_pnl := 2500;
     le_volume := 90000; le_rank := None |}.

Definition carol : LeaderboardEntry :=
  {| le_address := "0xCcC"; le_userName := None; le_pnl := 400;
     le_volume := 1000; le_rank := None |}.

(** A provider that answers with the first [limit] entries of a board. *)
Definition board (entries : list LeaderboardEntry) : Cache.Provider :=
  fun offset limit => Cache.Entries (take limit (drop offset entries)).

(** The cache after a first refresh that saw alice and bob. *)
Definition afterFirst : Cache.t :=
  Cache.after
    (Cache.getSmartMoneyList defaultConfig 100 1000000 (board [alice; bob; carol])
       1000020 Cache.empty).

(** The cache after a second refresh, one TTL later, in which alice no
    longer appears. *)
Definition afterSecond : Cache.t :=
  Cache.after
    (Cache.getSmartMoneyList defaultConfig 100 1300020 (board [bob]) 1300050 afterFirst).

(** The cache after a second refresh whose response lists bob before
    alice. *)
Definition afterReordered : Cache.t :=
  Cache.after
    (Cache.getSmartMoneyList defaultConfig 100 1300020 (board [bob; alice]) 1300050
       afterFirst).

(** Listeners over a world that logs who ran: one returns, one throws. *)
Definition recorder (id : nat) : Stream.Handler (list nat) :=
  {| Stream.handlerId := id;
     Stream.call := fun _ w => (w ++ [id], Returned) |}.

Definition thrower (id : nat) : Stream.Handler (list nat) :=
  {| Stream.handlerId := id;
     Stream.call := fun _ w => (w ++ [id], Threw) |}.

Definition onlyAlice : SubscribeOptions :=
  {| filterAddresses := Some ["0xAAA"]; minSize := None; smartMoneyOnly := None |}.

(** A stream event of the given trader. *)
Definition activity (address : string) : ActivityTrade :=
  {| a_trader := Some {| tr_address := Some address; tr_name := None |};
     a_conditionId := None; a_marketSlug := Some "will-it-rain";
     a_side := BUY; a_size := 100; a_price := 1 # 2;
     a_asset := Some "token-1"; a_outcome := Some "Yes";
     a_transactionHash := None; a_timestamp := 1700000000 |}.

(** Listener 1 subscribes without options and opens the stream; listener 2
    subscribes next, for alice only. *)
Definition openThenFiltered : Stream.t (list nat) :=
  (Stream.subscribeSmartMoneyTrades defaultConfig (recorder 2) onlyAlice 1000
     (Stream.subscribeSmartMoneyTrades defaultConfig (recorder 1) noOptions 1000
        Stream.init).2).2.

(** The other way round: the listener for alice only opens the stream. *)
Definition filteredThenOpen : Stream.t (list nat) :=
  (Stream.subscribeSmartMoneyTrades defaultConfig (recorder 2) noOptions 1000
     (Stream.subscribeSmartMoneyTrades defaultConfig (recorder 1) onlyAlice 1000
        Stream.init).2).2.

(** Three listeners, the middle one throws. *)
Definition withThrower : Stream.t (list nat) :=
  (Stream.subscribeSmartMoneyTrades defaultConfig (recorder 3) noOptions 1000
     (Stream.subscribeSmartMoneyTrades defaultConfig (thrower 2) noOptions 1000
        (Stream.subscribeSmartMoneyTrades defaultConfig (recorder 1) noOptions 1000
           Stream.init).2).2).2.

(** A source trade of alice: 100 shares at 0.50. *)
Definition aliceBuys : SmartMoneyTrade :=
  {| t_traderAddress := "0xaaa"; t_traderName := Some "alice";
     t_conditionId := None; t_marketSlug := Some "will-it-rain";
     t_side := BUY; t_size := 100; t_price := 1 # 2;
     t_tokenId := Some "token-1"; t_outcome := Some "Yes"; t_txHash := None;
     t_timestamp := 1700000000; t_isSmartMoney := true; t_smartMoneyInfo := None |}.

(** A large one: 10000 shares at 0.60. *)
Definition aliceBuysBig : SmartMoneyTrade :=
  {| t_traderAddress := "0xaaa"; t_traderName := Some "alice";
     t_conditionId := None; t_marketSlug := Some "will-it-rain";
     t_side := BUY; t_size := 10000; t_price := 6 # 10;
     t_tokenId := Some "token-1"; t_outcome := Some "Yes"; t_txHash := None;
     t_timestamp := 1700000001; t_isSmartMoney := true; t_smartMoneyInfo := None |}.

(** Options that follow alice; everything else by default. *)
Definition followAlice (dry : bool)
    (callback : option (SmartMoneyTrade -> OrderResult -> Completion))
    (wait : option Z) : AutoCopyTradingOptions :=
  {| o_targetAddresses := Some ["0xAAA"]; o_topN := None; o_sizeScale := None;
     o_maxSizePerTrade := None; o_maxSlippage := None; o_orderType := None;
     o_delay := wait; o_minTradeSize := None; o_sideFilter := None;
     o_dryRun := Some dry; o_onTrade := callback; o_onError := None |}.

(** The session [startAutoCopyTrading] builds for these options on a new
    service: its stats object is at location 0. *)
Definition session (dry : bool)
    (callback : option (SmartMoneyTrade -> OrderResult -> Completion))
    (wait : Z) : AutoCopy.Session :=
  {| AutoCopy.stats := 0; AutoCopy.targetAddresses := ["0xaaa"];
     AutoCopy.sizeScale := 1 # 10; AutoCopy.maxSizePerTrade := 50;
     AutoCopy.maxSlippage := 3 # 100; AutoCopy.orderType := FOK;
     AutoCopy.minTradeSize := 10; AutoCopy.sideFilter := None;
     AutoCopy.delay := wait; AutoCopy.dryRun := dry;
     AutoCopy.onTrade := callback; AutoCopy.onError := None |}.

Definition newEngine : AutoCopy.Engine := (Stream.init, AutoCopy.emptyWorld).

(** A dry-run session started on a new service. *)
Definition started : option AutoCopy.AutoCopyTradingSubscription * AutoCopy.Engine :=
  AutoCopy.startAutoCopyTrading defaultConfig (followAlice true None None)
    (board []) 0 newEngine.

Definition startedSubscription : AutoCopy.AutoCopyTradingSubscription :=
  {| AutoCopy.s_id := "smart_money_0"; AutoCopy.s_targetAddresses := ["0xaaa"];
     AutoCopy.s_startTime := 0; AutoCopy.s_isActive := true; AutoCopy.s_stats := 0;
     AutoCopy.s_subscription :=
       {| Stream.id := "smart_money_0"; Stream.onTrade := 0 |} |}.

(** A callback that throws. *)
Definition throwing : SmartMoneyTrade -> OrderResult -> Completion :=
  fun _ _ => Threw.

(** The same with a callback that throws. *)
Definition startedThrowing : option AutoCopy.AutoCopyTradingSubscription * AutoCopy.Engine :=
  AutoCopy.startAutoCopyTrading defaultConfig (followAlice true (Some throwing) None)
    (board []) 0 newEngine.

End Sample.

(** ** The cache over time *)

Module CacheRun.

(** What happens to the cache: an answer of the provider is consumed by a
    refresh, or the service is disconnected. *)
Inductive Op :=
| Refresh (entries : list LeaderboardEntry) (now' : Z)
| Disconnect.

Definition apply (config : ServiceConfig) (st : Cache.t) (op : Op) : Cache.t :=
  match op with
  | Refresh entries now' => (Cache.refresh config entries now' st).2
  | Disconnect => Cache.disconnect st
  end.

(** The cache of a service after these operations. *)
Definition run (config : ServiceConfig) (ops : list Op) : Cache.t :=
  foldl (apply config) Cache.empty ops.

(** The membership set holds the keys of the mapping; every key is the
    address of its wallet, in lower case. *)
Definition coherent (st : Cache.t) : Prop :=
  (forall k, k ∈ Cache.smartMoneySet st <-> JsMap.has k (Cache.smartMoneyCache st) = true)
  /\ Forall (fun kv => kv.1 = w_address kv.2 /\ toLowerCase kv.1 = kv.1)
       (Cache.smartMoneyCache st).

End CacheRun.

(** ** The subscription service over time *)

Module StreamRun.
Section WithWorld.
Context {World : Type}.

(** What the users of the service do to it, and the provider answering a
    warm-up. *)
Inductive Op :=
| Subscribe (h : Stream.Handler World) (options : SubscribeOptions) (now : Z)
| Unsubscribe (sub : Stream.Subscription)
| WarmupSettles (reply : Cache.ProviderReply) (now' : Z)
| Disconnect.

Definition apply (config : ServiceConfig) (svc : Stream.t World) (op : Op)
    : Stream.t World :=
  match op with
  | Subscribe h options now => (Stream.subscribeSmartMoneyTrades config h options now svc).2
  | Unsubscribe sub => Stream.unsubscribe sub svc
  | WarmupSettles reply now' => Stream.warmupSettles config reply now' svc
  | Disconnect => Stream.disconnect svc
  end.

(** The service after these operations on a new one. *)
Definition run (config : ServiceConfig) (ops : list Op) : Stream.t World :=
  foldl (apply config) Stream.init ops.

(** One upstream subscription is open exactly while functions are
    registered; a function is registered once; the upstream subscriptions
    were closed in the order they were opened, each once, and the one open
    now is the only one not closed. *)
Definition wellFormed (svc : Stream.t World) : Prop :=
  (Stream.activeSubscription svc = None <-> Stream.tradeHandlers svc = [])
  /\ NoDup (Stream.handlerId <$> Stream.tradeHandlers svc)
  /\ Stream.upstreamClosed svc = seq 0 (length (Stream.upstreamClosed svc))
  /\ match Stream.activeSubscription svc with
     | Some up =>
         Stream.upstreamId up = length (Stream.upstreamClosed svc)
         /\ Stream.upstreamOpened svc = S (length (Stream.upstreamClosed svc))
     | None => Stream.upstreamOpened svc = length (Stream.upstreamClosed svc)
     end.

End WithWorld.
Arguments Op : clear implicits.
End StreamRun.

(** ** What the sessions can spend *)

Module Limits.
Import AutoCopy.

(** An invariant of the sessions' world, in three parts: [I] of the stats
    objects, [K] of the parked invocations, [J] of what has been done to the
    outside since the journal was [j0]. *)
Definition holds (I : loc -> AutoCopyTradingStats -> Prop) (K : Suspended -> Prop)
    (J : Effect -> Prop) (j0 : list Effect) (w : World) : Prop :=
  (forall l s, heap w !! l = Some s -> I l s)
  /\ Forall K (inflight w)
  /\ exists j, journal w = j0 ++ j /\ Forall J j.

(** A trade delivered to a session parks an invocation that [K] accepts, if
    it parks one. *)
Definition admits (K : Suspended -> Prop) (e : Event) : Prop :=
  match e with
  | Trade c trade =>
      (MIN_ORDER_SIZE <= (sizing c trade).2)%Q ->
      K (AwaitDelay c trade (sizing c trade).1 (sizing c trade).2)
  | _ => True
  end.

Section WithCap.
(** A limit per stats object, that is per session. *)
Variable cap : loc -> Q.

Definition parkedWithin (k : Suspended) : Prop :=
  (MIN_ORDER_SIZE <= parkedValue k)%Q /\ (parkedValue k <= cap (stats (owner k)))%Q.

Definition eventWithin (e : Event) : Prop :=
  match e with
  | Trade c _ => (maxSizePerTrade c <= cap (stats c))%Q
  | _ => True
  end.

Definition effectWithin (eff : Effect) : Prop :=
  match eff with
  | CreateMarketOrder l order =>
      (MIN_ORDER_SIZE <= mo_amount order)%Q /\ (mo_amount order <= cap l)%Q
  | _ => True
  end.

End WithCap.



(** Dry-run sessions only. *)
Definition dryEvent (e : Event) : Prop :=
  match e with
  | Trade c _ => dryRun c = true
  | _ => True
  end.

Definition dryParked (k : Suspended) : Prop :=
  match k with
  | AwaitDelay c _ _ _ => dryRun c = true
  | AwaitOrder _ _ _ => False
  end.

Definition noOrder (eff : Effect) : Prop :=
  match eff with
  | CreateMarketOrder _ _ => False
  | _ => True
  end.

End Limits.

(** ** Market categories *)

(** The regular expressions of this file are of two shapes:
    [/\b(w1|...|wn)\b/], with or without the [i] flag, and [/.*/].  Titles
    are read as ASCII text, as addresses are. *)
Module RegExp.

Inductive t :=
| Words (alternatives : list string) (ignoreCase : bool)
| Anything.

(** [String.prototype.toUpperCase] on one ASCII character: what the [i]
    flag compares. *)
Definition upper_ascii (c : ascii) : ascii :=
  let n := nat_of_ascii c in
  if (97 <=? n)%nat && (n <=? 122)%nat then ascii_of_nat (n - 32) else c.

(** [\w]: a letter, a digit or the underscore. *)
Definition isWordChar (c : ascii) : bool :=
  let n := nat_of_ascii c in
  ((48 <=? n)%nat && (n <=? 57)%nat)
  || ((65 <=? n)%nat && (n <=? 90)%nat)
  || ((97 <=? n)%nat && (n <=? 122)%nat)
  || (n =? 95)%nat.

Definition matchChar (ignoreCase : bool) (p c : ascii) : bool :=
  if ignoreCase then Ascii.eqb (upper_ascii p) (upper_ascii c) else Ascii.eqb p c.

(** The word [p] read at the head of [s]: the last character read ([prev]
    if [p] is empty) and what is left of [s]. *)
Fixpoint matchPrefix (ignoreCase : bool) (p : string) (prev : option ascii) (s : string)
    : option (option ascii * string) :=
  match p, s with
  | EmptyString, _ => Some (prev, s)
  | String a p', String c s' =>
      if matchChar ignoreCase a c then matchPrefix ignoreCase p' (Some c) s' else None
  | String _ _, EmptyString => None
  end.

(** [\b] between the character [prev] and the head of [s]. *)
Definition boundary (prev : option ascii) (s : string) : bool :=
  xorb (match prev with Some c => isWordChar c | None => false end)
       (match s with String c _ => isWordChar c | EmptyString => false end).

(** The expression matches at this position. *)
Definition matchHere (alternatives : list string) (ignoreCase : bool)
    (prev : option ascii) (s : string) : bool :=
  boundary prev s
  && existsb (fun p => match matchPrefix ignoreCase p prev s with
                       | Some (last, rest) => boundary last rest
                       | None => false
                       end) alternatives.

(** It matches at some position of [s], [prev] the character before. *)
Fixpoint matchFrom (alternatives : list string) (ignoreCase : bool)
    (prev : option ascii) (s : string) : bool :=
  matchHere alternatives ignoreCase prev s
  || match s with
     | String c s' => matchFrom alternatives ignoreCase (Some c) s'
     | EmptyString => false
     end.

(** [RegExp.prototype.test]. *)
Definition test (re : t) (s : string) : bool :=
  match re with
  | Words alternatives ignoreCase => matchFrom alternatives ignoreCase None s
  | Anything => true
  end.

End RegExp.

Inductive MarketCategory :=
| crypto | politics | sports | entertainment | economics | science | other.

#[global] Instance MarketCategory_eq_dec : EqDecision MarketCategory.
Proof. solve_decision. Defined.

(** The alternatives of the six expressions; the class method spells out the
    same six lists. *)
Definition cryptoWords : list string :=
  ["btc"; "bitcoin"; "eth"; "ethereum"; "sol"; "solana"; "xrp"; "crypto"; "doge"; "ada";
   "matic"].
Definition politicsWords : list string :=
  ["trump"; "biden"; "election"; "president"; "senate"; "congress"; "vote"; "political";
   "maga"; "democrat"; "republican"].
Definition sportsWords : list string :=
  ["nfl"; "nba"; "mlb"; "nhl"; "super bowl"; "world cup"; "championship"; "game"; "match";
   "ufc"; "soccer"; "football"; "basketball"].
Definition economicsWords : list string :=
  ["fed"; "interest rate"; "inflation"; "gdp"; "recession"; "economic"; "unemployment";
   "cpi"].
Definition entertainmentWords : list string :=
  ["oscar"; "grammy"; "movie"; "twitter"; "celebrity"; "entertainment"; "netflix";
   "spotify"].
Definition scienceWords : list string :=
  ["spacex"; "nasa"; "ai"; "openai"; "google"; "apple"; "tesla"; "tech"; "technology";
   "science"].

Definition CATEGORY_KEYWORDS (category : MarketCategory) : RegExp.t :=
  match category with
  | crypto => RegExp.Words cryptoWords true
  | politics => RegExp.Words politicsWords true
  | sports => RegExp.Words sportsWords true
  | economics => RegExp.Words economicsWords true
  | entertainment => RegExp.Words entertainmentWords true
  | science => RegExp.Words scienceWords true
  | other => RegExp.Anything
  end.

(** The exported [categorizeMarket(title)]. *)
Definition categorizeMarket (title : string) : MarketCategory :=
  let lowerTitle := toLowerCase title in
  if RegExp.test (CATEGORY_KEYWORDS crypto) lowerTitle then crypto
  else if RegExp.test (CATEGORY_KEYWORDS politics) lowerTitle then politics
  else if RegExp.test (CATEGORY_KEYWORDS sports) lowerTitle then sports
  else if RegExp.test (CATEGORY_KEYWORDS economics) lowerTitle then economics
  else if RegExp.test (CATEGORY_KEYWORDS entertainment) lowerTitle then entertainment
  else if RegExp.test (CATEGORY_KEYWORDS science) lowerTitle then science
  else other.

Definition CATEGORY_LABELS (category : MarketCategory) : string :=
  match category with
  | crypto => "Crypto"
  | politics => "Politics"
  | sports => "Sports"
  | entertainment => "Entertainment"
  | economics => "Economics"
  | science => "Science"
  | other => "Other"
  end.

(** ** Built-ins of the reports *)

(** [Array.prototype.sort(compare)]: the sort is stable, and for a
    comparator that orders the elements its result is the one list that is
    sorted and keeps equal elements in their order; this insertion sort
    computes it.  [compare a b < 0] puts [a] first. *)
Module JsArray.
Section Sort.
Context {A : Type} (compare : A -> A -> Q).

Fixpoint insert (x : A) (l : list A) : list A :=
  match l with
  | [] => [x]
  | y :: r => if Qle_bool (compare x y) 0 then x :: y :: r else y :: insert x r
  end.

Definition sort (l : list A) : list A := foldr insert [] l.
End Sort.

(** [l.reduce((sum, x) => sum + f(x), 0)]. *)
Definition sum {A : Type} (f : A -> Q) (l : list A) : Q :=
  foldl (fun acc x => (acc + f x)%Q) 0%Q l.

(** [l.slice(0, limit)], for a [limit] that is a natural number. *)
Definition slice0 {A : Type} (limit : nat) (l : list A) : list A := take limit l.
End JsArray.

Definition Qmax (a b : Q) : Q := if Qltb a b then b else a.

(** [Math.max(x, ...rest)] and [Math.min(x, ...rest)] of one argument or
    more. *)
Definition Math_max (x : Q) (rest : list Q) : Q := foldl Qmax x rest.
Definition Math_maxZ (x : Z) (rest : list Z) : Z := foldl Z.max x rest.
Definition Math_minZ (x : Z) (rest : list Z) : Z := foldl Z.min x rest.

(** [String.prototype.includes]. *)
Fixpoint String_includes (sub s : string) : bool :=
  String.prefix sub s
  || match s with
     | String _ r => String_includes sub r
     | EmptyString => false
     end.

(** A [Map] with keys compared by a decidable equality, in insertion
    order. *)
Module KeyedMap.
Section Ops.
Context {K V : Type} `{EqDecision K}.

Fixpoint set (k : K) (v : V) (m : list (K * V)) : list (K * V) :=
  match m with
  | [] => [(k, v)]
  | (k', v') :: r => if decide (k' = k) then (k, v) :: r else (k', v') :: set k v r
  end.

Fixpoint get (k : K) (m : list (K * V)) : option V :=
  match m with
  | [] => None
  | (k', v') :: r => if decide (k' = k) then Some v' else get k r
  end.
End Ops.
End KeyedMap.

(** ** Wallet reports *)

Module Reports.

(** [ClosedPosition] and [Position] of the data API, as far as the reports
    read them. *)
Record ClosedPosition := {
  cp_title : string;
  cp_conditionId : string;
  cp_realizedPnl : Q;
  cp_totalBought : Q;
  cp_avgPrice : Q;
  cp_curPrice : Q;
  cp_timestamp : Z;
}.

Record Position := {
  p_title : option string;
  p_outcome : option string;
  p_size : Q;
  p_curPrice : option Q;
  p_currentValue : option Q;
  p_cashPnl : option Q;
}.

(** The class method [categorizeMarket(title)]. *)
Definition categorizeMarket (title : string) : MarketCategory :=
  let lowerTitle := toLowerCase title in
  if RegExp.test (RegExp.Words cryptoWords false) lowerTitle then crypto
  else if RegExp.test (RegExp.Words politicsWords false) lowerTitle then politics
  else if RegExp.test (RegExp.Words sportsWords false) lowerTitle then sports
  else if RegExp.test (RegExp.Words economicsWords false) lowerTitle then economics
  else if RegExp.test (RegExp.Words entertainmentWords false) lowerTitle then entertainment
  else if RegExp.test (RegExp.Words scienceWords false) lowerTitle then science
  else other.

(** *** Paging through the closed positions *)

(** What [await this.dataApi.getClosedPositions(address, { limit, offset,
    ... })] settles to. *)
Inductive DataReply :=
| Page (result : list ClosedPosition)
| DataError.

Definition DataApi := nat -> nat -> DataReply.   (* offset, limit *)

(** The settled promise and the requests [(offset, limit)] made. *)
Record Fetched := {
  fetched : option (list ClosedPosition);   (* [None]: rejected *)
  requests : list (nat * nat);
}.

(** The [for] loop with [remaining] iterations to go. *)
Fixpoint fetchLoop (api : DataApi) (remaining : nat) (offset : nat)
    (allPositions : list ClosedPosition) (asked : list (nat * nat)) : Fetched :=
  match remaining with
  | O => {| fetched := Some allPositions; requests := asked |}
  | S remaining' =>
      let limit := 50%nat in
      let asked := asked ++ [(offset, limit)] in
      match api offset limit with
      | DataError => {| fetched := None; requests := asked |}
      | Page result =>
          if (length result =? 0)%nat
          then {| fetched := Some allPositions; requests := asked |}
          else
            let allPositions := allPositions ++ result in
            if (length result <? limit)%nat
            then {| fetched := Some allPositions; requests := asked |}
            else fetchLoop api remaining' (offset + limit) allPositions asked
      end
  end.

(** [fetchAllClosedPositions(address)]; [dataApi] is [None] when the
    service was built without one. *)
Definition fetchAllClosedPositions (dataApi : option DataApi) : Fetched :=
  match dataApi with
  | None => {| fetched := Some []; requests := [] |}
  | Some api => fetchLoop api 200 0 [] []
  end.

(** A data API that pages through the list [all]. *)
Definition paged (all : list ClosedPosition) : DataApi :=
  fun offset limit => Page (take limit (drop offset all)).

(** *** Performance *)

Record PerformanceMetrics := {
  totalPnL : Q;
  realizedPnL : Q;
  unrealizedPnL : Q;
  totalVolume : Q;
  winRate : Q;
  profitFactor : Q;
  avgWin : Q;
  avgLoss : Q;
  maxWin : Q;
  maxLoss : Q;
  totalMarketsTraded : nat;
  winningMarkets : nat;
  losingMarkets : nat;
}.

(** A count as a number. *)
Definition number (n : nat) : Q := inject_Z (Z.of_nat n).

(** [calculatePerformanceMetricsFromClosed]; the sums and quotients are
    exact here, those of the code are rounded. *)
Definition calculatePerformanceMetricsFromClosed (closedPositions : list ClosedPosition)
    (currentPositions : list Position) : PerformanceMetrics :=
  let wins := List.filter (fun p => Qltb 0 (cp_realizedPnl p)) closedPositions in
  let losses := List.filter (fun p => Qltb (cp_realizedPnl p) 0) closedPositions in
  let totalWinAmount := JsArray.sum cp_realizedPnl wins in
  let totalLossAmount := Qabs (JsArray.sum cp_realizedPnl losses) in
  let realizedPnL := JsArray.sum cp_realizedPnl closedPositions in
  let unrealizedPnL := JsArray.sum (fun p => default 0%Q (p_cashPnl p)) currentPositions in
  {| totalPnL := realizedPnL + unrealizedPnL;
     realizedPnL := realizedPnL;
     unrealizedPnL := unrealizedPnL;
     totalVolume := JsArray.sum cp_totalBought closedPositions;
     winRate :=
       if (0 <? length closedPositions)%nat
       then number (length wins) / number (length closedPositions) else 0;
     profitFactor :=
       if Qltb 0 totalLossAmount then totalWinAmount / totalLossAmount else totalWinAmount;
     avgWin := if (0 <? length wins)%nat then totalWinAmount / number (length wins) else 0;
     avgLoss :=
       if (0 <? length losses)%nat then totalLossAmount / number (length losses) else 0;
     maxWin :=
       match cp_realizedPnl <$> wins with
       | x :: rest => Math_max x rest
       | [] => 0
       end;
     maxLoss :=
       match (fun p => Qabs (cp_realizedPnl p)) <$> losses with
       | x :: rest => Math_max x rest
       | [] => 0
       end;
     totalMarketsTraded := length closedPositions;
     winningMarkets := length wins;
     losingMarkets := length losses |}.

(** *** Categories *)

Record CategoryStats := {
  cs_category : MarketCategory;
  cs_tradeCount : nat;
  cs_volume : Q;
  cs_pnl : Q;
  cs_percentage : Q;
}.

(** The values of [categoryMap]. *)
Record Tally := {
  count : nat;
  volume : Q;
  pnl : Q;
}.

(** One turn of the [for] loop of [calculateCategoryDistributionFromClosed],
    and the loop. *)
Definition tallyStep (categoryMap : list (MarketCategory * Tally)) (pos : ClosedPosition)
    : list (MarketCategory * Tally) :=
  let category := categorizeMarket (cp_title pos) in
  let current :=
    default {| count := 0; volume := 0; pnl := 0 |} (KeyedMap.get category categoryMap) in
  KeyedMap.set category
    {| count := count current + 1;
       volume := volume current + cp_totalBought pos;
       pnl := pnl current + cp_realizedPnl pos |} categoryMap.

Definition tally (positions : list ClosedPosition) : list (MarketCategory * Tally) :=
  foldl tallyStep [] positions.

(** How many of the positions are in a category. *)
Definition positionsIn (category : MarketCategory) (positions : list ClosedPosition) : nat :=
  length (List.filter (fun p => bool_decide (categorizeMarket (cp_title p) = category))
            positions).

Definition calculateCategoryDistributionFromClosed (positions : list ClosedPosition)
    : list CategoryStats :=
  let categoryMap := tally positions in
  let total := length positions in
  JsArray.sort (fun a b => (number (cs_tradeCount b) - number (cs_tradeCount a))%Q)
    ((fun '(category, stats) =>
        {| cs_category := category;
           cs_tradeCount := count stats;
           cs_volume := volume stats;
           cs_pnl := pnl stats;
           cs_percentage :=
             if (0 <? total)%nat then (number (count stats) / number total) * 100 else 0 |})
       <$> categoryMap).

(** *** Best and worst markets *)

Inductive Outcome := win | lose.

Record MarketStats := {
  ms_market : string;
  ms_conditionId : string;
  ms_category : MarketCategory;
  ms_pnl : Q;
  ms_volume : Q;
  ms_tradeCount : nat;
  ms_outcome : Outcome;
  ms_avgPrice : Q;
  ms_closePrice : Q;
}.

Definition toMarketStats (outcome : Outcome) (p : ClosedPosition) : MarketStats :=
  {| ms_market := cp_title p;
     ms_conditionId := cp_conditionId p;
     ms_category := categorizeMarket (cp_title p);
     ms_pnl := cp_realizedPnl p;
     ms_volume := cp_totalBought p;
     ms_tradeCount := 1;
     ms_outcome := outcome;
     ms_avgPrice := cp_avgPrice p;
     ms_closePrice := cp_curPrice p |}.

Definition getTopMarkets (positions : list ClosedPosition) (limit : nat)
    : list MarketStats :=
  toMarketStats win
    <$> JsArray.slice0 limit
          (JsArray.sort (fun a b => (cp_realizedPnl b - cp_realizedPnl a)%Q)
             (List.filter (fun p => Qltb 0 (cp_realizedPnl p)) positions)).


(** *** Trading patterns *)

Inductive PreferredSide := YES | NO | balanced.

Record TradingPatterns := {
  avgTradesPerDay : Q;
  avgTradesPerWeek : Q;
  preferredSide : PreferredSide;
  avgPositionSize : Q;
  avgHoldingDays : Q;
  topCategories : list MarketCategory;
  positionConcentration : Q;
}.

(** [p.currentValue ?? p.size * (p.curPrice ?? 0)]. *)
Definition positionValue (p : Position) : Q :=
  default (p_size p * default 0 (p_curPrice p))%Q (p_currentValue p).

(** [p.outcome?.toLowerCase() === a || p.outcome?.toLowerCase() === b]. *)
Definition outcomeIs (a b : string) (p : Position) : bool :=
  match p_outcome p with
  | Some o => String.eqb (toLowerCase o) a || String.eqb (toLowerCase o) b
  | None => false
  end.

(** Timestamps are whole numbers of milliseconds within the range of
    [Date]: [new Date(t).getTime()] is [t]. *)
Definition analyzeTradingPatterns (closedPositions : list ClosedPosition)
    (currentPositions : list Position) : TradingPatterns :=
  let '(avgTradesPerDay, avgTradesPerWeek) :=
    match cp_timestamp <$> closedPositions with
    | t :: ts =>
        let firstDate := Math_minZ t ts in
        let lastDate := Math_maxZ t ts in
        let totalDays :=
          Z.max 1 (Qceiling (inject_Z (lastDate - firstDate)
                             / inject_Z (1000 * 60 * 60 * 24))%Q) in
        let avgTradesPerDay := (number (length closedPositions) / inject_Z totalDays)%Q in
        (avgTradesPerDay, (avgTradesPerDay * 7)%Q)
    | [] => (0%Q, 0%Q)
    end in
  let yesPositions := List.filter (outcomeIs "yes" "up") currentPositions in
  let noPositions := List.filter (outcomeIs "no" "down") currentPositions in
  let preferredSide :=
    if Qltb (number (length noPositions) * (3 # 2))%Q (number (length yesPositions)) then YES
    else if Qltb (number (length yesPositions) * (3 # 2))%Q (number (length noPositions))
    then NO
    else balanced in
  let avgPositionSize :=
    if (0 <? length closedPositions)%nat
    then (JsArray.sum cp_totalBought closedPositions / number (length closedPositions))%Q
    else 0%Q in
  let categoryStats := calculateCategoryDistributionFromClosed closedPositions in
  let topCategories := cs_category <$> JsArray.slice0 3 categoryStats in
  let totalValue := JsArray.sum positionValue currentPositions in
  let maxPositionValue :=
    match positionValue <$> currentPositions with
    | x :: rest => Math_max x rest
    | [] => 0%Q
    end in
  let positionConcentration :=
    if Qltb 0 totalValue then (maxPositionValue / totalValue)%Q else 0%Q in
  {| avgTradesPerDay := avgTradesPerDay;
     avgTradesPerWeek := avgTradesPerWeek;
     preferredSide := preferredSide;
     avgPositionSize := avgPositionSize;
     avgHoldingDays := 0;
     topCategories := topCategories;
     positionConcentration := positionConcentration |}.

End Reports.

(** ** Style, risk and recommendation *)

Module Assessment.
Import Reports.

Record TradingStyle := {
  positionPreference : string;
  tradingFrequency : string;
  positionManagement : string;
  primaryFocus : string;
}.

Record RiskAssessment := {
  concentrationRisk : string;
  drawdownRisk : string;
  overallRisk : string;
}.

Record CopyRecommendation := {
  verdict : string;
  reasoning : string;
  suitableMarkets : list string;
  avoidMarkets : list string;
  warnings : list string;
}.

Section WithFormat.
(** [x.toFixed(digits)]: the decimal formatting of numbers is left open. *)
Variable toFixed : Q -> nat -> string.

Definition analyzeTradingStyle (patterns : TradingPatterns)
    (categoryDistribution : list CategoryStats) : TradingStyle :=
  let positionPreference :=
    match preferredSide patterns with
    | YES => "YES-biased (tends to bet on positive outcomes)"
    | NO => "NO-biased (tends to bet against outcomes)"
    | balanced => "Balanced (no strong directional bias)"
    end in
  let tradingFrequency :=
    if Qltb 10 (avgTradesPerDay patterns) then "High-frequency (>10 trades/day)"
    else if Qltb 3 (avgTradesPerDay patterns) then "Active (3-10 trades/day)"
    else if Qltb 1 (avgTradesPerDay patterns) then "Moderate (1-3 trades/day)"
    else "Low-frequency (<1 trade/day)" in
  let positionManagement :=
    if Qltb (1 # 2) (positionConcentration patterns)
    then "Concentrated (high single-position exposure)"
    else if Qltb (1 # 4) (positionConcentration patterns) then "Moderate diversification"
    else "Well-diversified" in
  let primaryFocus :=
    match head categoryDistribution with
    | Some topCategory =>
        CATEGORY_LABELS (cs_category topCategory) +:+ " ("
        +:+ toFixed (cs_percentage topCategory) 0 +:+ "% of trades)"
    | None => "Diversified"
    end in
  {| positionPreference := positionPreference;
     tradingFrequency := tradingFrequency;
     positionManagement := positionManagement;
     primaryFocus := primaryFocus |}.

Definition assessRisk (performance : PerformanceMetrics) (patterns : TradingPatterns)
    (categoryDistribution : list CategoryStats) : RiskAssessment :=
  let topCategoryShare :=
    default 0%Q (Stream.truthyNumber (cs_percentage <$> head categoryDistribution)) in
  let concentrationRisk :=
    if Qltb 70 topCategoryShare then "High (>70% in single category)"
    else if Qltb 50 topCategoryShare then "Medium (50-70% in top category)"
    else "Low (well diversified)" in
  let maxLossRatio := (maxLoss performance / Qmax (Qabs (realizedPnL performance)) 1)%Q in
  let drawdownRisk :=
    if Qltb (1 # 2) maxLossRatio then "High (max loss >50% of total PnL)"
    else if Qltb (1 # 4) maxLossRatio then "Medium"
    else "Low" in
  let overallRisk :=
    if Qltb (winRate performance) (4 # 10) || Qltb (profitFactor performance) 1
    then "HIGH - Unprofitable strategy"
    else if Qltb (winRate performance) (1 # 2) || Qltb (profitFactor performance) (3 # 2)
    then "MEDIUM - Moderate performance"
    else if Qltb (1 # 2) (positionConcentration patterns)
    then "MEDIUM - High concentration"
    else "LOW - Solid track record" in
  {| concentrationRisk := concentrationRisk;
     drawdownRisk := drawdownRisk;
     overallRisk := overallRisk |}.

Definition generateRecommendation (performance : PerformanceMetrics)
    (risk : RiskAssessment) (style : TradingStyle) : CopyRecommendation :=
  let '(verdict, reasoning) :=
    if Qle_bool (6 # 10) (winRate performance) && Qle_bool (3 # 2) (profitFactor performance)
    then ("RECOMMENDED",
          "This wallet shows consistent profitability with a "
          +:+ toFixed (winRate performance * 100) 0 +:+ "% win rate and "
          +:+ toFixed (profitFactor performance) 1
          +:+ "x profit factor. The trading pattern is suitable for copy trading.")
    else if Qle_bool (1 # 2) (winRate performance)
            && Qle_bool (12 # 10) (profitFactor performance)
    then ("CAUTIOUSLY RECOMMENDED",
          "This wallet is profitable but with moderate consistency. Consider following with smaller position sizes.")
    else if Qltb 0 (realizedPnL performance)
    then ("NOT RECOMMENDED",
          "While overall profitable, the low win rate ("
          +:+ toFixed (winRate performance * 100) 0 +:+ "%) or profit factor ("
          +:+ toFixed (profitFactor performance) 1
          +:+ "x) suggests inconsistent performance.")
    else ("AVOID",
          "This wallet has negative overall performance. Not suitable for copy trading.") in
  let warnings := [] in
  let warnings :=
    if String_includes "HIGH" (overallRisk risk)
    then warnings ++ ["High risk profile detected"] else warnings in
  let warnings :=
    if (winningMarkets performance <? losingMarkets performance)%nat
    then warnings ++ ["More losing markets than winning markets"] else warnings in
  let warnings :=
    if String_includes "High-frequency" (tradingFrequency style)
    then warnings ++ ["High-frequency trading may incur significant fees when copying"]
    else warnings in
  {| verdict := verdict;
     reasoning := reasoning;
     suitableMarkets := [];
     avoidMarkets := [];
     warnings := warnings |}.

(** The three steps as [buildTextReport] chains them, on the figures
    [getLifecycleReport] computes from the positions of a wallet. *)
Definition recommend (closedPositions : list ClosedPosition)
    (currentPositions : list Position) : CopyRecommendation :=
  let performance := calculatePerformanceMetricsFromClosed closedPositions currentPositions in
  let categoryDistribution := calculateCategoryDistributionFromClosed closedPositions in
  let patterns := analyzeTradingPatterns closedPositions currentPositions in
  let tradingStyle := analyzeTradingStyle patterns categoryDistribution in
  let riskAssessment := assessRisk performance patterns categoryDistribution in
  generateRecommendation performance riskAssessment tradingStyle.

End WithFormat.
End Assessment.

(** ** Comparing wallets *)

Module Comparison.

(** [PeriodLeaderboardEntry] of the wallet service, as far as it is read. *)
Record PeriodLeaderboardEntry := {
  pe_userName : option string;
  pe_rank : option nat;
  pe_pnl : option Q;
  pe_volume : option Q;
}.

(** What a call of the wallet service settles to. *)
Inductive Reply (A : Type) :=
| Fulfilled (value : A)
| Failed.
Arguments Fulfilled {A} _.
Arguments Failed {A}.

Record WalletService := {
  getUserPeriodPnl : string -> string -> Reply (option PeriodLeaderboardEntry);
  getWalletPositions : string -> Reply (list Reports.Position);
}.

Record Row := {
  r_address : string;
  r_userName : option string;
  r_rank : option nat;
  r_pnl : Q;
  r_volume : Q;
  r_positionCount : nat;
  r_winRate : Q;
}.

Record WalletComparison := {
  period : string;
  generatedAt : Z;
  wallets : list Row;
}.

(** The function mapped over the addresses. *)
Definition row (walletService : WalletService) (period : string) (address : string) : Row :=
  let periodPnl :=
    match getUserPeriodPnl walletService address period with
    | Fulfilled entry => entry
    | Failed => None
    end in
  let positions :=
    match getWalletPositions walletService address with
    | Fulfilled positions => positions
    | Failed => []
    end in
  let winningPositions :=
    List.filter (fun p => Qltb 0 (default 0%Q (Reports.p_cashPnl p))) positions in
  let winRate :=
    if (0 <? length positions)%nat
    then (Reports.number (length winningPositions) / Reports.number (length positions) * 100)%Q
    else 0%Q in
  {| r_address := address;
     r_userName := periodPnl ≫= pe_userName;
     r_rank := periodPnl ≫= pe_rank;
     r_pnl := default 0%Q (periodPnl ≫= pe_pnl);
     r_volume := default 0%Q (periodPnl ≫= pe_volume);
     r_positionCount := length positions;
     r_winRate := winRate |}.

(** [compareWallets(addresses, options)] at clock [now]. *)
Definition compareWallets (walletService : WalletService) (addresses : list string)
    (optionsPeriod : option string) (now : Z) : WalletComparison :=
  let period := default "week" optionsPeriod in
  let results := row walletService period <$> addresses in
  {| period := period;
     generatedAt := now;
     wallets := JsArray.sort (fun a b => (r_pnl b - r_pnl a)%Q) results |}.

End Comparison.

(** ** Pie charts *)

Definition CATEGORY_COLORS (category : MarketCategory) : string :=
  match category with
  | crypto => "#f7931a"
  | politics => "#3b82f6"
  | sports => "#22c55e"
  | entertainment => "#a855f7"
  | economics => "#eab308"
  | science => "#06b6d4"
  | other => "#6b7280"
  end.

Module Charts.

Record PieSlice := {
  ps_name : string;
  ps_value : Q;
  ps_percentage : Q;
  ps_color : string;
}.

Record PieChartData := {
  pc_name : string;
  pc_data : list PieSlice;
  pc_total : Q;
}.

(** The items [{ title, value }] a chart is built from. *)
Record Item := {
  i_title : string;
  i_value : Q;
}.

Inductive ValueField := Count | Value | Pnl.   (* 'count' | 'value' | 'pnl' *)

(** One turn of the [for] loop of [buildPieChart]. *)
Definition pieStep (categoryMap : list (MarketCategory * Q)) (item : Item)
    : list (MarketCategory * Q) :=
  let category := Reports.categorizeMarket (i_title item) in
  let current := default 0%Q (Stream.truthyNumber (KeyedMap.get category categoryMap)) in
  KeyedMap.set category (current + i_value item)%Q categoryMap.

(** [buildPieChart(name, items, _valueField)]; the third argument is not
    used.  The sums and percentages are exact here, those of the code are
    rounded. *)
Definition buildPieChart (name : string) (items : list Item) (_valueField : ValueField)
    : PieChartData :=
  let categoryMap := foldl pieStep [] items in
  let total := JsArray.sum (fun b => b) categoryMap.*2 in
  let data :=
    JsArray.sort (fun a b => (ps_value b - ps_value a)%Q)
      ((fun '(category, value) =>
          {| ps_name := CATEGORY_LABELS category;
             ps_value := value;
             ps_percentage := if Qltb 0 total then (value / total * 100)%Q else 0%Q;
             ps_color := CATEGORY_COLORS category |})
         <$> categoryMap) in
  {| pc_name := name; pc_data := data; pc_total := total |}.

End Charts.

(** * Verified properties *)

Lemma Qltb_lt x y : Qltb x y = true <-> (x < y)%Q.
Proof.
  unfold Qltb. rewrite negb_true_iff. split.
  - intros H. apply Qnot_le_lt. intros Hle. apply Qle_bool_iff in Hle. congruence.
  - intros H. destruct (Qle_bool y x) eqn:E; [|reflexivity].
    apply Qle_bool_iff in E. exfalso. exact (Qlt_not_le _ _ H E).
Qed.

Lemma Qltb_ge x y : Qltb x y = false <-> (y <= x)%Q.
Proof.
  unfold Qltb. rewrite negb_false_iff. apply Qle_bool_iff.
Qed.


(** ** Properties of the JavaScript map *)

Section JsMapFacts.
Context {V : Type}.
Implicit Types (m : list (string * V)) (k : string) (v : V).

Lemma JsMap_get_set k k' v m :
  JsMap.get k (JsMap.set k' v m) = if String.eqb k' k then Some v else JsMap.get k m.
Proof.
  induction m as [|[k0 v0] r IH]; simpl.
  - reflexivity.
  - destruct (String.eqb k0 k') eqn:E0; simpl.
    + apply String.eqb_eq in E0. subst k0. destruct (String.eqb k' k); reflexivity.
    + destruct (String.eqb k0 k) eqn:E1.
      * destruct (String.eqb k' k) eqn:E2; [|reflexivity].
        apply String.eqb_eq in E1, E2. subst. rewrite String.eqb_refl in E0. discriminate.
      * exact IH.
Qed.

Lemma JsMap_has_set k k' v m :
  JsMap.has k (JsMap.set k' v m) = String.eqb k' k || JsMap.has k m.
Proof.
  unfold JsMap.has. rewrite JsMap_get_set. destruct (String.eqb k' k); reflexivity.
Qed.

Lemma JsMap_values_set (P : V -> Prop) k v m :
  P v -> Forall P (JsMap.values m) -> Forall P (JsMap.values (JsMap.set k v m)).
Proof.
  intros Hv. unfold JsMap.values. induction m as [|[k0 v0] r IH]; simpl; intros H.
  - constructor; [exact Hv | constructor].
  - inversion H as [|? ? H0 Hr]; subst.
    destruct (String.eqb k0 k); simpl; constructor; auto.
Qed.

Lemma JsMap_get_values k v m : JsMap.get k m = Some v -> v ∈ JsMap.values m.
Proof.
  unfold JsMap.values. induction m as [|[k0 v0] r IH]; simpl; [discriminate|].
  destruct (String.eqb k0 k).
  - intros [= ->]. left.
  - intros H. right. auto.
Qed.
End JsMapFacts.



(** ** The cohort cache *)

Section CacheFacts.
Variable config : ServiceConfig.

Lemma selected_meets i entries :
  Forall (Cache.meetsThreshold config) (Cache.selected config i entries).
Proof.
  revert i. induction entries as [|e r IH]; intros i; simpl; [constructor|].
  unfold Cache.qualifies. destruct (Qltb (le_pnl e) (minPnl config)) eqn:E; simpl.
  - apply IH.
  - constructor; [|apply IH]. unfold Cache.meetsThreshold. simpl.
    by apply Qltb_ge.
Qed.

Lemma selected_length i entries :
  (length (Cache.selected config i entries) <= length entries)%nat.
Proof.
  revert i. induction entries as [|e r IH]; intros i; simpl; [lia|].
  destruct (Cache.qualifies config e); simpl; specialize (IH (S i)); lia.
Qed.

(** The selected wallets are the qualifying entries, in the order of the
    response. *)
Lemma selected_order i entries :
  (fun w => (w_address w, w_name w, w_pnl w, w_volume w)) <$> Cache.selected config i entries
  = (fun e => (toLowerCase (le_address e), le_userName e, le_pnl e, le_volume e))
      <$> List.filter (Cache.qualifies config) entries.
Proof.
  revert i. induction entries as [|e r IH]; intros i; simpl; [reflexivity|].
  destruct (Cache.qualifies config e); simpl; rewrite IH; reflexivity.
Qed.

Lemma refreshLoop_spec i entries acc st :
  let r := Cache.refreshLoop config i entries acc st in
  r.1 = acc ++ Cache.selected config i entries
  /\ Cache.smartMoneySet r.2
     = list_to_set (w_address <$> Cache.selected config i entries) ∪ Cache.smartMoneySet st
  /\ (forall k, JsMap.has k (Cache.smartMoneyCache r.2)
               = JsMap.has k (Cache.smartMoneyCache st)
                 || includes (w_address <$> Cache.selected config i entries) k)
  /\ Cache.cacheTimestamp r.2 = Cache.cacheTimestamp st
  /\ (Cache.cacheMeetsThreshold config st -> Cache.cacheMeetsThreshold config r.2).
Proof.
  revert i acc st. induction entries as [|e r IH]; intros i acc st; simpl.
  - rewrite app_nil_r. repeat split; [set_solver | | done].
    intros k. unfold includes. rewrite bool_decide_eq_false_2; [|apply not_elem_of_nil].
    by rewrite orb_false_r.
  - unfold Cache.qualifies. destruct (Qltb (le_pnl e) (minPnl config)) eqn:E; simpl.
    + apply IH.
    + specialize (IH (S i) (acc ++ [Cache.toWallet i e])
        {| Cache.smartMoneyCache :=
             JsMap.set (toLowerCase (le_address e)) (Cache.toWallet i e)
               (Cache.smartMoneyCache st);
           Cache.smartMoneySet := {[toLowerCase (le_address e)]} ∪ Cache.smartMoneySet st;
           Cache.cacheTimestamp := Cache.cacheTimestamp st |}).
      simpl in IH. destruct IH as (H1 & H2 & H3 & H4 & H5).
      repeat split.
      * rewrite H1, <- app_assoc. reflexivity.
      * rewrite H2. set_solver.
      * intros k. rewrite H3, JsMap_has_set. unfold includes.
        destruct (String.eqb_spec (toLowerCase (le_address e)) k) as [->|Hne]; simpl.
        -- rewrite (bool_decide_eq_true_2 (k ∈ k :: _)); [|left].
           by rewrite !orb_true_r.
        -- rewrite orb_comm at 1. destruct (JsMap.has k (Cache.smartMoneyCache st)); simpl.
           ++ by rewrite orb_true_r.
           ++ rewrite orb_false_r. apply bool_decide_ext. set_solver.
      * exact H4.
      * intros Hst. apply H5. unfold Cache.cacheMeetsThreshold. simpl.
        apply JsMap_values_set; [|exact Hst].
        unfold Cache.meetsThreshold. simpl. by apply Qltb_ge.
Qed.

Lemma refresh_spec entries now' st :
  let r := Cache.refresh config entries now' st in
  r.1 = Cache.selected config 0 entries
  /\ Cache.smartMoneySet r.2
     = list_to_set (w_address <$> Cache.selected config 0 entries) ∪ Cache.smartMoneySet st
  /\ (forall k, JsMap.has k (Cache.smartMoneyCache r.2)
               = JsMap.has k (Cache.smartMoneyCache st)
                 || includes (w_address <$> Cache.selected config 0 entries) k)
  /\ Cache.cacheTimestamp r.2 = now'
  /\ (Cache.cacheMeetsThreshold config st -> Cache.cacheMeetsThreshold config r.2).
Proof.
  unfold Cache.refresh.
  pose proof (refreshLoop_spec 0 entries [] st) as H. simpl in H.
  destruct (Cache.refreshLoop config 0 entries [] st) as [l st'] eqn:E. simpl in *.
  destruct H as (H1 & H2 & H3 & H4 & H5). repeat split; auto.
Qed.

End CacheFacts.

(** C1 fails on the code.  Refresh #1 makes alice a member; refresh #2, one
    TTL later, consumes a response without her, and the list it returns
    leaves her out; afterwards [isSmartMoney] still answers [true] for her
    address and the cached list of the same function still holds her
    wallet.  Only [disconnect()] clears the two collections. *)
Lemma stale_member_survives_refresh :
  let first :=
    Cache.getSmartMoneyList defaultConfig 100 1000000
      (Sample.board [Sample.alice; Sample.bob; Sample.carol]) 1000020 Cache.empty in
  let second :=
    Cache.getSmartMoneyList defaultConfig 100 1300020 (Sample.board [Sample.bob])
      1300050 (Cache.after first) in
  let st2 := Cache.after second in
  Cache.providerCalls first = [(0, 100)%nat]
  /\ Cache.result (Cache.isSmartMoney defaultConfig "0xAAA" 1000030
                     (Sample.board []) 1000030 (Cache.after first)) = Some true
  /\ Cache.providerCalls second = [(0, 100)%nat]
  /\ w_address <$> default [] (Cache.result second) = ["0xbbb"]
  /\ Cache.result (Cache.isSmartMoney defaultConfig "0xAAA" 1300060
                     (Sample.board []) 1300060 st2) = Some true
  /\ w_address <$> default [] (Cache.result
        (Cache.getSmartMoneyList defaultConfig 100 1300060 (Sample.board []) 1300060 st2))
     = ["0xaaa"; "0xbbb"]
  /\ Cache.smartMoneySet (Cache.disconnect st2) = ∅
  /\ Cache.smartMoneyCache (Cache.disconnect st2) = [].
Proof. vm_compute. repeat split; reflexivity. Qed.

Section MergeFacts.
Variable config : ServiceConfig.

(** The record the loop leaves under a key: the one built from the last
    qualifying entry of the response with that address, and the record held
    before when the response has none. *)
Lemma refreshLoop_get i entries acc st k :
  JsMap.get k (Cache.smartMoneyCache (Cache.refreshLoop config i entries acc st).2)
  = match last (filter (fun w => w_address w = k) (Cache.selected config i entries)) with
    | Some w => Some w
    | None => JsMap.get k (Cache.smartMoneyCache st)
    end.
Proof.
  revert i acc st. induction entries as [|e r IH]; intros i acc st; simpl; [reflexivity|].
  unfold Cache.qualifies. destruct (Qltb (le_pnl e) (minPnl config)); simpl; [apply IH|].
  rewrite IH. simpl. rewrite filter_cons, JsMap_get_set. simpl.
  set (rest := filter (fun w => w_address w = k) (Cache.selected config (S i) r)).
  destruct (String.eqb_spec (toLowerCase (le_address e)) k) as [Heq|Hne].
  - rewrite decide_True by exact Heq. rewrite last_cons.
    destruct (last rest); reflexivity.
  - rewrite decide_False by exact Hne. reflexivity.
Qed.

Lemma refresh_get entries now' st k :
  JsMap.get k (Cache.smartMoneyCache (Cache.refresh config entries now' st).2)
  = match last (filter (fun w => w_address w = k) (Cache.selected config 0 entries)) with
    | Some w => Some w
    | None => JsMap.get k (Cache.smartMoneyCache st)
    end.
Proof.
  unfold Cache.refresh. pose proof (refreshLoop_get 0 entries [] st k) as H.
  destruct (Cache.refreshLoop config 0 entries [] st) as [l st']. exact H.
Qed.

End MergeFacts.

(** No refresh evicts.  The refreshing call returns the wallets built from
    the qualifying entries of the response; the membership set and the
    mapping keep every previous entry and gain those wallets: under each key
    the mapping holds the record built from the last qualifying entry of the
    response with that address, and the record it held before when the
    response has none.  So a previous member stays a member, and stays in
    the cached list, whether or not the response mentions it. *)
Lemma refresh_merges config limit now provider now' st entries :
  Cache.isCacheValid config now st = false ->
  provider 0%nat limit = Cache.Entries entries ->
  let r := Cache.getSmartMoneyList config limit now provider now' st in
  let added := Cache.selected config 0 entries in
  Cache.result r = Some added
  /\ Cache.smartMoneySet (Cache.after r)
     = list_to_set (w_address <$> added) ∪ Cache.smartMoneySet st
  /\ (forall k, JsMap.get k (Cache.smartMoneyCache (Cache.after r))
               = match last (filter (fun w => w_address w = k) added) with
                 | Some w => Some w
                 | None => JsMap.get k (Cache.smartMoneyCache st)
                 end)
  /\ Cache.cacheTimestamp (Cache.after r) = now'
  /\ (forall address later p n,
        toLowerCase address ∈ Cache.smartMoneySet st ->
        Cache.isCacheValid config later (Cache.after r) = true ->
        Cache.result (Cache.isSmartMoney config address later p n (Cache.after r))
        = Some true)
  /\ (forall k w later p n lim,
        JsMap.get k (Cache.smartMoneyCache st) = Some w ->
        k ∉ w_address <$> added ->
        Cache.isCacheValid config later (Cache.after r) = true ->
        exists l,
          Cache.result (Cache.getSmartMoneyList config lim later p n (Cache.after r))
          = Some l
          /\ w ∈ l).
Proof.
  intros Hinvalid Hreply r added. subst r added.
  unfold Cache.getSmartMoneyList. rewrite Hinvalid, Hreply.
  pose proof (refresh_spec config entries now' st) as Hspec. simpl in Hspec.
  pose proof (refresh_get config entries now' st) as Hget.
  destruct (Cache.refresh config entries now' st) as [l st'] eqn:E. simpl in *.
  destruct Hspec as (H1 & H2 & H3 & H4 & _). subst l.
  split_and!; auto.
  - intros address later p n Hmem Hvalid.
    unfold Cache.isSmartMoney. rewrite Hvalid. simpl.
    rewrite bool_decide_eq_true_2; [reflexivity|]. rewrite H2. set_solver.
  - intros k w later p n lim Hheld Habsent Hvalid.
    exists (JsMap.values (Cache.smartMoneyCache st')). rewrite Hvalid. simpl.
    split; [reflexivity|]. apply (JsMap_get_values k). rewrite Hget.
    assert (Hnone : filter (fun w0 => w_address w0 = k) (Cache.selected config 0 entries)
                    = []).
    { revert Habsent. generalize (Cache.selected config 0 entries).
      induction l as [|w0 l IH]; [reflexivity|].
      rewrite fmap_cons, not_elem_of_cons, filter_cons. intros [Hne Hl].
      rewrite decide_False by congruence. by apply IH. }
    rewrite Hnone. exact Hheld.
Qed.

Lemma refresh_merges_example :
  Cache.result
    (Cache.getSmartMoneyList defaultConfig 100 1300020 (Sample.board [Sample.bob])
       1300050 Sample.afterFirst)
  = Some (Cache.selected defaultConfig 0 [Sample.bob]).
Proof.
  refine (proj1 (refresh_merges defaultConfig 100 1300020 (Sample.board [Sample.bob])
                   1300050 Sample.afterFirst [Sample.bob] _ _)).
  - vm_compute. reflexivity.
  - reflexivity.
Defined.

(** C2 fails on the valid-cache path.  A cache filled with two wallets
    answers [getSmartMoneyList(1)] with both, where the refresh path hands
    the same limit to the provider and returns one wallet; and after a
    refresh whose response lists bob before alice, the cached list still has
    alice first. *)
Lemma cached_list_ignores_limit_and_order :
  let r := Cache.getSmartMoneyList defaultConfig 1 1000030 (Sample.board []) 1000030
             Sample.afterFirst in
  let r' := Cache.getSmartMoneyList defaultConfig 100 1300060 (Sample.board []) 1300060
              Sample.afterReordered in
  let fresh := Cache.getSmartMoneyList defaultConfig 1 1000000
                 (Sample.board [Sample.alice; Sample.bob; Sample.carol]) 1000020
                 Cache.empty in
  Cache.isCacheValid defaultConfig 1000030 Sample.afterFirst = true
  /\ Cache.providerCalls r = []
  /\ length (default [] (Cache.result r)) = 2%nat
  /\ Cache.isCacheValid defaultConfig 1300060 Sample.afterReordered = true
  /\ Cache.providerCalls r' = []
  /\ w_address <$> default [] (Cache.result r') = ["0xaaa"; "0xbbb"]
  /\ Cache.providerCalls fresh = [(0, 1)%nat]
  /\ length (default [] (Cache.result fresh)) = 1%nat.
Proof. vm_compute. repeat split; reflexivity. Qed.

(** What does hold of [getSmartMoneyList].  On the valid-cache path it
    calls no provider, leaves the cache alone and returns cached wallets
    that all meet the threshold; on the refresh path it calls the provider
    once with the limit and returns the entries of the response that meet
    the threshold, in the order of the response, so at most [limit] of them
    when the response has at most [limit] entries. *)
Lemma getSmartMoneyList_paths config limit now provider now' st :
  Cache.cacheMeetsThreshold config st ->
  let r := Cache.getSmartMoneyList config limit now provider now' st in
  if Cache.isCacheValid config now st then
    Cache.providerCalls r = [] /\ Cache.after r = st
    /\ Cache.result r = Some (JsMap.values (Cache.smartMoneyCache st))
    /\ Forall (Cache.meetsThreshold config) (JsMap.values (Cache.smartMoneyCache st))
  else
    Cache.providerCalls r = [(0%nat, limit)]
    /\ forall entries, provider 0%nat limit = Cache.Entries entries ->
       exists l,
         Cache.result r = Some l
         /\ Forall (Cache.meetsThreshold config) l
         /\ (fun w => (w_address w, w_name w, w_pnl w, w_volume w)) <$> l
            = (fun e => (toLowerCase (le_address e), le_userName e, le_pnl e, le_volume e))
                <$> List.filter (Cache.qualifies config) entries
         /\ (length l <= length entries)%nat
         /\ ((length entries <= limit)%nat -> (length l <= limit)%nat)
         /\ Cache.cacheMeetsThreshold config (Cache.after r).
Proof.
  intros Hok r. subst r. unfold Cache.getSmartMoneyList.
  destruct (Cache.isCacheValid config now st) eqn:Hvalid; simpl.
  - repeat split. exact Hok.
  - split.
    + destruct (provider 0%nat limit); [|reflexivity].
      destruct (Cache.refresh config entries now' st). reflexivity.
    + intros entries ->.
      pose proof (refresh_spec config entries now' st) as Hspec. simpl in Hspec.
      destruct (Cache.refresh config entries now' st) as [l st'] eqn:E. simpl in *.
      destruct Hspec as (H1 & _ & _ & _ & H5). subst l.
      exists (Cache.selected config 0 entries). repeat split.
      * apply selected_meets.
      * apply selected_order.
      * apply selected_length.
      * intros Hle. pose proof (selected_length config 0 entries). lia.
      * auto.
Qed.

(** Both paths on the sample board: the first call refreshes, the call
    ten milliseconds later is answered from the cache. *)
Lemma getSmartMoneyList_paths_example :
  Cache.providerCalls
    (Cache.getSmartMoneyList defaultConfig 100 1000000
       (Sample.board [Sample.alice; Sample.bob; Sample.carol]) 1000020 Cache.empty)
  = [(0, 100)%nat]
  /\ Cache.providerCalls
       (Cache.getSmartMoneyList defaultConfig 1 1000030 (Sample.board []) 1000030
          Sample.afterFirst)
     = [].
Proof.
  split.
  - refine (proj1 (getSmartMoneyList_paths defaultConfig 100 1000000
                     (Sample.board [Sample.alice; Sample.bob; Sample.carol]) 1000020
                     Cache.empty _)).
    constructor.
  - assert (Hok : Cache.cacheMeetsThreshold defaultConfig Sample.afterFirst).
    { vm_compute. repeat constructor; discriminate. }
    pose proof (getSmartMoneyList_paths defaultConfig 1 1000030 (Sample.board [])
                  1000030 Sample.afterFirst Hok) as H.
    exact (proj1 H).
Qed.

(** ** The filter chain and the fan-out *)

Section StreamFacts.
Context {World : Type}.
Implicit Types (svc : Stream.t World) (h : Stream.Handler World).

(** The four rules of the filter chain, for the option set it is run with. *)
Lemma normalize_passes (options : SubscribeOptions) (c : Cache.t) (trade : ActivityTrade) :
  is_Some (Stream.normalize options c trade) <->
  exists rawAddress,
    Stream.truthyString (a_trader trade ≫= tr_address) = Some rawAddress
    /\ match filterAddresses options with
       | Some (a :: l) => toLowerCase rawAddress ∈ toLowerCase <$> (a :: l)
       | _ => True
       end
    /\ match Stream.truthyNumber (minSize options) with
       | Some m => (m <= a_size trade)%Q
       | None => True
       end
    /\ (smartMoneyOnly options = Some true ->
        toLowerCase rawAddress ∈ Cache.smartMoneySet c).
Proof.
  unfold Stream.normalize.
  destruct (Stream.truthyString (a_trader trade ≫= tr_address)) as [raw|]; cycle 1.
  { split; [intros [? [=]] | intros (? & [=] & _)]. }
  set (addr := toLowerCase raw).
  assert (Haddr :
    match filterAddresses options with
    | Some (a :: l) => negb (includes (toLowerCase <$> a :: l) addr)
    | _ => false
    end = false <->
    match filterAddresses options with
    | Some (a :: l) => addr ∈ toLowerCase <$> (a :: l)
    | _ => True
    end).
  { destruct (filterAddresses options) as [[|a l]|]; try tauto.
    unfold includes. rewrite negb_false_iff, bool_decide_eq_true. tauto. }
  assert (Hsize :
    match Stream.truthyNumber (minSize options) with
    | Some m => Qltb (a_size trade) m
    | None => false
    end = false <->
    match Stream.truthyNumber (minSize options) with
    | Some m => (m <= a_size trade)%Q
    | None => True
    end).
  { destruct (Stream.truthyNumber (minSize options)); [apply Qltb_ge | tauto]. }
  assert (Hsmart :
    default false (smartMoneyOnly options)
    && negb (bool_decide (addr ∈ Cache.smartMoneySet c)) = false <->
    (smartMoneyOnly options = Some true -> addr ∈ Cache.smartMoneySet c)).
  { destruct (smartMoneyOnly options) as [[|]|]; simpl.
    - rewrite negb_false_iff, bool_decide_eq_true. naive_solver.
    - naive_solver.
    - naive_solver. }
  split.
  - intros Hsome. exists raw. split; [reflexivity|].
    destruct (match filterAddresses options with
              | Some (a :: l) => negb (includes (toLowerCase <$> a :: l) addr)
              | _ => false end) eqn:E1; [by destruct Hsome|].
    destruct (match Stream.truthyNumber (minSize options) with
              | Some m => Qltb (a_size trade) m
              | None => false end) eqn:E2; [by destruct Hsome|].
    destruct (default false (smartMoneyOnly options)
              && negb (bool_decide (addr ∈ Cache.smartMoneySet c))) eqn:E3;
      [by destruct Hsome|].
    repeat split; [by apply Haddr | by apply Hsize | by apply Hsmart].
  - intros (raw' & [= <-] & H1 & H2 & H3).
    apply Haddr in H1. apply Hsize in H2. apply Hsmart in H3.
    fold addr in H3. rewrite H1, H2, H3. eauto.
Qed.

(** The loop calls every handler of the set once with the trade, in
    order, whatever each call does. *)
Lemma dispatch_delivered (handlers : list (Stream.Handler World))
    (trade : SmartMoneyTrade) (w : World) (tr : Stream.Trace) :
  Stream.delivered (Stream.dispatch handlers trade w tr).2
  = Stream.delivered tr ++ ((fun h => (Stream.handlerId h, trade)) <$> handlers).
Proof.
  revert w tr. induction handlers as [|h r IH]; intros w tr; simpl.
  - by rewrite app_nil_r.
  - unfold Stream.tryHandler. destruct (Stream.call h trade w) as [w' []];
      rewrite IH; simpl; by rewrite <- app_assoc.
Qed.

(** The handlers that threw are on the console, nothing else. *)
Lemma dispatch_handlerErrors (handlers : list (Stream.Handler World))
    (trade : SmartMoneyTrade) (w : World) (tr : Stream.Trace) :
  length (Stream.handlerErrors (Stream.dispatch handlers trade w tr).2)
  <= length (Stream.handlerErrors tr) + length handlers.
Proof.
  revert w tr. induction handlers as [|h r IH]; intros w tr; simpl; [lia|].
  unfold Stream.tryHandler. destruct (Stream.call h trade w) as [w' []].
  - specialize (IH w'
      {| Stream.delivered := Stream.delivered tr ++ [(Stream.handlerId h, trade)];
         Stream.handlerErrors := Stream.handlerErrors tr |}). simpl in IH. lia.
  - specialize (IH w'
      {| Stream.delivered := Stream.delivered tr ++ [(Stream.handlerId h, trade)];
         Stream.handlerErrors := Stream.handlerErrors tr ++ [Stream.handlerId h] |}).
    simpl in IH. rewrite length_app in IH. simpl in IH. lia.
Qed.

Lemma onActivityTrade_delivered svc trade w tr :
  Stream.delivered (Stream.onActivityTrade trade svc w tr).2
  = Stream.delivered tr ++ Stream.fanOut svc trade.
Proof.
  unfold Stream.onActivityTrade, Stream.handleActivityTrade, Stream.fanOut.
  destruct (Stream.activeSubscription svc) as [up|]; simpl; [|by rewrite app_nil_r].
  destruct (Stream.normalize _ _ _); simpl; [|by rewrite app_nil_r].
  apply dispatch_delivered.
Qed.

Lemma onActivityTrades_delivered svc trades w tr :
  Stream.delivered (Stream.onActivityTrades trades svc w tr).2
  = Stream.delivered tr ++ (trades ≫= Stream.fanOut svc).
Proof.
  revert w tr. induction trades as [|trade r IH]; intros w tr; simpl.
  - by rewrite app_nil_r.
  - pose proof (onActivityTrade_delivered svc trade w tr) as H1.
    destruct (Stream.onActivityTrade trade svc w tr) as [w' tr']. simpl in H1.
    rewrite IH, H1, <- app_assoc. reflexivity.
Qed.

(** The world a dispatch leaves is the one left by calling every handler
    in turn: a call that throws is followed by the next call like one that
    returns. *)
Lemma dispatch_callAll (handlers : list (Stream.Handler World))
    (trade : SmartMoneyTrade) (w : World) (tr : Stream.Trace) :
  (Stream.dispatch handlers trade w tr).1 = Stream.callAll handlers trade w.
Proof.
  unfold Stream.callAll. revert w tr.
  induction handlers as [|h r IH]; intros w tr; simpl; [reflexivity|].
  unfold Stream.tryHandler. destruct (Stream.call h trade w) as [w' []]; apply IH.
Qed.

(** The console holds the handlers that threw, in order, nothing else. *)
Lemma dispatch_throwers (handlers : list (Stream.Handler World))
    (trade : SmartMoneyTrade) (w : World) (tr : Stream.Trace) :
  Stream.handlerErrors (Stream.dispatch handlers trade w tr).2
  = Stream.handlerErrors tr ++ Stream.throwers handlers trade w.
Proof.
  revert w tr. induction handlers as [|h r IH]; intros w tr; simpl.
  - by rewrite app_nil_r.
  - unfold Stream.tryHandler. destruct (Stream.call h trade w) as [w' []]; simpl;
      rewrite IH; simpl; [reflexivity | by rewrite <- app_assoc].
Qed.

Lemma callAll_app (before after : list (Stream.Handler World))
    (trade : SmartMoneyTrade) (w : World) :
  Stream.callAll (before ++ after) trade w
  = Stream.callAll after trade (Stream.callAll before trade w).
Proof. unfold Stream.callAll. apply foldl_app. Qed.

Lemma throwers_app (before after : list (Stream.Handler World))
    (trade : SmartMoneyTrade) (w : World) :
  Stream.throwers (before ++ after) trade w
  = Stream.throwers before trade w
    ++ Stream.throwers after trade (Stream.callAll before trade w).
Proof.
  revert w. induction before as [|h r IH]; intros w; simpl; [reflexivity|].
  destruct (Stream.call h trade w) as [w' []]; simpl; rewrite IH; reflexivity.
Qed.

Lemma onActivityTrade_callAll svc trade w tr :
  (Stream.onActivityTrade trade svc w tr).1
  = match Stream.handedOn svc trade with
    | Some smartMoneyTrade => Stream.callAll (Stream.tradeHandlers svc) smartMoneyTrade w
    | None => w
    end.
Proof.
  unfold Stream.onActivityTrade, Stream.handleActivityTrade, Stream.handedOn.
  destruct (Stream.activeSubscription svc) as [up|]; [|reflexivity].
  destruct (Stream.normalize _ _ _); [apply dispatch_callAll | reflexivity].
Qed.

Lemma onActivityTrades_callAll svc trades w tr :
  (Stream.onActivityTrades trades svc w tr).1
  = foldl (fun w trade =>
             match Stream.handedOn svc trade with
             | Some smartMoneyTrade =>
                 Stream.callAll (Stream.tradeHandlers svc) smartMoneyTrade w
             | None => w
             end) w trades.
Proof.
  revert w tr. induction trades as [|trade r IH]; intros w tr; simpl; [reflexivity|].
  pose proof (onActivityTrade_callAll svc trade w tr) as H1.
  destruct (Stream.onActivityTrade trade svc w tr) as [w' tr']. simpl in H1.
  rewrite IH, H1. reflexivity.
Qed.

(** C8: a listener that throws does not keep the trade from the others.
    Whatever the registered handlers do when called, returning or throwing,
    one dispatch really calls every one of them with the same normalized
    trade, in the order of the set: the world it leaves is the world left
    by these calls made one after the other, each on what the call before
    left; the calls are logged once per handler and the console holds
    exactly the handlers that threw.  So when the handler after [before]
    throws, those in [after] are called all the same, starting from what the
    thrower left.  The loop and its [catch] write neither the handler set
    nor the subscription, so over any run of stream events every event that
    passes is handed in the same way to every registered handler, events
    after a throw included. *)
Theorem listener_exception_is_isolated svc trades handlers trade w tr :
  let result := Stream.dispatch handlers trade w tr in
  let stream := Stream.onActivityTrades trades svc w tr in
  result.1 = Stream.callAll handlers trade w
  /\ Stream.delivered result.2
     = Stream.delivered tr ++ ((fun h => (Stream.handlerId h, trade)) <$> handlers)
  /\ Stream.handlerErrors result.2
     = Stream.handlerErrors tr ++ Stream.throwers handlers trade w
  /\ (forall before h after,
        handlers = before ++ h :: after ->
        let w1 := Stream.callAll before trade w in
        (Stream.call h trade w1).2 = Threw ->
        result.1 = Stream.callAll after trade (Stream.call h trade w1).1
        /\ Stream.handlerId h ∈ Stream.handlerErrors result.2)
  /\ stream.1
     = foldl (fun w trade =>
                match Stream.handedOn svc trade with
                | Some smartMoneyTrade =>
                    Stream.callAll (Stream.tradeHandlers svc) smartMoneyTrade w
                | None => w
                end) w trades
  /\ Stream.delivered stream.2 = Stream.delivered tr ++ (trades ≫= Stream.fanOut svc).
Proof.
  cbv zeta. split_and!.
  - apply dispatch_callAll.
  - apply dispatch_delivered.
  - apply dispatch_throwers.
  - intros before h after -> Hthrew. split.
    + rewrite dispatch_callAll, callAll_app. reflexivity.
    + rewrite dispatch_throwers, throwers_app. cbn [Stream.throwers].
      rewrite Hthrew. set_solver.
  - apply onActivityTrades_callAll.
  - apply onActivityTrades_delivered.
Qed.

(** In particular the handlers around one that always throws get the
    trade. *)
Lemma after_a_throw (before after : list (Stream.Handler World)) h h' trade w tr :
  (forall w0, (Stream.call h trade w0).2 = Threw) ->
  h' ∈ before ++ after ->
  (Stream.handlerId h', trade)
  ∈ Stream.delivered (Stream.dispatch (before ++ h :: after) trade w tr).2.
Proof.
  intros _ Hin. rewrite dispatch_delivered. apply elem_of_app. right.
  apply list_elem_of_fmap. exists h'. split; [reflexivity|].
  rewrite elem_of_app in Hin. rewrite elem_of_app, elem_of_cons. tauto.
Qed.

Lemma handlers_delete_unregistered id (hs : list (Stream.Handler World)) :
  Stream.registered id hs = false -> Stream.handlers_delete id hs = hs.
Proof.
  unfold Stream.registered, Stream.handlers_delete.
  rewrite bool_decide_eq_false.
  induction hs as [|h r IH]; simpl; [reflexivity|].
  intros Hnotin. destruct (Nat.eqb_spec (Stream.handlerId h) id) as [Heq|Hne]; simpl.
  - exfalso. apply Hnotin. rewrite Heq. left.
  - rewrite IH; [reflexivity|]. intros Hin. apply Hnotin. by right.
Qed.

Lemma handlers_delete_registered id (hs : list (Stream.Handler World)) :
  Stream.registered id (Stream.handlers_delete id hs) = false.
Proof.
  unfold Stream.registered, Stream.handlers_delete.
  rewrite bool_decide_eq_false.
  induction hs as [|h r IH]; simpl; [apply not_elem_of_nil|].
  destruct (Nat.eqb_spec (Stream.handlerId h) id) as [Heq|Hne]; simpl; [exact IH|].
  intros [?|?]%elem_of_cons; [congruence | by apply IH].
Qed.

(** Unsubscribing a handler that is not registered changes nothing. *)
Lemma unsubscribe_unregistered (sub : Stream.Subscription) svc :
  Stream.registered (Stream.onTrade sub) (Stream.tradeHandlers svc) = false ->
  Stream.quiescent svc ->
  Stream.unsubscribe sub svc = svc.
Proof.
  intros Hreg Hq. unfold Stream.unsubscribe.
  rewrite (handlers_delete_unregistered _ _ Hreg).
  destruct svc as [c a hs pc uo uc]; simpl in *.
  destruct hs as [|h r]; [|reflexivity].
  specialize (Hq eq_refl). simpl in Hq. subst a. reflexivity.
Qed.

Lemma unsubscribe_post (sub : Stream.Subscription) svc :
  Stream.registered (Stream.onTrade sub)
    (Stream.tradeHandlers (Stream.unsubscribe sub svc)) = false
  /\ Stream.quiescent (Stream.unsubscribe sub svc).
Proof.
  unfold Stream.unsubscribe, Stream.quiescent.
  pose proof (handlers_delete_registered (Stream.onTrade sub) (Stream.tradeHandlers svc)) as H.
  destruct (Stream.handlers_delete (Stream.onTrade sub) (Stream.tradeHandlers svc))
    as [|h r] eqn:E.
  - destruct (Stream.activeSubscription svc); simpl; auto.
  - simpl. split; [exact H | discriminate].
Qed.

Lemma subscribe_quiescent config h options now svc :
  Stream.quiescent (Stream.subscribeSmartMoneyTrades config h options now svc).2.
Proof.
  unfold Stream.quiescent, Stream.subscribeSmartMoneyTrades.
  destruct (Stream.activeSubscription svc); simpl;
    unfold Stream.handlers_add;
    destruct (Stream.registered (Stream.handlerId h) (Stream.tradeHandlers svc)) eqn:E;
    intros Hnil; try (by destruct (Stream.tradeHandlers svc)).
  all: unfold Stream.registered in E; rewrite Hnil in E; simpl in E;
    rewrite bool_decide_eq_true in E; by apply not_elem_of_nil in E.
Qed.

Lemma disconnect_quiescent svc : Stream.quiescent (Stream.disconnect svc).
Proof. intros _. reflexivity. Qed.

Lemma unsubscribe_idempotent (sub : Stream.Subscription) svc :
  Stream.unsubscribe sub (Stream.unsubscribe sub svc) = Stream.unsubscribe sub svc.
Proof.
  destruct (unsubscribe_post sub svc) as [Hreg Hq].
  by apply unsubscribe_unregistered.
Qed.

(** One call of [unsubscribe] closes the upstream at most once. *)
Lemma unsubscribe_closes_once (sub : Stream.Subscription) svc :
  Stream.upstreamClosed (Stream.unsubscribe sub svc) = Stream.upstreamClosed svc
  \/ exists up, Stream.activeSubscription svc = Some up
       /\ Stream.activeSubscription (Stream.unsubscribe sub svc) = None
       /\ Stream.upstreamClosed (Stream.unsubscribe sub svc)
          = Stream.upstreamClosed svc ++ [Stream.upstreamId up].
Proof.
  unfold Stream.unsubscribe.
  destruct (Stream.handlers_delete _ _); [|by left].
  destruct (Stream.activeSubscription svc) as [up|]; [|by left].
  right. exists up. simpl. auto.
Qed.

End StreamFacts.

(** A listener that subscribes to a service without handlers is the one
    whose options the stream is opened with: it is handed exactly the
    events that pass its own options. *)
Lemma sole_listener_filtered_by_own_options {World : Type} config
    (h : Stream.Handler World) options now (svc : Stream.t World) trade :
  Stream.tradeHandlers svc = [] -> Stream.activeSubscription svc = None ->
  let svc' := (Stream.subscribeSmartMoneyTrades config h options now svc).2 in
  Stream.fanOut svc' trade
  = match Stream.normalize options (Stream.cache svc) trade with
    | Some t => [(Stream.handlerId h, t)]
    | None => []
    end.
Proof.
  intros Hnil Hnone. unfold Stream.subscribeSmartMoneyTrades, Stream.fanOut.
  rewrite Hnone, Hnil. simpl.
  destruct (Stream.normalize options (Stream.cache svc) trade); reflexivity.
Qed.

(** The example of the filter rules: with [filterAddresses = ['0xAAA']] an
    event is kept exactly when its trader address is 0xaaa in some letter
    case. *)
Lemma filter_example (c : Cache.t) (trade : ActivityTrade) rawAddress :
  Stream.truthyString (a_trader trade ≫= tr_address) = Some rawAddress ->
  (toLowerCase rawAddress = "0xaaa" ->
     is_Some (Stream.normalize Sample.onlyAlice c trade))
  /\ (toLowerCase rawAddress <> "0xaaa" ->
     Stream.normalize Sample.onlyAlice c trade = None).
Proof.
  intros Hraw. split.
  - intros Hlow. apply normalize_passes. exists rawAddress.
    repeat split; [exact Hraw | | done]. simpl. rewrite Hlow. set_solver.
  - intros Hlow. destruct (Stream.normalize Sample.onlyAlice c trade) eqn:E; [|done].
    assert (Hs : is_Some (Stream.normalize Sample.onlyAlice c trade)) by (rewrite E; eauto).
    apply normalize_passes in Hs. destruct Hs as (raw' & Hraw' & Hin & _).
    rewrite Hraw in Hraw'. injection Hraw' as <-. simpl in Hin. set_solver.
Qed.

(** C3 fails on the code.  The filter runs once per event, with the options
    of the subscription that opened the stream, and its result goes to all
    handlers.  Listener 2, subscribed for alice only after listener 1 opened
    the stream without options, is handed bob's trade, which its own
    options drop; and when the listener for alice only opened the stream,
    listener 2, subscribed without options, is handed nothing of bob's
    trade, which its own options keep. *)
Lemma later_listener_options_ignored :
  let bob := Sample.activity "0xbbb" in
  Stream.normalize Sample.onlyAlice (Stream.cache Sample.openThenFiltered) bob = None
  /\ (Stream.delivered
        (Stream.onActivityTrade bob Sample.openThenFiltered [] Stream.noTrace).2).*1
     = [1; 2]%nat
  /\ t_traderAddress <$> Stream.normalize noOptions (Stream.cache Sample.filteredThenOpen) bob
     = Some "0xbbb"
  /\ Stream.delivered
       (Stream.onActivityTrade bob Sample.filteredThenOpen [] Stream.noTrace).2
     = [].
Proof. vm_compute. repeat split; reflexivity. Qed.

(** The listener registered after one that throws is called on what the
    thrower left, and the thrower is on the console. *)
Lemma listener_exception_is_isolated_witness :
  let handlers := [Sample.recorder 1; Sample.thrower 2; Sample.recorder 3] in
  let result := Stream.dispatch handlers Sample.aliceBuys [] Stream.noTrace in
  result.1 = [1; 2; 3]%nat /\ 2%nat ∈ Stream.handlerErrors result.2.
Proof.
  exact (proj1 (proj2 (proj2 (proj2
           (listener_exception_is_isolated Sample.withThrower []
              [Sample.recorder 1; Sample.thrower 2; Sample.recorder 3]
              Sample.aliceBuys [] Stream.noTrace))))
           [Sample.recorder 1] (Sample.thrower 2) [Sample.recorder 3] eq_refl eq_refl).
Defined.

(** With a throwing listener between two others, all three are called, for
    this event and for the next. *)
Lemma thrower_between_recorders :
  let r := Stream.onActivityTrades [Sample.activity "0xAAA"; Sample.activity "0xbbb"]
             Sample.withThrower [] Stream.noTrace in
  r.1 = [1; 2; 3; 1; 2; 3]%nat
  /\ (Stream.delivered r.2).*1 = [1; 2; 3; 1; 2; 3]%nat
  /\ Stream.handlerErrors r.2 = [2; 2]%nat.
Proof. vm_compute. repeat split; reflexivity. Qed.

(** ** Stopping a session *)

(** C9: a second [stop()] does nothing.  For every subscription and every
    state of the service, stopping again right after a stop leaves the whole
    state as it is: handler set, upstream subscription and the record of
    upstream [unsubscribe()] calls; one stop closes the upstream at most
    once; and at any later time at which the session's handler is not
    registered, in a state where an empty handler set goes with no open
    upstream, a stop changes nothing either. *)
Theorem stop_twice (sub : AutoCopy.AutoCopyTradingSubscription) (e : AutoCopy.Engine) :
  let e1 := AutoCopy.stop sub e in
  AutoCopy.stop sub e1 = e1
  /\ (length (Stream.upstreamClosed e1.1) <= S (length (Stream.upstreamClosed e.1)))%nat
  /\ forall e2 : AutoCopy.Engine,
       Stream.registered (Stream.onTrade (AutoCopy.s_subscription sub))
         (Stream.tradeHandlers e2.1) = false ->
       Stream.quiescent e2.1 ->
       AutoCopy.stop sub e2 = e2.
Proof.
  simpl. unfold AutoCopy.stop. simpl. repeat split.
  - by rewrite unsubscribe_idempotent.
  - destruct (unsubscribe_closes_once (AutoCopy.s_subscription sub) e.1)
      as [->|(up & _ & _ & ->)]; [lia|]. rewrite length_app. simpl. lia.
  - intros [svc w] Hreg Hq. simpl in *. by rewrite unsubscribe_unregistered.
Qed.

Lemma stop_twice_witness :
  AutoCopy.stop Sample.startedSubscription Sample.newEngine = Sample.newEngine.
Proof.
  refine (proj2 (proj2 (stop_twice Sample.startedSubscription Sample.newEngine)) _ _ _).
  - reflexivity.
  - intros _. reflexivity.
Defined.

(** Started, stopped, stopped again: one upstream opened, closed once. *)
Lemma start_stop_stop :
  let sub := Sample.startedSubscription in
  Sample.started.1 = Some sub
  /\ Stream.upstreamOpened Sample.started.2.1 = 1%nat
  /\ Stream.upstreamClosed (AutoCopy.stop sub Sample.started.2).1 = [0%nat]
  /\ Stream.upstreamClosed (AutoCopy.stop sub (AutoCopy.stop sub Sample.started.2)).1
     = [0%nat].
Proof. vm_compute. repeat split; reflexivity. Qed.

(** ** Sizing and pricing *)

(** C5: the replica notional never exceeds [maxSizePerTrade].  When the
    candidate notional (size x sizeScale x price) exceeds it, the replica
    size is [maxSizePerTrade / price] and the notional [maxSizePerTrade];
    otherwise size and notional are the candidates. *)
Theorem replica_notional_clamped (c : AutoCopy.Session) (trade : SmartMoneyTrade) :
  let candidateSize := (t_size trade * AutoCopy.sizeScale c)%Q in
  let candidate := (candidateSize * t_price trade)%Q in
  ((AutoCopy.sizing c trade).2 <= AutoCopy.maxSizePerTrade c)%Q
  /\ ((AutoCopy.maxSizePerTrade c < candidate)%Q ->
      AutoCopy.sizing c trade
      = ((AutoCopy.maxSizePerTrade c / t_price trade)%Q, AutoCopy.maxSizePerTrade c))
  /\ (~ (AutoCopy.maxSizePerTrade c < candidate)%Q ->
      AutoCopy.sizing c trade = (candidateSize, candidate)).
Proof.
  simpl. unfold AutoCopy.sizing.
  destruct (Qltb (AutoCopy.maxSizePerTrade c)
              (t_size trade * AutoCopy.sizeScale c * t_price trade)) eqn:E; simpl.
  - apply Qltb_lt in E. split; [apply Qle_refl|]. split; [reflexivity | tauto].
  - apply Qltb_ge in E. split; [exact E|]. split; [|reflexivity].
    intros Hlt. exfalso. exact (Qlt_not_le _ _ Hlt E).
Qed.

Lemma replica_notional_clamped_witness :
  AutoCopy.sizing (Sample.session true None 0) Sample.aliceBuysBig
  = ((50 / (6 # 10))%Q, 50%Q).
Proof.
  refine (proj1 (proj2 (replica_notional_clamped (Sample.session true None 0)
                          Sample.aliceBuysBig)) _).
  reflexivity.
Defined.

(** C6: the limit price is price x (1 + maxSlippage) for a buy and
    price x (1 - maxSlippage) for a sell; for price 0.60, BUY and
    maxSlippage 0.03 it is 0.618; and it is the price of the order handed to
    the backend. *)
Theorem limit_price (c : AutoCopy.Session) (trade : SmartMoneyTrade) :
  AutoCopy.slippagePrice c trade
  = match t_side trade with
    | BUY => (t_price trade * (1 + AutoCopy.maxSlippage c))%Q
    | SELL => (t_price trade * (1 - AutoCopy.maxSlippage c))%Q
    end
  /\ (t_side trade = BUY -> (t_price trade == 6 # 10)%Q ->
      (AutoCopy.maxSlippage c == 3 # 100)%Q ->
      (AutoCopy.slippagePrice c trade == 618 # 1000)%Q)
  /\ (forall copySize copyValue tokenId w,
        AutoCopy.dryRun c = false ->
        Stream.truthyString (t_tokenId trade) = Some tokenId ->
        AutoCopy.journal (AutoCopy.afterDelay c trade copySize copyValue w)
        = AutoCopy.journal w
          ++ [AutoCopy.CreateMarketOrder (AutoCopy.stats c)
                {| mo_tokenId := tokenId; mo_side := t_side trade;
                   mo_amount := copyValue;
                   mo_price := AutoCopy.slippagePrice c trade;
                   mo_orderType := AutoCopy.orderType c |}]).
Proof.
  repeat split.
  - intros Hside Hprice Hslip. unfold AutoCopy.slippagePrice.
    rewrite Hside, Hprice, Hslip. reflexivity.
  - intros copySize copyValue tokenId w Hdry Htoken.
    unfold AutoCopy.afterDelay. rewrite Htoken, Hdry. reflexivity.
Qed.

Lemma limit_price_witness :
  (AutoCopy.slippagePrice (Sample.session false None 0) Sample.aliceBuysBig
   == 618 # 1000)%Q.
Proof.
  refine (proj1 (proj2 (limit_price (Sample.session false None 0) Sample.aliceBuysBig))
            _ _ _); reflexivity.
Defined.

(** On binary64 numbers too the replica notional is never above
    [maxSizePerTrade], whatever the inputs, [NaN] and the infinities
    included. *)
Lemma binary64_ltb_irrefl (x : float) : (x <? x)%float = false.
Proof.
  rewrite ltb_spec. unfold SFltb.
  destruct (Prim2SF x) as [s|s| |s m e]; simpl.
  - reflexivity.
  - destruct s; reflexivity.
  - reflexivity.
  - destruct s; rewrite Z.compare_refl, Pos.compare_refl; reflexivity.
Qed.

Lemma replica_notional_clamped_binary64 (size sizeScale price maxSizePerTrade : float) :
  (maxSizePerTrade <? (AutoCopy.sizing64 size sizeScale price maxSizePerTrade).2)%float
  = false.
Proof.
  unfold AutoCopy.sizing64.
  destruct (maxSizePerTrade <? size * sizeScale * price)%float eqn:E; simpl.
  - apply binary64_ltb_irrefl.
  - exact E.
Qed.

(** The same scenario on binary64 numbers, the literals being the doubles
    nearest to 0.6, 0.03 and 0.618 as in JavaScript. *)
#[warnings="-inexact-float"]
Lemma slippage_scenario_binary64 :
  AutoCopy.slippagePrice64 BUY 0.6 0.03 = 0.618%float.
Proof. reflexivity. Qed.

(** ** The handler and the stats object *)

Lemma backendCalls_app (j1 j2 : list AutoCopy.Effect) :
  AutoCopy.backendCalls (j1 ++ j2) = AutoCopy.backendCalls j1 ++ AutoCopy.backendCalls j2.
Proof. unfold AutoCopy.backendCalls. apply omap_app. Qed.

Lemma catchBlock_facts (c : AutoCopy.Session) (w : AutoCopy.World) :
  AutoCopy.heap (AutoCopy.catchBlock c w)
  = alter AutoCopy.failed (AutoCopy.stats c) (AutoCopy.heap w)
  /\ AutoCopy.inflight (AutoCopy.catchBlock c w) = AutoCopy.inflight w
  /\ AutoCopy.clock (AutoCopy.catchBlock c w) = AutoCopy.clock w
  /\ AutoCopy.backendCalls (AutoCopy.journal (AutoCopy.catchBlock c w))
     = AutoCopy.backendCalls (AutoCopy.journal w).
Proof.
  unfold AutoCopy.catchBlock.
  destruct (AutoCopy.onError c) as [[]|]; simpl; rewrite ?backendCalls_app; simpl;
    rewrite ?app_nil_r; auto.
Qed.

(** What the end of the [try] block does to the stats object: the order
    is counted as executed or as failed, and once more as failed when the
    [onTrade] callback throws. *)
Lemma settle_facts (c : AutoCopy.Session) trade usdcAmount r (w : AutoCopy.World) :
  let w' := AutoCopy.settle c trade usdcAmount r w in
  let count := if success r then AutoCopy.executed usdcAmount else AutoCopy.failed in
  (AutoCopy.heap w' = alter count (AutoCopy.stats c) (AutoCopy.heap w)
   \/ (exists callback, AutoCopy.onTrade c = Some callback /\ callback trade r = Threw)
      /\ AutoCopy.heap w'
         = alter AutoCopy.failed (AutoCopy.stats c)
             (alter count (AutoCopy.stats c) (AutoCopy.heap w)))
  /\ AutoCopy.inflight w' = AutoCopy.inflight w
  /\ AutoCopy.clock w' = AutoCopy.clock w
  /\ AutoCopy.backendCalls (AutoCopy.journal w') = AutoCopy.backendCalls (AutoCopy.journal w).
Proof.
  simpl. unfold AutoCopy.settle.
  destruct (AutoCopy.onTrade c) as [callback|] eqn:Hcb.
  - destruct (callback trade r) eqn:Hcall.
    + destruct (success r); simpl; rewrite backendCalls_app; simpl;
        rewrite app_nil_r; auto.
    + match goal with |- context [AutoCopy.catchBlock c ?x] =>
        destruct (catchBlock_facts c x) as (H1 & H2 & H3 & H4) end.
      rewrite H1, H2, H3, H4.
      destruct (success r); simpl; rewrite backendCalls_app; simpl;
        rewrite app_nil_r; repeat split; right; eauto.
  - destruct (success r); simpl; auto.
Qed.

(** A qualifying trade takes the handler past every early [return]: it is
    counted as detected, then parked when a delay is configured, passed on
    otherwise. *)
Lemma handler_qualifying (c : AutoCopy.Session) (trade : SmartMoneyTrade)
    (w : AutoCopy.World) :
  AutoCopy.qualifying c trade = true ->
  Stream.truthyString (t_tokenId trade) <> None
  /\ AutoCopy.handler c trade w
     = let w1 := AutoCopy.modify (AutoCopy.stats c) AutoCopy.detected w in
       if (0 <? AutoCopy.delay c)%Z
       then AutoCopy.suspend
              (AutoCopy.AwaitDelay c trade (AutoCopy.sizing c trade).1
                 (AutoCopy.sizing c trade).2) w1
       else AutoCopy.afterDelay c trade (AutoCopy.sizing c trade).1
              (AutoCopy.sizing c trade).2 w1.
Proof.
  unfold AutoCopy.qualifying. rewrite !andb_true_iff, !negb_true_iff.
  intros ((((Htarget & Hvalue) & Hside) & Hmin) & Htoken).
  split; [by destruct (Stream.truthyString (t_tokenId trade))|].
  unfold AutoCopy.handler. rewrite Htarget, Hvalue. simpl.
  replace (match AutoCopy.sideFilter c with
           | Some side => negb (bool_decide (t_side trade = side))
           | None => false end) with false
    by (destruct (AutoCopy.sideFilter c); [by rewrite Hside|done]).
  destruct (AutoCopy.sizing c trade) as [copySize copyValue]. simpl in *.
  by rewrite Hmin.
Qed.

(** C7: in a dry run a qualifying trade is counted as executed, its notional
    is added to the spend, and the backend is not called.  The handler does
    so at once when no delay is configured; with a delay it parks the
    invocation, and does so when the timer fires, whatever happened to the
    stats in between. *)
Theorem dry_run_executes (c : AutoCopy.Session) (trade : SmartMoneyTrade) :
  AutoCopy.dryRun c = true ->
  AutoCopy.qualifying c trade = true ->
  let copySize := (AutoCopy.sizing c trade).1 in
  let usdcAmount := (AutoCopy.sizing c trade).2 in
  (forall w s,
     (AutoCopy.delay c <= 0)%Z ->
     AutoCopy.heap w !! AutoCopy.stats c = Some s ->
     let w' := AutoCopy.handler c trade w in
     exists s',
       AutoCopy.heap w' !! AutoCopy.stats c = Some s'
       /\ tradesExecuted s' = (tradesExecuted s + 1)%N
       /\ totalUsdcSpent s' = (totalUsdcSpent s + usdcAmount)%Q
       /\ AutoCopy.backendCalls (AutoCopy.journal w')
          = AutoCopy.backendCalls (AutoCopy.journal w)
       /\ AutoCopy.inflight w' = AutoCopy.inflight w)
  /\ (forall w,
        (0 < AutoCopy.delay c)%Z ->
        AutoCopy.handler c trade w
        = AutoCopy.suspend (AutoCopy.AwaitDelay c trade copySize usdcAmount)
            (AutoCopy.modify (AutoCopy.stats c) AutoCopy.detected w))
  /\ (forall w i s,
        AutoCopy.inflight w !! i = Some (AutoCopy.AwaitDelay c trade copySize usdcAmount) ->
        AutoCopy.heap w !! AutoCopy.stats c = Some s ->
        let w' := AutoCopy.timerFires i w in
        exists s',
          AutoCopy.heap w' !! AutoCopy.stats c = Some s'
          /\ tradesExecuted s' = (tradesExecuted s + 1)%N
          /\ totalUsdcSpent s' = (totalUsdcSpent s + usdcAmount)%Q
          /\ AutoCopy.backendCalls (AutoCopy.journal w')
             = AutoCopy.backendCalls (AutoCopy.journal w)
          /\ AutoCopy.inflight w' = delete i (AutoCopy.inflight w)).
Proof.
  intros Hdry Hq.
  assert (Hafter : forall w s,
    AutoCopy.heap w !! AutoCopy.stats c = Some s ->
    let w' := AutoCopy.afterDelay c trade (AutoCopy.sizing c trade).1
                (AutoCopy.sizing c trade).2 w in
    exists s',
      AutoCopy.heap w' !! AutoCopy.stats c = Some s'
      /\ tradesExecuted s' = (tradesExecuted s + 1)%N
      /\ totalUsdcSpent s' = (totalUsdcSpent s + (AutoCopy.sizing c trade).2)%Q
      /\ AutoCopy.backendCalls (AutoCopy.journal w')
         = AutoCopy.backendCalls (AutoCopy.journal w)
      /\ AutoCopy.inflight w' = AutoCopy.inflight w).
  { intros w s Hs. simpl. unfold AutoCopy.afterDelay.
    destruct (handler_qualifying c trade w Hq) as [Htok _].
    destruct (Stream.truthyString (t_tokenId trade)) as [tokenId|]; [|done].
    rewrite Hdry.
    match goal with |- context [AutoCopy.settle c trade ?v ?r ?x] =>
      destruct (settle_facts c trade v r x) as (Hheap & Hin & _ & Hcalls) end.
    simpl in Hheap, Hin, Hcalls. rewrite Hin, Hcalls, backendCalls_app. simpl.
    rewrite app_nil_r.
    destruct Hheap as [-> | [_ ->]]; rewrite ?lookup_alter_eq, Hs; simpl; eauto 10. }
  simpl. split_and!.
  - intros w s Hdelay Hs.
    rewrite (proj2 (handler_qualifying c trade w Hq)). simpl.
    destruct (0 <? AutoCopy.delay c)%Z eqn:Hd; [lia|].
    destruct (Hafter (AutoCopy.modify (AutoCopy.stats c) AutoCopy.detected w)
                (AutoCopy.detected s)) as (s' & H1 & H2 & H3 & H4 & H5).
    { simpl. by rewrite lookup_alter_eq, Hs. }
    exists s'. simpl in *. auto.
  - intros w Hdelay.
    rewrite (proj2 (handler_qualifying c trade w Hq)). simpl.
    destruct (0 <? AutoCopy.delay c)%Z eqn:Hd; [reflexivity|lia].
  - intros w i s Hi Hs. unfold AutoCopy.timerFires. rewrite Hi.
    destruct (Hafter (AutoCopy.resume i w) s) as (s' & H1 & H2 & H3 & H4 & H5);
      [exact Hs|].
    exists s'. simpl in *. auto.
Qed.

Lemma dry_run_executes_witness :
  exists s',
    AutoCopy.heap (AutoCopy.handler (Sample.session true None 0) Sample.aliceBuys
                     Sample.started.2.2) !! 0%nat = Some s'
    /\ tradesExecuted s' = 1%N
    /\ totalUsdcSpent s' = (0 + 100 * (1 # 10) * (1 # 2))%Q.
Proof.
  destruct (proj1 (dry_run_executes (Sample.session true None 0) Sample.aliceBuys
                     eq_refl eq_refl) Sample.started.2.2
              {| startTime := 0; tradesDetected := 0; tradesExecuted := 0;
                 tradesSkipped := 0; tradesFailed := 0; totalUsdcSpent := 0 |})
    as (s' & H1 & H2 & H3 & _).
  - simpl. lia.
  - vm_compute. reflexivity.
  - exists s'. repeat split; assumption.
Defined.

(** ** Counters over interleaved invocations *)

Section Counters.
Import AutoCopy.
Implicit Types (c : Session) (w : World) (s : AutoCopyTradingStats).

Lemma statsLe_refl s : statsLe s s.
Proof. unfold statsLe. repeat split; try lia. apply Qle_refl. Qed.

Lemma statsLe_trans s1 s2 s3 : statsLe s1 s2 -> statsLe s2 s3 -> statsLe s1 s3.
Proof.
  unfold statsLe. intros (A1 & A2 & A3 & A4 & A5 & A6) (B1 & B2 & B3 & B4 & B5 & B6).
  repeat split; try lia; try congruence. by eapply Qle_trans.
Qed.

Lemma bumped_refl s : bumped 0 0 s s.
Proof. unfold bumped. split; [apply statsLe_refl|]. lia. Qed.

Lemma bumped_trans d1 k1 d2 k2 s1 s2 s3 :
  bumped d1 k1 s1 s2 -> bumped d2 k2 s2 s3 -> bumped (d1 + d2) (k1 + k2) s1 s3.
Proof.
  unfold bumped. intros (A & A1 & A2) (B & B1 & B2).
  split; [by eapply statsLe_trans|]. lia.
Qed.

Lemma bumped_detected s : bumped 1 0 s (detected s).
Proof.
  unfold bumped, statsLe, finished, detected. simpl.
  repeat split; try lia. apply Qle_refl.
Qed.

Lemma bumped_skipped s : bumped 0 1 s (skipped s).
Proof.
  unfold bumped, statsLe, finished, skipped. simpl.
  repeat split; try lia. apply Qle_refl.
Qed.

Lemma bumped_failed s : bumped 0 1 s (failed s).
Proof.
  unfold bumped, statsLe, finished, failed. simpl.
  repeat split; try lia. apply Qle_refl.
Qed.

Lemma bumped_executed v s : (0 <= v)%Q -> bumped 0 1 s (executed v s).
Proof.
  intros Hv. unfold bumped, statsLe, finished, executed. simpl.
  repeat split; try lia.
  rewrite <- (Qplus_0_r (totalUsdcSpent s)) at 1.
  apply Qplus_le_r. exact Hv.
Qed.

Lemma effect_same c w w' : heap w' = heap w -> effect c 0 0 w w'.
Proof.
  intros Hh. split.
  - intros l s Hs. exists s. rewrite Hh. split; [exact Hs|].
    case_decide; [apply bumped_refl | reflexivity].
  - intros l Hl. by rewrite Hh.
Qed.

Lemma effect_trans c d1 k1 d2 k2 w1 w2 w3 :
  effect c d1 k1 w1 w2 -> effect c d2 k2 w2 w3 -> effect c (d1 + d2) (k1 + k2) w1 w3.
Proof.
  intros [H1 N1] [H2 N2]. split.
  - intros l s Hs.
    destruct (H1 l s Hs) as (s2 & Hs2 & R1).
    destruct (H2 l s2 Hs2) as (s3 & Hs3 & R2).
    exists s3. split; [exact Hs3|].
    case_decide; [by eapply bumped_trans | congruence].
  - intros l Hl. apply N2, N1, Hl.
Qed.

Lemma effect_modify c d k f w :
  (forall s, bumped d k s (f s)) -> effect c d k w (modify (stats c) f w).
Proof.
  intros Hf. split.
  - intros l s Hs. simpl. rewrite lookup_alter.
    case_decide as Hl.
    + subst l. rewrite Hs. simpl. exists (f s). split; [reflexivity|].
      rewrite decide_True by reflexivity. apply Hf.
    + exists s. split; [exact Hs|]. rewrite decide_False by congruence. reflexivity.
  - intros l Hl. simpl. rewrite lookup_alter.
    case_decide as Hl'; [subst l; by rewrite Hl | exact Hl].
Qed.

Lemma effect_weaken c d k d' k' w w' :
  d = d' -> k = k' -> effect c d k w w' -> effect c d' k' w w'.
Proof. by intros -> ->. Qed.

(** A segment that starts by leaving the heap alone. *)
Lemma effect_after c k w0 w w' :
  heap w = heap w0 -> effect c 0 k w w' -> effect c 0 k w0 w'.
Proof.
  intros Hh He. eapply (effect_weaken c (0 + 0) (0 + k)); [lia | lia |].
  eapply effect_trans; [|exact He]. by apply effect_same.
Qed.

(** A segment that starts by counting the trade as detected. *)
Lemma effect_detected c k w w' :
  effect c 0 k (modify (stats c) detected w) w' -> effect c 1 k w w'.
Proof.
  intros He. eapply (effect_weaken c (1 + 0) (0 + k)); [lia | lia |].
  eapply effect_trans; [|exact He]. apply effect_modify, bumped_detected.
Qed.

Lemma catchBlock_effect c w :
  effect c 0 1 w (catchBlock c w) /\ inflight (catchBlock c w) = inflight w.
Proof.
  destruct (catchBlock_facts c w) as (Hh & Hi & _). split; [|exact Hi].
  destruct (effect_modify c 0 1 failed w bumped_failed) as [H1 H2].
  split.
  - intros l s Hs. rewrite Hh. exact (H1 l s Hs).
  - intros l Hl. rewrite Hh. exact (H2 l Hl).
Qed.

(** The end of the [try] block counts one outcome, or two when the
    callback throws. *)
Lemma settle_effect c trade v r w :
  (0 <= v)%Q ->
  exists k, effect c 0 k w (settle c trade v r w)
    /\ inflight (settle c trade v r w) = inflight w
    /\ (k = 1 \/ k = 2)%N
    /\ (returning c -> k = 1%N).
Proof.
  intros Hv.
  assert (Hcount : forall s,
    bumped 0 1 s ((if success r then executed v else failed) s)).
  { intros s. destruct (success r); [by apply bumped_executed | apply bumped_failed]. }
  destruct (settle_facts c trade v r w) as ([Hh | [(cb & Hcb & Hthrow) Hh]] & Hi & _).
  - exists 1%N. split_and!.
    + destruct (effect_modify c 0 1 _ w Hcount) as [H1 H2]. split.
      * intros l s Hs. rewrite Hh. exact (H1 l s Hs).
      * intros l Hl. rewrite Hh. exact (H2 l Hl).
    + exact Hi.
    + by left.
    + done.
  - exists 2%N. split_and!.
    + destruct (effect_trans c 0 1 0 1 w _ _
        (effect_modify c 0 1 _ w Hcount)
        (effect_modify c 0 1 failed _ bumped_failed)) as [H1 H2]. split.
      * intros l s Hs. rewrite Hh. exact (H1 l s Hs).
      * intros l Hl. rewrite Hh. exact (H2 l Hl).
    + exact Hi.
    + by right.
    + unfold returning. rewrite Hcb. intros Hret. rewrite Hret in Hthrow. discriminate.
Qed.

(** The segment after the delay: one outcome, or one invocation parked at
    the backend. *)
Lemma afterDelay_effect c trade copySize v w :
  (0 <= v)%Q ->
  let w' := afterDelay c trade copySize v w in
  exists k parked,
    effect c 0 k w w'
    /\ inflight w' = inflight w ++ parked
    /\ Forall (fun p => owner p = c /\ (0 <= parkedValue p)%Q) parked
    /\ (returning c -> (k + N.of_nat (length parked) <= 1)%N).
Proof.
  intros Hv. simpl. unfold afterDelay.
  destruct (Stream.truthyString (t_tokenId trade)) as [tokenId|].
  - destruct (dryRun c).
    + match goal with |- context [settle c trade v ?r ?x] =>
        destruct (settle_effect c trade v r x Hv) as (k & He & Hi & Hk & Hret) end.
      exists k, []. rewrite Hi, app_nil_r. simpl. split_and!.
      * by eapply effect_after; [|exact He].
      * reflexivity.
      * constructor.
      * intros Hr. specialize (Hret Hr). lia.
    + exists 0%N, [AwaitOrder c trade v]. simpl. split_and!.
      * by apply effect_same.
      * reflexivity.
      * constructor; [by split | constructor].
      * lia.
  - exists 1%N, []. rewrite app_nil_r. simpl. split_and!.
    + apply effect_modify. apply bumped_skipped.
    + reflexivity.
    + constructor.
    + lia.
Qed.

(** The first segment: the trade is detected, and gets at most one
    outcome or one parked invocation unless the callback throws. *)
Lemma handler_effect c trade w :
  let w' := handler c trade w in
  exists k parked,
    effect c 1 k w w'
    /\ inflight w' = inflight w ++ parked
    /\ Forall (fun p => owner p = c /\ (0 <= parkedValue p)%Q) parked
    /\ (returning c -> (k + N.of_nat (length parked) <= 1)%N).
Proof.
  simpl. unfold handler.
  assert (Hone : exists k parked,
    effect c 1 k w (modify (stats c) skipped (modify (stats c) detected w))
    /\ inflight w = inflight w ++ parked
    /\ Forall (fun p => owner p = c /\ (0 <= parkedValue p)%Q) parked
    /\ (returning c -> (k + N.of_nat (length parked) <= 1)%N)).
  { exists 1%N, []. rewrite app_nil_r. simpl. split_and!; [|done|constructor|lia].
    apply effect_detected, effect_modify, bumped_skipped. }
  destruct (negb (includes (targetAddresses c) (toLowerCase (t_traderAddress trade)))).
  { exists 0%N, []. rewrite app_nil_r. simpl. split_and!; [|done|constructor|lia].
    by apply effect_detected, effect_same. }
  destruct (Qltb (t_size trade * t_price trade) (minTradeSize c)); [exact Hone|].
  destruct (match sideFilter c with
            | Some side => negb (bool_decide (t_side trade = side))
            | None => false end); [exact Hone|].
  destruct (sizing c trade) as [copySize copyValue].
  destruct (Qltb copyValue MIN_ORDER_SIZE) eqn:Hmin; [exact Hone|].
  apply Qltb_ge in Hmin.
  assert (Hv : (0 <= copyValue)%Q).
  { eapply Qle_trans; [|exact Hmin]. unfold MIN_ORDER_SIZE. discriminate. }
  destruct (0 <? delay c)%Z.
  { exists 0%N, [AwaitDelay c trade copySize copyValue]. simpl. split_and!.
    - by apply effect_detected, effect_same.
    - reflexivity.
    - constructor; [by split | constructor].
    - lia. }
  destruct (afterDelay_effect c trade copySize copyValue
              (modify (stats c) detected w) Hv)
    as (k & parked & He & Hi & Hp & Hret).
  exists k, parked. simpl in *. split_and!.
  - by apply effect_detected.
  - exact Hi.
  - exact Hp.
  - exact Hret.
Qed.

Lemma filter_delete_length {A} (P : A -> Prop) `{forall x, Decision (P x)}
    (ks : list A) (i : nat) (x : A) :
  ks !! i = Some x ->
  length (filter P ks)
  = (length (filter P (delete i ks)) + if decide (P x) then 1 else 0)%nat.
Proof.
  intros Hi. rewrite delete_take_drop.
  rewrite <- (take_drop_middle ks i x Hi) at 1.
  rewrite !filter_app, filter_cons, !length_app.
  case_decide; simpl; lia.
Qed.

Lemma pending_parked c l (parked : list Suspended) :
  Forall (fun p => owner p = c /\ (0 <= parkedValue p)%Q) parked ->
  length (filter (fun k => stats (owner k) = l) parked)
  = if decide (l = stats c) then length parked else 0%nat.
Proof.
  induction 1 as [|p r [Hown _] _ IH]; simpl.
  - by case_decide.
  - rewrite filter_cons, Hown. case_decide as Hl.
    + subst l. rewrite decide_True in * by reflexivity. simpl. lia.
    + rewrite decide_False in * by congruence. exact IH.
Qed.

(** A turn that resumes a parked invocation: nothing happens, or the
    invocation leaves the list and its session's stats get the outcome. *)
Lemma resume_effect w e i :
  sound w -> resumes e = Some i ->
  step w e = w
  \/ exists task k parked,
       inflight w !! i = Some task
       /\ effect (owner task) 0 k w (step w e)
       /\ inflight (step w e) = delete i (inflight w) ++ parked
       /\ Forall (fun p => owner p = owner task /\ (0 <= parkedValue p)%Q) parked
       /\ (returning (owner task) -> (k + N.of_nat (length parked) <= 1)%N).
Proof.
  intros Hsound Hres.
  assert (Hval : forall task, inflight w !! i = Some task -> (0 <= parkedValue task)%Q).
  { intros task Hi. unfold sound in Hsound. rewrite Forall_lookup in Hsound.
    exact (Hsound i task Hi). }
  destruct e as [now|c trade|i'|i' reply]; try discriminate;
    injection Hres as ->; simpl.
  - unfold timerFires.
    destruct (inflight w !! i) as [[c trade copySize v|c trade v]|] eqn:Hi;
      [|by left|by left].
    right. specialize (Hval _ eq_refl). simpl in Hval.
    destruct (afterDelay_effect c trade copySize v (resume i w) Hval)
      as (k & parked & He & Hin & Hp & Hret).
    exists (AwaitDelay c trade copySize v), k, parked. simpl in *. split_and!.
    + reflexivity.
    + by eapply effect_after; [|exact He].
    + exact Hin.
    + exact Hp.
    + exact Hret.
  - unfold orderSettles.
    destruct (inflight w !! i) as [[c trade copySize v|c trade v]|] eqn:Hi;
      [by left| |by left].
    right. specialize (Hval _ eq_refl). simpl in Hval.
    destruct reply as [r|].
    + destruct (settle_effect c trade v r (resume i w) Hval) as (k & He & Hin & Hk & Hret).
      exists (AwaitOrder c trade v), k, []. rewrite app_nil_r. simpl in *. split_and!.
      * reflexivity.
      * by eapply effect_after; [|exact He].
      * exact Hin.
      * constructor.
      * intros Hr. specialize (Hret Hr). lia.
    + destruct (catchBlock_effect c (resume i w)) as [He Hin].
      exists (AwaitOrder c trade v), 1%N, []. rewrite app_nil_r. simpl in *. split_and!.
      * reflexivity.
      * by eapply effect_after; [|exact He].
      * exact Hin.
      * constructor.
      * lia.
Qed.

(** What one turn of the event loop does, whichever it is: the list of
    parked invocations is [base], with or without the resumed one, plus
    what the turn parks. *)
Lemma step_cases w e :
  sound w ->
  (heap (step w e) = heap w /\ inflight (step w e) = inflight w)
  \/ exists c d k base parked,
       effect c d k w (step w e)
       /\ inflight (step w e) = base ++ parked
       /\ Forall (fun p => owner p = c /\ (0 <= parkedValue p)%Q) parked
       /\ (quietEvent e -> quietWorld w -> returning c)
       /\ (returning c -> (k + N.of_nat (length parked) <= 1)%N)
       /\ ((d = 1%N /\ base = inflight w)
           \/ (d = 0%N /\ exists i task, inflight w !! i = Some task /\ owner task = c
                                         /\ base = delete i (inflight w))).
Proof.
  intros Hsound.
  assert (Hres : forall i, resumes e = Some i ->
    (heap (step w e) = heap w /\ inflight (step w e) = inflight w)
    \/ exists c d k base parked,
         effect c d k w (step w e)
         /\ inflight (step w e) = base ++ parked
         /\ Forall (fun p => owner p = c /\ (0 <= parkedValue p)%Q) parked
         /\ (quietEvent e -> quietWorld w -> returning c)
         /\ (returning c -> (k + N.of_nat (length parked) <= 1)%N)
         /\ ((d = 1%N /\ base = inflight w)
             \/ (d = 0%N /\ exists i task, inflight w !! i = Some task /\ owner task = c
                                           /\ base = delete i (inflight w)))).
  { intros i Hi.
    destruct (resume_effect w e i Hsound Hi)
      as [Hsame | (task & k & parked & Hti & He & Hin & Hp & Hret)].
    - left. by rewrite Hsame.
    - right. exists (owner task), 0%N, k, (delete i (inflight w)), parked. split_and!.
      + exact He.
      + exact Hin.
      + exact Hp.
      + intros _ Hq. unfold quietWorld in Hq. rewrite Forall_lookup in Hq.
        exact (Hq i task Hti).
      + exact Hret.
      + right. split; [done|]. eauto. }
  destruct e as [now|c trade|i|i reply].
  - left. by simpl.
  - right. destruct (handler_effect c trade w) as (k & parked & He & Hi & Hp & Hret).
    exists c, 1%N, k, (inflight w), parked. simpl in *. split_and!.
    + exact He.
    + exact Hi.
    + exact Hp.
    + by intros Hr _.
    + exact Hret.
    + by left.
  - by apply (Hres i).
  - by apply (Hres i).
Qed.

Lemma step_base w c d (base : list Suspended) (P : Suspended -> Prop) :
  Forall P (inflight w) ->
  ((d = 1%N /\ base = inflight w)
   \/ (d = 0%N /\ exists i task, inflight w !! i = Some task /\ owner task = c
                                 /\ base = delete i (inflight w))) ->
  Forall P base.
Proof.
  intros HP [(_ & ->) | (_ & i & task & _ & _ & ->)]; [exact HP | by apply Forall_delete].
Qed.

Lemma step_sound w e : sound w -> sound (step w e).
Proof.
  intros Hsound. unfold sound in *.
  destruct (step_cases w e Hsound)
    as [[_ ->] | (c & d & k & base & parked & _ & -> & Hp & _ & _ & Hbase)]; [exact Hsound|].
  apply Forall_app. split.
  - by eapply step_base.
  - eapply Forall_impl; [exact Hp|]. by intros p [_ ?].
Qed.

Lemma step_quiet w e : sound w -> quietEvent e -> quietWorld w -> quietWorld (step w e).
Proof.
  intros Hsound He Hq. unfold quietWorld in *.
  destruct (step_cases w e Hsound)
    as [[_ ->] | (c & d & k & base & parked & _ & -> & Hp & Hr & _ & Hbase)]; [exact Hq|].
  apply Forall_app. split.
  - by eapply step_base.
  - eapply Forall_impl; [exact Hp|]. intros p [-> _]. by apply Hr.
Qed.


(** With callbacks that return, a turn keeps every detected trade
    accounted for at most once. *)
Lemma step_accounted w e :
  sound w -> quietEvent e -> quietWorld w -> accounted w -> accounted (step w e).
Proof.
  intros Hsound Hqe Hqw Hacc l s' Hs'. unfold pending.
  destruct (step_cases w e Hsound)
    as [[Hh Hi] | (c & d & k & base & parked & [He Hnone] & Hi & Hp & Hr & Hk & Hbase)].
  - rewrite Hi. rewrite Hh in Hs'. exact (Hacc l s' Hs').
  - specialize (Hk (Hr Hqe Hqw)).
    destruct (heap w !! l) as [s|] eqn:Hs;
      [|rewrite (Hnone l Hs) in Hs'; discriminate].
    destruct (He l s Hs) as (s2 & Hs2 & R). rewrite Hs' in Hs2.
    injection Hs2 as <-. specialize (Hacc l s Hs). unfold pending in Hacc.
    rewrite Hi, filter_app, length_app, (pending_parked c l parked Hp).
    destruct Hbase as [(-> & ->) | (-> & i & task & Hti & Hown & ->)].
    + case_decide.
      * destruct R as (_ & Rd & Rf). lia.
      * subst s'. lia.
    + rewrite (filter_delete_length _ (inflight w) i task Hti) in Hacc.
      rewrite Hown in Hacc.
      case_decide.
      * subst l. rewrite decide_True in Hacc by reflexivity.
        destruct R as (_ & Rd & Rf). lia.
      * subst s'. rewrite decide_False in Hacc by congruence. lia.
Qed.

Lemma run_sound es w : sound w -> sound (run es w).
Proof.
  revert w. induction es as [|e r IH]; intros w Hs; simpl; [exact Hs|].
  apply IH. by apply step_sound.
Qed.


(** As long as no [onTrade] callback throws, after every event
    [detected >= skipped + executed + failed], with room left for the
    invocations still in flight. *)
Lemma counters_accounted es w :
  sound w -> quietWorld w -> Forall quietEvent es -> accounted w ->
  accounted (run es w).
Proof.
  revert w. induction es as [|e r IH]; intros w Hsound Hq Hes Hacc; simpl; [exact Hacc|].
  inversion Hes as [|? ? He Hr]; subst.
  apply IH; [by apply step_sound | by apply step_quiet | exact Hr | by apply step_accounted].
Qed.

Lemma accounted_invariant w l s :
  accounted w -> heap w !! l = Some s ->
  (tradesSkipped s + tradesExecuted s + tradesFailed s <= tradesDetected s)%N.
Proof.
  intros Hacc Hs. specialize (Hacc l s Hs). unfold finished in Hacc. lia.
Qed.

(** The dispatch loop over the listeners of sessions is the event loop
    delivering the trade to each session in turn. *)
Lemma dispatch_listeners (cs : list Session) trade w tr :
  (Stream.dispatch (listener <$> cs) trade w tr).1
  = run ((fun c => Trade c trade) <$> cs) w.
Proof.
  revert w tr. induction cs as [|c r IH]; intros w tr; simpl; [reflexivity|].
  apply IH.
Qed.

(** Starting a session while nothing is parked keeps the invariants: the
    new stats object starts at zero. *)
Lemma startAutoCopyTrading_invariants config options provider now' (e e' : Engine) r :
  startAutoCopyTrading config options provider now' e = (r, e') ->
  inflight e.2 = [] ->
  inflight e'.2 = [] /\ (accounted e.2 -> accounted e'.2).
Proof.
  destruct e as [svc w]. unfold startAutoCopyTrading.
  set (top := match o_topN options with
              | Some (S n) => Some (Cache.getSmartMoneyList config (S n) (clock w)
                                      provider now' (Stream.cache svc))
              | _ => None end).
  set (w1 := match top with Some _ => setClock now' w | None => w end).
  assert (Hw1 : heap w1 = heap w /\ inflight w1 = inflight w)
    by (subst w1; by destruct top).
  destruct Hw1 as [Hh Hi]. simpl.
  match goal with |- context [match ?x with None => _ | Some _ => _ end] =>
    destruct x as [[|a targets]|] end.
  1, 3: intros [= <- <-] Hnil; simpl; rewrite Hi; split; [exact Hnil|];
    intros Hacc l s Hs; unfold pending; simpl in *; rewrite ?Hi, Hnil;
    rewrite Hh in Hs; specialize (Hacc l s Hs); unfold pending in Hacc;
    by rewrite Hnil in Hacc.
  destruct (Stream.subscribeSmartMoneyTrades _ _ _ _ _) as [subscription svc2].
  intros [= <- <-] Hnil. simpl. rewrite Hi. split; [exact Hnil|].
  intros Hacc l' s Hs. unfold pending. simpl in *. rewrite ?Hi, Hnil.
  rewrite lookup_insert in Hs. case_decide as Hl.
  - injection Hs as <-. unfold finished. simpl. lia.
  - rewrite Hh in Hs. specialize (Hacc l' s Hs). unfold pending in Hacc.
    by rewrite Hnil in Hacc.
Qed.

(** A session started while nothing is parked, whose callbacks return:
    after every event of any interleaving its counters satisfy
    [detected >= skipped + executed + failed]. *)
Lemma session_counters config options provider now' (e e' : Engine)
    (sub : AutoCopyTradingSubscription) es s :
  startAutoCopyTrading config options provider now' e = (Some sub, e') ->
  inflight e.2 = [] -> accounted e.2 ->
  Forall quietEvent es ->
  readStats sub (run es e'.2) = Some s ->
  (tradesSkipped s + tradesExecuted s + tradesFailed s <= tradesDetected s)%N.
Proof.
  intros Hstart Hnil Hacc Hes Hs.
  destruct (startAutoCopyTrading_invariants _ _ _ _ _ _ _ Hstart Hnil) as [Hnil' Hacc'].
  eapply accounted_invariant; [|exact Hs].
  apply counters_accounted; auto.
  - unfold sound. rewrite Hnil'. constructor.
  - unfold quietWorld. rewrite Hnil'. constructor.
Qed.

End Counters.

(** C4 fails on the code.  A dry-run session whose [onTrade] callback
    throws is started on a new service and the stream delivers one trade of
    its target: the trade is counted as executed, then the [catch] block
    counts it as failed as well, and
    [detected >= skipped + executed + failed] no longer holds. *)
Lemma throwing_callback_counted_twice :
  let e := Sample.startedThrowing.2 in
  let w := (Stream.onActivityTrade (Sample.activity "0xAAA") e.1 e.2 Stream.noTrace).1 in
  exists s,
    AutoCopy.readStats Sample.startedSubscription w = Some s
    /\ tradesDetected s = 1%N
    /\ tradesExecuted s = 1%N
    /\ tradesSkipped s = 0%N
    /\ tradesFailed s = 1%N
    /\ (totalUsdcSpent s == 5)%Q
    /\ ~ (tradesSkipped s + tradesExecuted s + tradesFailed s <= tradesDetected s)%N.
Proof.
  eexists. split; [vm_compute; reflexivity|]. simpl. split_and!; try reflexivity. lia.
Qed.

Lemma startedThrowing_subscription :
  Sample.startedThrowing.1 = Some Sample.startedSubscription.
Proof. vm_compute. reflexivity. Qed.

(** ** The stats field and the snapshots *)

Section Snapshots.
Import AutoCopy.

(** A started session: the returned object's [stats] field holds the
    location captured by the handler that was registered, and the object
    there has all counters at zero. *)
Lemma startAutoCopyTrading_shares_stats config options provider now'
    (e e' : Engine) (sub : AutoCopyTradingSubscription) :
  startAutoCopyTrading config options provider now' e = (Some sub, e') ->
  exists c,
    stats c = s_stats sub
    /\ Stream.onTrade (s_subscription sub) = Stream.handlerId (listener c)
    /\ Stream.tradeHandlers e'.1 = Stream.tradeHandlers e.1 ++ [listener c]
    /\ readStats sub e'.2
       = Some {| startTime := clock e.2; tradesDetected := 0; tradesExecuted := 0;
                 tradesSkipped := 0; tradesFailed := 0; totalUsdcSpent := 0 |}.
Proof.
  destruct e as [svc w]. unfold startAutoCopyTrading.
  set (top := match o_topN options with
              | Some (S n) => Some (Cache.getSmartMoneyList config (S n) (clock w)
                                      provider now' (Stream.cache svc))
              | _ => None end).
  set (svc1 := match top with
               | Some r => {| Stream.cache := Cache.after r;
                              Stream.activeSubscription := Stream.activeSubscription svc;
                              Stream.tradeHandlers := Stream.tradeHandlers svc;
                              Stream.providerCalls :=
                                Stream.providerCalls svc ++ Cache.providerCalls r;
                              Stream.upstreamOpened := Stream.upstreamOpened svc;
                              Stream.upstreamClosed := Stream.upstreamClosed svc |}
               | None => svc end).
  set (w1 := match top with Some _ => setClock now' w | None => w end).
  assert (Hh : Stream.tradeHandlers svc1 = Stream.tradeHandlers svc)
    by (subst svc1; by destruct top).
  match goal with |- context [match ?x with None => _ | Some _ => _ end] =>
    destruct x as [[|a targets]|]; try discriminate end.
  set (l := fresh (dom (heap w1)
                   ∪ list_to_set (Stream.handlerId <$> Stream.tradeHandlers svc1))).
  assert (Hfresh : l ∉ dom (heap w1)
                       ∪ list_to_set (Stream.handlerId <$> Stream.tradeHandlers svc1))
    by apply is_fresh.
  unfold Stream.subscribeSmartMoneyTrades. simpl.
  destruct (Stream.activeSubscription svc1); intros [= <- <-]; simpl;
    (match goal with |- context [listener ?c] => exists c end;
     split_and!; [reflexivity | reflexivity | | ]).
  all: try (unfold Stream.handlers_add, Stream.registered; simpl;
            rewrite bool_decide_eq_false_2 by set_solver; by rewrite Hh).
  all: unfold readStats; simpl; by rewrite lookup_insert_eq.
Qed.

(** A read through [subscription.stats] after the handler ran sees what
    the handler wrote. *)
Lemma read_sees_handler (sub : AutoCopyTradingSubscription) (c : Session) trade w s :
  stats c = s_stats sub -> readStats sub w = Some s ->
  exists s', readStats sub (handler c trade w) = Some s'
    /\ tradesDetected s' = (tradesDetected s + 1)%N.
Proof.
  intros Hc Hs. unfold readStats in *.
  destruct (handler_effect c trade w) as (k & parked & [He _] & _).
  destruct (He _ s Hs) as (s' & Hs' & R). exists s'. split; [exact Hs'|].
  rewrite decide_True in R by congruence. apply R.
Qed.

(** So does a read after the backend answered a parked invocation. *)
Lemma read_sees_completion (sub : AutoCopyTradingSubscription) (c : Session)
    trade v r i w s :
  stats c = s_stats sub -> readStats sub w = Some s ->
  inflight w !! i = Some (AwaitOrder c trade v) -> success r = true ->
  exists s', readStats sub (orderSettles i (Resolved r) w) = Some s'
    /\ tradesExecuted s' = (tradesExecuted s + 1)%N
    /\ totalUsdcSpent s' = (totalUsdcSpent s + v)%Q.
Proof.
  intros Hc Hs Hi Hok. unfold readStats, orderSettles in *. rewrite Hi.
  destruct (settle_facts c trade v r (resume i w)) as (Hheap & _).
  rewrite Hok in Hheap. simpl in Hheap.
  destruct Hheap as [-> | [_ ->]]; rewrite <- Hc, ?lookup_alter_eq, Hc, Hs; simpl; eauto.
Qed.

(** A snapshot is a new object with the fields of the live one. *)
Lemma getStats_copies (sub : AutoCopyTradingSubscription) w s :
  readStats sub w = Some s ->
  let l' := (getStats sub w).1 in
  let w1 := (getStats sub w).2 in
  l' <> s_stats sub
  /\ heap w !! l' = None
  /\ heap w1 !! l' = Some s
  /\ readStats sub w1 = Some s
  /\ inflight w1 = inflight w.
Proof.
  unfold readStats, getStats. intros Hs. simpl. rewrite Hs. simpl.
  assert (Hfresh : fresh (dom (heap w)) ∉ dom (heap w)) by apply is_fresh.
  assert (Hne : fresh (dom (heap w)) <> s_stats sub).
  { intros Heq. apply Hfresh. rewrite Heq. apply elem_of_dom. eauto. }
  split_and!.
  - exact Hne.
  - by apply not_elem_of_dom.
  - by rewrite lookup_insert_eq.
  - by rewrite lookup_insert_ne.
  - reflexivity.
Qed.

End Snapshots.

(** C10: [subscription.stats] is the live object, [getStats()] hands out
    copies.  The [stats] field of the object returned by
    [startAutoCopyTrading] is the reference the registered handler writes
    through, so a read through it sees the current counters, those of later
    trades included; every [getStats()] allocates a new object with the
    current values, and a write to that object changes neither the live
    counters nor a later snapshot, nor do later trades change it. *)
Theorem stats_live_snapshots_copied config options provider now'
    (e e' : AutoCopy.Engine) (sub : AutoCopy.AutoCopyTradingSubscription) :
  AutoCopy.startAutoCopyTrading config options provider now' e = (Some sub, e') ->
  exists c,
    AutoCopy.stats c = AutoCopy.s_stats sub
    /\ Stream.tradeHandlers e'.1 = Stream.tradeHandlers e.1 ++ [AutoCopy.listener c]
    /\ is_Some (AutoCopy.readStats sub e'.2)
    /\ forall w s, AutoCopy.readStats sub w = Some s ->
         (* live: the handler's writes are read through the field *)
         (forall trade, exists s',
            AutoCopy.readStats sub (AutoCopy.handler c trade w) = Some s'
            /\ tradesDetected s' = (tradesDetected s + 1)%N)
         /\ (forall trade v r i,
               AutoCopy.inflight w !! i = Some (AutoCopy.AwaitOrder c trade v) ->
               success r = true ->
               exists s',
                 AutoCopy.readStats sub (AutoCopy.orderSettles i (AutoCopy.Resolved r) w)
                 = Some s'
                 /\ tradesExecuted s' = (tradesExecuted s + 1)%N)
         /\ (forall f, AutoCopy.readStats sub (AutoCopy.modify (AutoCopy.s_stats sub) f w)
                       = Some (f s))
         (* copy: a snapshot is apart from the live object *)
         /\ let l' := (AutoCopy.getStats sub w).1 in
            let w1 := (AutoCopy.getStats sub w).2 in
            l' <> AutoCopy.s_stats sub
            /\ AutoCopy.heap w !! l' = None
            /\ AutoCopy.heap w1 !! l' = Some s
            /\ AutoCopy.readStats sub w1 = Some s
            /\ (forall f,
                  let w2 := AutoCopy.modify l' f w1 in
                  AutoCopy.readStats sub w2 = Some s
                  /\ AutoCopy.heap w2 !! l' = Some (f s)
                  /\ (AutoCopy.getStats sub w2).1 <> l'
                  /\ AutoCopy.heap (AutoCopy.getStats sub w2).2
                       !! (AutoCopy.getStats sub w2).1 = Some s)
            /\ (forall trade,
                  AutoCopy.heap (AutoCopy.handler c trade w1) !! l' = Some s).
Proof.
  intros Hstart.
  destruct (startAutoCopyTrading_shares_stats _ _ _ _ _ _ _ Hstart)
    as (c & Hc & _ & Hh & Hzero).
  exists c. split_and!; [exact Hc | exact Hh | by rewrite Hzero |].
  intros w s Hs. split_and!.
  - intros trade. by apply read_sees_handler.
  - intros trade v r i Hi Hok.
    destruct (read_sees_completion sub c trade v r i w s Hc Hs Hi Hok) as (s' & H1 & H2 & _).
    eauto.
  - intros f. unfold AutoCopy.readStats in *. simpl.
    by rewrite lookup_alter_eq, Hs.
  - destruct (getStats_copies sub w s Hs) as (Hne & Hnew & Hcopy & Hlive & Hin).
    simpl in *. split_and!; auto.
    + intros f.
      assert (Hlive2 : AutoCopy.readStats sub
                (AutoCopy.modify (AutoCopy.getStats sub w).1 f (AutoCopy.getStats sub w).2)
              = Some s).
      { unfold AutoCopy.readStats in *. simpl. by rewrite lookup_alter_ne. }
      assert (Hcopy2 : AutoCopy.heap
                (AutoCopy.modify (AutoCopy.getStats sub w).1 f (AutoCopy.getStats sub w).2)
                !! (AutoCopy.getStats sub w).1 = Some (f s)).
      { simpl. by rewrite lookup_alter_eq, Hcopy. }
      destruct (getStats_copies sub _ s Hlive2) as (_ & Hnew2 & Hcopy3 & _).
      simpl in *. split_and!; auto.
      intros Heq. rewrite Heq in Hnew2. congruence.
    + intros trade.
      destruct (handler_effect c trade (AutoCopy.getStats sub w).2)
        as (k & parked & [He _] & _).
      destruct (He _ s Hcopy) as (s' & Hs' & R).
      rewrite decide_False in R by congruence. by subst s'.
Qed.

Lemma stats_live_snapshots_copied_witness :
  exists c, AutoCopy.stats c = AutoCopy.s_stats Sample.startedSubscription.
Proof.
  destruct (stats_live_snapshots_copied defaultConfig
              (Sample.followAlice true None None) (Sample.board []) 0
              Sample.newEngine Sample.started.2 Sample.startedSubscription)
    as (c & Hc & _).
  - vm_compute. reflexivity.
  - exists c. exact Hc.
Defined.

(** The handler registered by the sample start is the listener of the
    sample session. *)
Lemma started_session :
  Stream.handlerId <$> Stream.tradeHandlers Sample.started.2.1
  = [Stream.handlerId (AutoCopy.listener (Sample.session true None 0))]
  /\ forall trade w,
       (Stream.dispatch (Stream.tradeHandlers Sample.started.2.1) trade w Stream.noTrace).1
       = AutoCopy.handler (Sample.session true None 0) trade w.
Proof. split; [vm_compute; reflexivity | reflexivity]. Qed.

(** * More of the service *)

(** ** Lookups in the cache *)

Lemma lower_ascii_idempotent (c : ascii) : lower_ascii (lower_ascii c) = lower_ascii c.
Proof. destruct c as [[] [] [] [] [] [] [] []]; reflexivity. Qed.

Lemma toLowerCase_idempotent (s : string) : toLowerCase (toLowerCase s) = toLowerCase s.
Proof.
  induction s as [|c r IH]; simpl; [reflexivity|].
  by rewrite lower_ascii_idempotent, IH.
Qed.

Section JsMapMoreFacts.
Context {V : Type}.
Implicit Types (m : list (string * V)) (k : string) (v : V).

Lemma JsMap_get_elem k v m : JsMap.get k m = Some v -> (k, v) ∈ m.
Proof.
  induction m as [|[k0 v0] r IH]; simpl; [discriminate|].
  destruct (String.eqb_spec k0 k) as [->|Hne].
  - intros [= ->]. left.
  - intros H. right. auto.
Qed.

Lemma JsMap_set_Forall (P : string * V -> Prop) k v m :
  P (k, v) -> Forall P m -> Forall P (JsMap.set k v m).
Proof.
  intros Hkv. induction m as [|[k0 v0] r IH]; simpl; intros H.
  - constructor; [exact Hkv | constructor].
  - inversion H as [|? ? H0 Hr]; subst.
    destruct (String.eqb k0 k); constructor; auto.
Qed.

Lemma JsMap_set_size k v m :
  (JsMap.size m <= JsMap.size (JsMap.set k v m))%nat
  /\ (0 < JsMap.size (JsMap.set k v m))%nat.
Proof.
  unfold JsMap.size. induction m as [|[k0 v0] r IH]; simpl; [lia|].
  destruct (String.eqb k0 k); simpl; lia.
Qed.
End JsMapMoreFacts.

Section CacheRunFacts.
Variable config : ServiceConfig.

Lemma coherent_empty : CacheRun.coherent Cache.empty.
Proof.
  split; [|constructor]. intros k. simpl. split; [set_solver | discriminate].
Qed.

Lemma coherent_disconnect st : CacheRun.coherent (Cache.disconnect st).
Proof.
  split; [|constructor]. intros k. simpl. split; [set_solver | discriminate].
Qed.

Lemma refreshLoop_coherent i entries acc st :
  CacheRun.coherent st -> CacheRun.coherent (Cache.refreshLoop config i entries acc st).2.
Proof.
  revert i acc st. induction entries as [|e r IH]; intros i acc st Hst; simpl; [exact Hst|].
  destruct (Qltb (le_pnl e) (minPnl config)); [by apply IH|].
  apply IH. destruct Hst as [Hset Hkeys]. split; simpl.
  - intros k. rewrite JsMap_has_set, elem_of_union, elem_of_singleton, Hset.
    destruct (String.eqb_spec (toLowerCase (le_address e)) k) as [->|Hne]; simpl.
    + tauto.
    + split; [intros [?|?]; [congruence|done] | tauto].
  - apply JsMap_set_Forall; [|exact Hkeys]. simpl.
    split; [reflexivity | apply toLowerCase_idempotent].
Qed.

Lemma refresh_coherent entries now' st :
  CacheRun.coherent st -> CacheRun.coherent (Cache.refresh config entries now' st).2.
Proof.
  intros Hst. unfold Cache.refresh.
  pose proof (refreshLoop_coherent 0 entries [] st Hst) as H.
  destruct (Cache.refreshLoop config 0 entries [] st) as [l st']. exact H.
Qed.

Lemma run_coherent ops : CacheRun.coherent (CacheRun.run config ops).
Proof.
  unfold CacheRun.run. generalize coherent_empty. generalize Cache.empty.
  induction ops as [|op r IH]; intros st Hst; simpl; [exact Hst|].
  apply IH. destruct op; simpl; [by apply refresh_coherent | apply coherent_disconnect].
Qed.

(** After [getSmartMoneyList] the cache is one of these states again. *)
Lemma getSmartMoneyList_coherent limit now provider now' st :
  CacheRun.coherent st ->
  CacheRun.coherent (Cache.after (Cache.getSmartMoneyList config limit now provider now' st)).
Proof.
  intros Hst. unfold Cache.getSmartMoneyList.
  destruct (Cache.isCacheValid config now st); [exact Hst|].
  destruct (provider 0%nat limit) as [entries|]; [|exact Hst].
  pose proof (refresh_coherent entries now' st Hst) as H.
  destruct (Cache.refresh config entries now' st) as [l st']. exact H.
Qed.

Lemma coherent_lookup st k :
  CacheRun.coherent st ->
  match JsMap.get k (Cache.smartMoneyCache st) with
  | Some w => k ∈ Cache.smartMoneySet st /\ w_address w = k
  | None => k ∉ Cache.smartMoneySet st
  end.
Proof.
  intros [Hset Hkeys]. specialize (Hset k). unfold JsMap.has in Hset.
  destruct (JsMap.get k (Cache.smartMoneyCache st)) as [w|] eqn:Hget.
  - split; [tauto|]. apply JsMap_get_elem in Hget.
    rewrite Forall_forall in Hkeys. destruct (Hkeys _ Hget) as [H1 _].
    simpl in H1. by symmetry.
  - intros Hin. apply Hset in Hin. discriminate.
Qed.

End CacheRunFacts.

(** X1: in every state the cache gets into, [isSmartMoney] and
    [getSmartMoneyInfo] agree.  Asked about the same address at the same
    moment they make the same provider calls and leave the same cache, one
    rejects exactly when the other does, and the address is a member exactly
    when there is a record for it, which then carries the lower-cased
    address. *)
Theorem membership_and_info_agree config (ops : list CacheRun.Op)
    (address : string) (now : Z) (provider : Cache.Provider) (now' : Z) :
  let st := CacheRun.run config ops in
  let member := Cache.isSmartMoney config address now provider now' st in
  let info := Cache.getSmartMoneyInfo config address now provider now' st in
  Cache.after member = Cache.after info
  /\ Cache.providerCalls member = Cache.providerCalls info
  /\ match Cache.result member, Cache.result info with
     | None, None => True
     | Some true, Some (Some w) => w_address w = toLowerCase address
     | Some false, Some None => True
     | _, _ => False
     end.
Proof.
  simpl. pose proof (run_coherent config ops) as Hst.
  set (st := CacheRun.run config ops) in *.
  unfold Cache.isSmartMoney, Cache.getSmartMoneyInfo.
  destruct (Cache.isCacheValid config now st) eqn:Hvalid; simpl.
  - pose proof (coherent_lookup st (toLowerCase address) Hst) as Hk.
    unfold JsMap.has.
    destruct (JsMap.get (toLowerCase address) (Cache.smartMoneyCache st)) as [w|] eqn:Hget;
      simpl.
    + destruct Hk as [Hin Hw]. rewrite bool_decide_eq_true_2 by exact Hin. auto.
    + unfold Cache.getSmartMoneyList. rewrite Hvalid. simpl. rewrite Hget.
      rewrite bool_decide_eq_false_2 by exact Hk. auto.
  - pose proof (getSmartMoneyList_coherent config 100 now provider now' st Hst) as Hafter.
    set (r := Cache.getSmartMoneyList config 100 now provider now' st) in *.
    pose proof (coherent_lookup (Cache.after r) (toLowerCase address) Hafter) as Hk.
    destruct (Cache.result r); simpl; [|auto].
    destruct (JsMap.get (toLowerCase address) (Cache.smartMoneyCache (Cache.after r)))
      as [w|].
    + destruct Hk as [Hin Hw]. rewrite bool_decide_eq_true_2 by exact Hin. auto.
    + rewrite bool_decide_eq_false_2 by exact Hk. auto.
Qed.

(** ** How long the cache is used, what it holds *)

Section CacheWindow.
Variable config : ServiceConfig.

Lemma JsMap_set_not_nil {V} k (v : V) m : JsMap.set k v m <> [].
Proof. destruct m as [|[k0 v0] r]; simpl; [|destruct (String.eqb k0 k)]; discriminate. Qed.

Lemma refreshLoop_empty i entries acc st :
  Cache.smartMoneyCache (Cache.refreshLoop config i entries acc st).2 = []
  <-> Cache.smartMoneyCache st = []
      /\ Forall (fun e => Cache.qualifies config e = false) entries.
Proof.
  revert i acc st. induction entries as [|e r IH]; intros i acc st; simpl.
  - split; [intros H; split; [exact H | constructor] | tauto].
  - unfold Cache.qualifies at 1.
    destruct (Qltb (le_pnl e) (minPnl config)) eqn:E.
    + rewrite IH. split; intros [H1 H2]; split; auto.
      * constructor; [|exact H2]. unfold Cache.qualifies. by rewrite E.
      * by inversion H2.
    + rewrite IH. simpl. split.
      * intros [H _]. by apply JsMap_set_not_nil in H.
      * intros [_ H]. inversion H as [|? ? H0 _]; subst.
        unfold Cache.qualifies in H0. rewrite E in H0. discriminate.
Qed.

Lemma refresh_empty entries now' st :
  Cache.smartMoneyCache (Cache.refresh config entries now' st).2 = []
  <-> Cache.smartMoneyCache st = []
      /\ Forall (fun e => Cache.qualifies config e = false) entries.
Proof.
  unfold Cache.refresh.
  pose proof (refreshLoop_empty 0 entries [] st) as H.
  destruct (Cache.refreshLoop config 0 entries [] st) as [l st']. exact H.
Qed.

Lemma refresh_timestamp entries now' st :
  Cache.cacheTimestamp (Cache.refresh config entries now' st).2 = now'.
Proof.
  unfold Cache.refresh.
  destruct (Cache.refreshLoop config 0 entries [] st) as [l st']. reflexivity.
Qed.

Lemma isCacheValid_iff now st :
  Cache.isCacheValid config now st = true
  <-> (now - Cache.cacheTimestamp st < cacheTtl config)%Z /\ Cache.smartMoneyCache st <> [].
Proof.
  unfold Cache.isCacheValid, JsMap.size.
  rewrite andb_true_iff, Z.ltb_lt, Nat.ltb_lt.
  destruct (Cache.smartMoneyCache st); simpl; split; intros [H1 H2]; split; auto;
    try lia; try discriminate. contradiction.
Qed.

Lemma getSmartMoneyList_calls limit now provider now' st :
  Cache.providerCalls (Cache.getSmartMoneyList config limit now provider now' st)
  = if Cache.isCacheValid config now st then [] else [(0%nat, limit)].
Proof.
  unfold Cache.getSmartMoneyList.
  destruct (Cache.isCacheValid config now st); [reflexivity|].
  destruct (provider 0%nat limit) as [entries|]; [|reflexivity].
  destruct (Cache.refresh config entries now' st). reflexivity.
Qed.

End CacheWindow.

(** X3: how long a refreshed cache is served.  After the answer [entries]
    has been merged at clock [now'], a later [getSmartMoneyList] asks the
    provider nothing exactly when less than [cacheTtl] has passed and the
    mapping holds a wallet (it held one before, or an entry of the answer
    qualified); it then returns the cached values and changes nothing.
    Otherwise it asks the provider once, for [(0, limit)].  An answer that
    leaves the mapping empty is never served from the cache. *)
Theorem refreshed_cache_window config entries now' st limit later provider n :
  let st' := (Cache.refresh config entries now' st).2 in
  let r := Cache.getSmartMoneyList config limit later provider n st' in
  (Cache.providerCalls r = [] <->
     (later - now' < cacheTtl config)%Z
     /\ (Cache.smartMoneyCache st <> []
         \/ Exists (fun e => Cache.qualifies config e = true) entries))
  /\ (Cache.providerCalls r = [] ->
      Cache.after r = st'
      /\ Cache.result r = Some (JsMap.values (Cache.smartMoneyCache st')))
  /\ (Cache.providerCalls r <> [] -> Cache.providerCalls r = [(0%nat, limit)]).
Proof.
  intros st' r. unfold r. rewrite getSmartMoneyList_calls.
  assert (Hvalid : Cache.isCacheValid config later st' = true <->
     (later - now' < cacheTtl config)%Z
     /\ (Cache.smartMoneyCache st <> []
         \/ Exists (fun e => Cache.qualifies config e = true) entries)).
  { rewrite isCacheValid_iff. unfold st'. rewrite refresh_timestamp, refresh_empty.
    split; intros [H1 H2]; (split; [exact H1|]).
    - destruct (Cache.smartMoneyCache st) as [|kv m] eqn:Hm; [|by left].
      right. assert (H3 : ~ Forall (fun e => Cache.qualifies config e = false) entries)
        by tauto.
      apply not_Forall_Exists in H3; [|intros e; apply _].
      eapply Exists_impl; [exact H3|]. simpl. intros e He.
      by destruct (Cache.qualifies config e).
    - intros [Hm Hall]. destruct H2 as [H2|H2]; [contradiction|].
      rewrite Exists_exists in H2. destruct H2 as (e & Hin & He).
      rewrite Forall_forall in Hall. rewrite (Hall e Hin) in He. discriminate. }
  unfold Cache.getSmartMoneyList.
  destruct (Cache.isCacheValid config later st') eqn:E; simpl.
  - split_and!; [|auto|congruence]. split; [intros _; by apply Hvalid|reflexivity].
  - split_and!; [|discriminate|reflexivity].
    split; [discriminate|]. intros H. apply Hvalid in H. discriminate.
Qed.

Section CachedWallets.
Variable config : ServiceConfig.

Lemma toWallet_score i e :
  (w_score (Cache.toWallet i e) <= 100)%Z
  /\ ((0 <= le_pnl e)%Q -> (0 <= le_volume e)%Q -> (0 <= w_score (Cache.toWallet i e))%Z)
  /\ ((200000 <= le_pnl e)%Q -> (0 <= le_volume e)%Q -> w_score (Cache.toWallet i e) = 100%Z).
Proof.
  simpl. unfold Math_round. split_and!.
  - apply Z.le_min_l.
  - intros Hp Hv. apply Z.min_glb; [lia|].
    change 0%Z with (Qfloor 0). apply Qfloor_resp_le.
    unfold Qdiv. change (/ 100000)%Q with (1 # 100000)%Q.
    change (/ 1000000)%Q with (1 # 1000000)%Q. lra.
  - intros Hp Hv. apply Z.min_l.
    change 100%Z with (Qfloor 100). apply Qfloor_resp_le.
    unfold Qdiv. change (/ 100000)%Q with (1 # 100000)%Q.
    change (/ 1000000)%Q with (1 # 1000000)%Q. lra.
Qed.

Lemma refreshLoop_built i entries acc st :
  Forall (fun kv => exists j e, kv.2 = Cache.toWallet j e /\ Cache.qualifies config e = true)
    (Cache.smartMoneyCache st) ->
  Forall (fun kv => exists j e, kv.2 = Cache.toWallet j e /\ Cache.qualifies config e = true)
    (Cache.smartMoneyCache (Cache.refreshLoop config i entries acc st).2).
Proof.
  revert i acc st. induction entries as [|e r IH]; intros i acc st Hst; simpl; [exact Hst|].
  destruct (Qltb (le_pnl e) (minPnl config)) eqn:E; [by apply IH|].
  apply IH. simpl. apply JsMap_set_Forall; [|exact Hst].
  exists i, e. split; [reflexivity|]. unfold Cache.qualifies. by rewrite E.
Qed.

Lemma run_built ops :
  Forall (fun kv => exists j e, kv.2 = Cache.toWallet j e /\ Cache.qualifies config e = true)
    (Cache.smartMoneyCache (CacheRun.run config ops)).
Proof.
  unfold CacheRun.run.
  assert (H0 : Forall (fun kv : string * SmartMoneyWallet =>
                 exists j e, kv.2 = Cache.toWallet j e /\ Cache.qualifies config e = true)
                (Cache.smartMoneyCache Cache.empty)) by constructor.
  revert H0. generalize Cache.empty.
  induction ops as [|op r IH]; intros st Hst; simpl; [exact Hst|].
  apply IH. destruct op as [entries now'|]; simpl; [|constructor].
  unfold Cache.refresh.
  pose proof (refreshLoop_built 0 entries [] st Hst) as H.
  destruct (Cache.refreshLoop config 0 entries [] st) as [l st']. exact H.
Qed.

End CachedWallets.

(** X4: what a cached wallet looks like.  In every state the cache gets
    into, a wallet it holds passed the PnL threshold, has a rank, and a
    score of at most 100; the score is not negative when the threshold and
    the wallet's volume are not, and it is exactly 100 from a PnL of
    200000 on. *)
Theorem cached_wallet_shape config (ops : list CacheRun.Op) (w : SmartMoneyWallet) :
  w ∈ JsMap.values (Cache.smartMoneyCache (CacheRun.run config ops)) ->
  (minPnl config <= w_pnl w)%Q
  /\ is_Some (w_rank w)
  /\ (w_score w <= 100)%Z
  /\ ((0 <= minPnl config)%Q -> (0 <= w_volume w)%Q -> (0 <= w_score w)%Z)
  /\ ((200000 <= w_pnl w)%Q -> (0 <= w_volume w)%Q -> w_score w = 100%Z).
Proof.
  intros Hin. unfold JsMap.values in Hin. apply list_elem_of_fmap in Hin.
  destruct Hin as (kv & -> & Hin).
  pose proof (run_built config ops) as H. rewrite Forall_forall in H.
  destruct (H kv Hin) as (j & e & -> & Hq).
  unfold Cache.qualifies in Hq. apply negb_true_iff, Qltb_ge in Hq.
  destruct (toWallet_score j e) as (H1 & H2 & H3).
  split_and!; [exact Hq | by eexists | exact H1 | | exact H3].
  intros H0 Hv. apply H2; [|exact Hv]. simpl in *. lra.
Qed.

Lemma cached_wallet_shape_witness :
  (w_score (Cache.toWallet 0 Sample.alice) <= 100)%Z.
Proof.
  refine (proj1 (proj2 (proj2
    (cached_wallet_shape defaultConfig [CacheRun.Refresh [Sample.alice] 1000]
       (Cache.toWallet 0 Sample.alice) _)))).
  vm_compute. left.
Defined.

(** X2: a member is found under any spelling.  Once a leaderboard answer
    has been merged, an address of one of its qualifying entries is a
    member however its letters are cased: until the cache expires,
    [isSmartMoney] answers [true] and [getSmartMoneyInfo] returns a record
    carrying the lower-cased address, both without a provider call and
    without touching the cache. *)
Theorem member_under_any_spelling config (ops : list CacheRun.Op)
    (entries : list LeaderboardEntry) (now' : Z) (e : LeaderboardEntry)
    (address : string) (later : Z) (provider : Cache.Provider) (n : Z) :
  e ∈ entries ->
  Cache.qualifies config e = true ->
  toLowerCase address = toLowerCase (le_address e) ->
  (later - now' < cacheTtl config)%Z ->
  let st := CacheRun.run config (ops ++ [CacheRun.Refresh entries now']) in
  Cache.isSmartMoney config address later provider n st
  = {| Cache.result := Some true; Cache.after := st; Cache.providerCalls := [] |}
  /\ exists w,
       Cache.getSmartMoneyInfo config address later provider n st
       = {| Cache.result := Some (Some w); Cache.after := st; Cache.providerCalls := [] |}
       /\ w_address w = toLowerCase address.
Proof.
  intros He Hq Ha Hlater st.
  pose proof (run_coherent config (ops ++ [CacheRun.Refresh entries now'])) as Hcoh.
  fold st in Hcoh.
  assert (Hst : st = (Cache.refresh config entries now' (CacheRun.run config ops)).2).
  { unfold st, CacheRun.run. by rewrite foldl_app. }
  assert (Hvalid : Cache.isCacheValid config later st = true).
  { apply isCacheValid_iff. rewrite Hst, refresh_timestamp, refresh_empty.
    split; [exact Hlater|]. intros [_ Hall]. rewrite Forall_forall in Hall.
    rewrite (Hall e He) in Hq. discriminate. }
  assert (Hmember : toLowerCase address ∈ Cache.smartMoneySet st).
  { destruct (refresh_spec config entries now' (CacheRun.run config ops))
      as (_ & Hset & _).
    rewrite Hst, Hset. apply elem_of_union_l, elem_of_list_to_set.
    assert (Hin : (toLowerCase (le_address e), le_userName e, le_pnl e, le_volume e)
                  ∈ (fun w => (w_address w, w_name w, w_pnl w, w_volume w))
                      <$> Cache.selected config 0 entries).
    { rewrite selected_order. apply list_elem_of_fmap. exists e. split; [reflexivity|].
      apply list_elem_of_In, filter_In. split; [by apply list_elem_of_In | exact Hq]. }
    apply list_elem_of_fmap in Hin as (w & Hw & Hin). injection Hw as Hw _ _ _.
    apply list_elem_of_fmap. exists w. split; [congruence | exact Hin]. }
  pose proof (coherent_lookup st (toLowerCase address) Hcoh) as Hlookup.
  unfold Cache.isSmartMoney, Cache.getSmartMoneyInfo, JsMap.has. rewrite Hvalid.
  destruct (JsMap.get (toLowerCase address) (Cache.smartMoneyCache st)) as [w|];
    [|contradiction].
  destruct Hlookup as [_ Hw]. simpl.
  rewrite bool_decide_eq_true_2 by exact Hmember. split; [reflexivity|].
  by exists w.
Qed.

Lemma member_under_any_spelling_witness :
  Cache.result
    (Cache.isSmartMoney defaultConfig "0XaaA" 2000 (Sample.board []) 2000
       (CacheRun.run defaultConfig ([] ++ [CacheRun.Refresh [Sample.alice] 1000])))
  = Some true.
Proof.
  refine (f_equal Cache.result
            (proj1 (member_under_any_spelling defaultConfig [] [Sample.alice] 1000
                      Sample.alice "0XaaA" 2000 (Sample.board []) 2000 _ _ _ _))).
  - left.
  - reflexivity.
  - reflexivity.
  - reflexivity.
Defined.

(** ** One upstream subscription *)

Section StreamRunFacts.
Context {World : Type}.
Implicit Types (svc : Stream.t World) (h : Stream.Handler World)
  (hs : list (Stream.Handler World)).

Lemma registered_iff id hs :
  Stream.registered id hs = true <-> id ∈ Stream.handlerId <$> hs.
Proof. unfold Stream.registered. apply bool_decide_eq_true. Qed.

Lemma handlers_add_registered h hs :
  Stream.registered (Stream.handlerId h) (Stream.handlers_add h hs) = true.
Proof.
  unfold Stream.handlers_add.
  destruct (Stream.registered (Stream.handlerId h) hs) eqn:E; [exact E|].
  apply registered_iff. rewrite fmap_app. apply elem_of_app. right. simpl. left.
Qed.

Lemma handlers_add_not_nil h hs : Stream.handlers_add h hs <> [].
Proof.
  pose proof (handlers_add_registered h hs) as H. intros E. rewrite E in H.
  apply registered_iff in H. simpl in H. by apply elem_of_nil in H.
Qed.

Lemma handlers_add_NoDup h hs :
  NoDup (Stream.handlerId <$> hs) ->
  NoDup (Stream.handlerId <$> Stream.handlers_add h hs).
Proof.
  intros Hnd. unfold Stream.handlers_add.
  destruct (Stream.registered (Stream.handlerId h) hs) eqn:E; [exact Hnd|].
  rewrite fmap_app. apply NoDup_app. split_and!; [exact Hnd | | apply NoDup_singleton].
  intros x Hx Hx'. simpl in Hx'. apply list_elem_of_singleton in Hx'. subst x.
  apply registered_iff in Hx. congruence.
Qed.

Lemma handlers_delete_ids id hs :
  Stream.handlerId <$> Stream.handlers_delete id hs
  = List.filter (fun i => negb (Nat.eqb i id)) (Stream.handlerId <$> hs).
Proof.
  unfold Stream.handlers_delete. induction hs as [|h r IH]; simpl; [reflexivity|].
  destruct (negb (Stream.handlerId h =? id)); simpl; [f_equal|]; exact IH.
Qed.

Lemma List_filter_NoDup {A} (p : A -> bool) (l : list A) :
  NoDup l -> NoDup (List.filter p l).
Proof.
  induction 1 as [|x l Hx Hl IH]; simpl; [constructor|].
  destruct (p x); [|exact IH]. constructor; [|exact IH].
  intros Hin. apply Hx. apply list_elem_of_In in Hin. apply filter_In in Hin.
  apply list_elem_of_In. tauto.
Qed.

Lemma handlers_delete_NoDup id hs :
  NoDup (Stream.handlerId <$> hs) ->
  NoDup (Stream.handlerId <$> Stream.handlers_delete id hs).
Proof. intros H. rewrite handlers_delete_ids. by apply List_filter_NoDup. Qed.

Lemma handlers_delete_nil id : Stream.handlers_delete id ([] : list (Stream.Handler World)) = [].
Proof. reflexivity. Qed.

(** Removing the function just added to a set that did not hold it gives
    the set back. *)
Lemma handlers_delete_add h hs :
  Stream.registered (Stream.handlerId h) hs = false ->
  Stream.handlers_delete (Stream.handlerId h) (Stream.handlers_add h hs) = hs.
Proof.
  intros Hreg. unfold Stream.handlers_add. rewrite Hreg.
  unfold Stream.handlers_delete. rewrite List.filter_app. simpl.
  rewrite Nat.eqb_refl. simpl. rewrite app_nil_r.
  by apply handlers_delete_unregistered.
Qed.

Lemma subscribe_wellFormed config h options now svc :
  StreamRun.wellFormed svc ->
  StreamRun.wellFormed (Stream.subscribeSmartMoneyTrades config h options now svc).2.
Proof.
  intros (Hact & Hnd & Hclosed & Hup). unfold Stream.subscribeSmartMoneyTrades.
  destruct (Stream.activeSubscription svc) as [up|] eqn:Eup; simpl;
    (split_and!; simpl;
      [ split; [discriminate | intros E; by apply handlers_add_not_nil in E]
      | by apply handlers_add_NoDup
      | exact Hclosed
      | ]).
  - exact Hup.
  - split; [exact Hup | by rewrite Hup].
Qed.

Lemma unsubscribe_wellFormed sub svc :
  StreamRun.wellFormed svc -> StreamRun.wellFormed (Stream.unsubscribe sub svc).
Proof.
  intros (Hact & Hnd & Hclosed & Hup). unfold Stream.unsubscribe.
  pose proof (handlers_delete_NoDup (Stream.onTrade sub) _ Hnd) as Hnd'.
  destruct (Stream.handlers_delete (Stream.onTrade sub) (Stream.tradeHandlers svc))
    as [|h' r] eqn:Edel.
  - destruct (Stream.activeSubscription svc) as [up|] eqn:Eup; simpl.
    + destruct Hup as [Hid Hopened].
      split_and!; simpl; [tauto | constructor | | ].
      * rewrite length_app. simpl. rewrite Nat.add_1_r, seq_S. simpl.
        by rewrite <- Hclosed, Hid.
      * rewrite length_app. simpl. lia.
    + split_and!; simpl; [tauto | constructor | exact Hclosed | exact Hup].
  - assert (Hne : Stream.tradeHandlers svc <> []).
    { intros E. rewrite E in Edel. discriminate. }
    assert (Hsome : Stream.activeSubscription svc <> None) by tauto.
    split_and!; simpl; [split; [contradiction | discriminate] | exact Hnd' | exact Hclosed
                        | exact Hup].
Qed.

Lemma disconnect_wellFormed svc :
  StreamRun.wellFormed svc -> StreamRun.wellFormed (Stream.disconnect svc).
Proof.
  intros (Hact & Hnd & Hclosed & Hup). unfold Stream.disconnect.
  split_and!; simpl; [tauto | constructor | | ].
  - destruct (Stream.activeSubscription svc) as [up|]; [|exact Hclosed].
    destruct Hup as [Hid Hopened].
    rewrite length_app. simpl. rewrite Nat.add_1_r, seq_S. simpl.
    by rewrite <- Hclosed, Hid.
  - destruct (Stream.activeSubscription svc) as [up|]; [|exact Hup].
    rewrite length_app. simpl. lia.
Qed.

Lemma warmupSettles_wellFormed config reply now' svc :
  StreamRun.wellFormed svc -> StreamRun.wellFormed (Stream.warmupSettles config reply now' svc).
Proof. intros H. destruct reply; exact H. Qed.

Lemma init_wellFormed : StreamRun.wellFormed (Stream.init : Stream.t World).
Proof. split_and!; simpl; [tauto | constructor | reflexivity | reflexivity]. Qed.

Lemma run_wellFormed config (ops : list (StreamRun.Op World)) :
  StreamRun.wellFormed (StreamRun.run config ops).
Proof.
  unfold StreamRun.run. generalize init_wellFormed. generalize (Stream.init : Stream.t World).
  induction ops as [|op r IH]; intros svc Hsvc; simpl; [exact Hsvc|].
  apply IH. destruct op; simpl.
  - by apply subscribe_wellFormed.
  - by apply unsubscribe_wellFormed.
  - by apply warmupSettles_wellFormed.
  - by apply disconnect_wellFormed.
Qed.

(** X5: one shared upstream subscription.  However functions are
    subscribed and unsubscribed, warm-ups settle and the service is
    disconnected, an upstream subscription is open exactly while a function
    is registered; the upstream subscriptions opened so far were closed in
    the order they were opened, each once, except the one open now; a
    function is registered once, so that an event reaches it once. *)
Theorem one_upstream_subscription config (ops : list (StreamRun.Op World)) :
  let svc := StreamRun.run config ops in
  (Stream.activeSubscription svc = None <-> Stream.tradeHandlers svc = [])
  /\ Stream.upstreamClosed svc = seq 0 (length (Stream.upstreamClosed svc))
  /\ Stream.upstreamOpened svc
     = (length (Stream.upstreamClosed svc)
        + match Stream.activeSubscription svc with Some _ => 1 | None => 0 end)%nat
  /\ (forall up, Stream.activeSubscription svc = Some up ->
        Stream.upstreamId up ∉ Stream.upstreamClosed svc)
  /\ (forall trade, NoDup (Stream.fanOut svc trade).*1).
Proof.
  intros svc. destruct (run_wellFormed config ops) as (Hact & Hnd & Hclosed & Hup).
  fold svc in Hact, Hnd, Hclosed, Hup.
  split_and!; [exact Hact | exact Hclosed | | | ].
  - destruct (Stream.activeSubscription svc); [destruct Hup as [_ ->]|rewrite Hup]; lia.
  - intros up E. rewrite E in Hup. destruct Hup as [-> _]. rewrite Hclosed at 2.
    rewrite list_elem_of_In, in_seq. lia.
  - intros trade. unfold Stream.fanOut.
    destruct (Stream.activeSubscription svc) as [up|]; [|constructor].
    destruct (Stream.normalize _ _ trade) as [t|]; [|constructor].
    rewrite <- list_fmap_compose. exact Hnd.
Qed.

(** X6: [disconnect] leaves nothing behind.  Whatever happened before,
    after it no function is registered, no upstream subscription is open
    and every one that was opened has been closed, the cache is empty and
    invalid at every clock, stream events reach nobody, and a second
    [disconnect] or a late [unsubscribe] of an old subscription changes
    nothing. *)
Theorem disconnect_leaves_nothing config (ops : list (StreamRun.Op World)) :
  let svc := Stream.disconnect (StreamRun.run config ops) in
  Stream.tradeHandlers svc = []
  /\ Stream.activeSubscription svc = None
  /\ Stream.upstreamClosed svc = seq 0 (Stream.upstreamOpened svc)
  /\ (forall now, Cache.isCacheValid config now (Stream.cache svc) = false)
  /\ (forall address, toLowerCase address ∉ Cache.smartMoneySet (Stream.cache svc))
  /\ (forall trades (w : World) tr, Stream.onActivityTrades trades svc w tr = (w, tr))
  /\ Stream.disconnect svc = svc
  /\ (forall sub, Stream.unsubscribe sub svc = svc).
Proof.
  intros svc.
  destruct (disconnect_wellFormed _ (run_wellFormed config ops)) as (_ & _ & Hclosed & Hup).
  fold svc in Hclosed, Hup.
  split_and!; try reflexivity.
  - assert (Hopened : Stream.upstreamOpened svc = length (Stream.upstreamClosed svc))
      by exact Hup.
    rewrite Hopened. exact Hclosed.
  - intros now. unfold Cache.isCacheValid. simpl. apply andb_false_r.
  - intros address. simpl. set_solver.
  - intros trades w tr. induction trades as [|t r IH]; [reflexivity|exact IH].
Qed.

(** X7: the same function subscribed twice.  The handler set holds it
    once, whatever options the two calls gave; the [unsubscribe] of either
    subscription removes it, after which the other [unsubscribe] does
    nothing more. *)
Theorem same_function_subscribed_twice config h options1 options2 now1 now2 svc :
  let r1 := Stream.subscribeSmartMoneyTrades config h options1 now1 svc in
  let r2 := Stream.subscribeSmartMoneyTrades config h options2 now2 r1.2 in
  Stream.tradeHandlers r2.2 = Stream.tradeHandlers r1.2
  /\ Stream.activeSubscription r2.2 = Stream.activeSubscription r1.2
  /\ Stream.upstreamOpened r2.2 = Stream.upstreamOpened r1.2
  /\ Stream.registered (Stream.handlerId h)
       (Stream.tradeHandlers (Stream.unsubscribe r1.1 r2.2)) = false
  /\ Stream.unsubscribe r2.1 (Stream.unsubscribe r1.1 r2.2) = Stream.unsubscribe r1.1 r2.2
  /\ Stream.unsubscribe r1.1 (Stream.unsubscribe r2.1 r2.2) = Stream.unsubscribe r2.1 r2.2.
Proof.
  intros r1 r2.
  assert (Hsub1 : Stream.onTrade r1.1 = Stream.handlerId h).
  { unfold r1, Stream.subscribeSmartMoneyTrades.
    destruct (Stream.activeSubscription svc); reflexivity. }
  assert (Hsub2 : Stream.onTrade r2.1 = Stream.handlerId h).
  { unfold r2, Stream.subscribeSmartMoneyTrades.
    destruct (Stream.activeSubscription r1.2); reflexivity. }
  assert (Hh1 : Stream.tradeHandlers r1.2 = Stream.handlers_add h (Stream.tradeHandlers svc)).
  { unfold r1, Stream.subscribeSmartMoneyTrades.
    destruct (Stream.activeSubscription svc); reflexivity. }
  assert (Hact1 : Stream.activeSubscription r1.2 <> None).
  { unfold r1, Stream.subscribeSmartMoneyTrades.
    destruct (Stream.activeSubscription svc); discriminate. }
  assert (Hr2 : Stream.tradeHandlers r2.2 = Stream.tradeHandlers r1.2
                /\ Stream.activeSubscription r2.2 = Stream.activeSubscription r1.2
                /\ Stream.upstreamOpened r2.2 = Stream.upstreamOpened r1.2).
  { unfold r2, Stream.subscribeSmartMoneyTrades.
    destruct (Stream.activeSubscription r1.2) as [up|] eqn:E; [|contradiction]. simpl.
    split_and!; try reflexivity.
    rewrite Hh1. unfold Stream.handlers_add at 1.
    by rewrite handlers_add_registered. }
  destruct Hr2 as (H1 & H2 & H3). split_and!; [exact H1 | exact H2 | exact H3 | | | ].
  - rewrite <- Hsub1. apply unsubscribe_post.
  - destruct r1 as [s1 ?], r2 as [s2 ?]. simpl in *.
    destruct s1 as [i1 o1], s2 as [i2 o2]. simpl in *. subst o1 o2.
    apply (unsubscribe_idempotent {| Stream.id := i2; Stream.onTrade := Stream.handlerId h |}).
  - destruct r1 as [s1 ?], r2 as [s2 ?]. simpl in *.
    destruct s1 as [i1 o1], s2 as [i2 o2]. simpl in *. subst o1 o2.
    apply (unsubscribe_idempotent {| Stream.id := i1; Stream.onTrade := Stream.handlerId h |}).
Qed.

(** X8: subscribing a new function and unsubscribing it again.  In a
    state the service can be in, the handler set, the open upstream
    subscription and the cache are as before; if no function was
    registered, one upstream subscription was opened and closed again,
    otherwise none was touched. *)
Theorem subscribe_then_unsubscribe config (ops : list (StreamRun.Op World)) h options now :
  let svc := StreamRun.run config ops in
  let r := Stream.subscribeSmartMoneyTrades config h options now svc in
  let svc' := Stream.unsubscribe r.1 r.2 in
  Stream.registered (Stream.handlerId h) (Stream.tradeHandlers svc) = false ->
  Stream.tradeHandlers svc' = Stream.tradeHandlers svc
  /\ Stream.activeSubscription svc' = Stream.activeSubscription svc
  /\ Stream.cache svc' = Stream.cache svc
  /\ match Stream.tradeHandlers svc with
     | [] =>
         Stream.upstreamOpened svc' = S (Stream.upstreamOpened svc)
         /\ Stream.upstreamClosed svc'
            = Stream.upstreamClosed svc ++ [Stream.upstreamOpened svc]
     | _ :: _ =>
         Stream.upstreamOpened svc' = Stream.upstreamOpened svc
         /\ Stream.upstreamClosed svc' = Stream.upstreamClosed svc
     end.
Proof.
  intros svc r svc' Hreg.
  destruct (run_wellFormed config ops) as (Hact & _ & _ & Hup).
  fold svc in Hact, Hup.
  unfold svc', r, Stream.subscribeSmartMoneyTrades, Stream.unsubscribe.
  destruct (Stream.activeSubscription svc) as [up|] eqn:Eup; simpl;
    rewrite (handlers_delete_add h _ Hreg).
  - destruct (Stream.tradeHandlers svc) as [|h0 hs0] eqn:Ehs; simpl.
    + destruct Hact as [_ Hact]. specialize (Hact eq_refl). congruence.
    + done.
  - destruct Hact as [Hact _]. rewrite (Hact eq_refl). simpl. done.
Qed.

End StreamRunFacts.

Lemma subscribe_then_unsubscribe_witness :
  let r := Stream.subscribeSmartMoneyTrades defaultConfig (Sample.recorder 1) noOptions 1000
             Stream.init in
  Stream.tradeHandlers (Stream.unsubscribe r.1 r.2) = [].
Proof.
  refine (proj1 (subscribe_then_unsubscribe defaultConfig [] (Sample.recorder 1) noOptions
                   1000 _)).
  reflexivity.
Defined.

(** ** Invariants of the sessions' world *)

Section Invariants.
Import AutoCopy.
Variable I : loc -> AutoCopyTradingStats -> Prop.
Variable K : Suspended -> Prop.
Variable J : Effect -> Prop.
Variable j0 : list Effect.
Hypothesis I_detected : forall l s, I l s -> I l (detected s).
Hypothesis I_skipped : forall l s, I l s -> I l (skipped s).
Hypothesis I_failed : forall l s, I l s -> I l (failed s).
Hypothesis I_executed : forall k s,
  K k -> I (stats (owner k)) s -> I (stats (owner k)) (executed (parkedValue k) s).
Hypothesis K_order : forall c trade copySize copyValue tokenId,
  K (AwaitDelay c trade copySize copyValue) -> dryRun c = false ->
  K (AwaitOrder c trade copyValue)
  /\ J (CreateMarketOrder (stats c)
          {| mo_tokenId := tokenId; mo_side := t_side trade; mo_amount := copyValue;
             mo_price := slippagePrice c trade; mo_orderType := orderType c |}).
Hypothesis J_other : forall eff, Limits.noOrder eff -> J eff.

Lemma holds_modify l f w :
  (forall s, I l s -> I l (f s)) ->
  Limits.holds I K J j0 w -> Limits.holds I K J j0 (modify l f w).
Proof using All.
  intros Hf (Hheap & Hk & Hj). split_and!; [|exact Hk|exact Hj].
  intros l' s. simpl. rewrite lookup_alter. case_decide as Hl.
  - subst l'. destruct (heap w !! l) as [s0|] eqn:E; simpl; [|discriminate].
    intros [= <-]. apply Hf, (Hheap l s0 E).
  - apply Hheap.
Qed.

Lemma holds_emit eff w :
  J eff -> Limits.holds I K J j0 w -> Limits.holds I K J j0 (emit eff w).
Proof using All.
  intros Heff (Hheap & Hk & j & Hj & HJ). split_and!; [exact Hheap|exact Hk|].
  exists (j ++ [eff]). simpl. rewrite Hj, app_assoc. split; [reflexivity|].
  apply Forall_app. split; [exact HJ|]. by constructor.
Qed.

Lemma holds_suspend k w :
  K k -> Limits.holds I K J j0 w -> Limits.holds I K J j0 (suspend k w).
Proof using All.
  intros Hk (Hheap & Hks & Hj). split_and!; [exact Hheap| |exact Hj].
  simpl. apply Forall_app. split; [exact Hks|]. by constructor.
Qed.

Lemma holds_resume i w :
  Limits.holds I K J j0 w -> Limits.holds I K J j0 (resume i w).
Proof using All.
  intros (Hheap & Hks & Hj). split_and!; [exact Hheap| |exact Hj].
  simpl. by apply Forall_delete.
Qed.

Lemma holds_catchBlock c w :
  Limits.holds I K J j0 w -> Limits.holds I K J j0 (catchBlock c w).
Proof using All.
  intros H. unfold catchBlock.
  pose proof (holds_modify (stats c) failed w (I_failed _) H) as H1.
  destruct (onError c) as [[]|]; [| |exact H1].
  - apply holds_emit; [by apply J_other | exact H1].
  - apply holds_emit; [by apply J_other|]. apply holds_emit; [by apply J_other | exact H1].
Qed.

Lemma holds_settle c trade v r w :
  (forall s, I (stats c) s -> I (stats c) (executed v s)) ->
  Limits.holds I K J j0 w -> Limits.holds I K J j0 (settle c trade v r w).
Proof using All.
  intros Hexec H. unfold settle.
  assert (H1 : Limits.holds I K J j0
                 (if success r then modify (stats c) (executed v) w
                  else modify (stats c) failed w)).
  { destruct (success r); apply holds_modify; auto. }
  destruct (onTrade c) as [callback|]; [|exact H1].
  destruct (callback trade r).
  - apply holds_emit; [by apply J_other | exact H1].
  - apply holds_catchBlock, holds_emit; [by apply J_other | exact H1].
Qed.

Lemma holds_afterDelay c trade copySize copyValue w :
  K (AwaitDelay c trade copySize copyValue) ->
  Limits.holds I K J j0 w -> Limits.holds I K J j0 (afterDelay c trade copySize copyValue w).
Proof using All.
  intros Hk H. unfold afterDelay.
  destruct (Stream.truthyString (t_tokenId trade)) as [tokenId|].
  - destruct (dryRun c) eqn:Edry.
    + apply holds_settle.
      * intros s. apply (I_executed (AwaitDelay c trade copySize copyValue) s Hk).
      * apply holds_emit; [by apply J_other | exact H].
    + destruct (K_order c trade copySize copyValue tokenId Hk Edry) as [Hk' Hj].
      apply holds_suspend; [exact Hk'|]. by apply holds_emit.
  - apply holds_modify; auto.
Qed.

Lemma holds_handler c trade w :
  Limits.admits K (Trade c trade) ->
  Limits.holds I K J j0 w -> Limits.holds I K J j0 (handler c trade w).
Proof using All.
  intros Hadm H. unfold handler.
  pose proof (holds_modify (stats c) detected w (I_detected _) H) as H1.
  pose proof (holds_modify (stats c) skipped _ (I_skipped _) H1) as H2.
  destruct (negb (includes (targetAddresses c) (toLowerCase (t_traderAddress trade))));
    [exact H1|].
  destruct (Qltb (t_size trade * t_price trade) (minTradeSize c)); [exact H2|].
  destruct (match sideFilter c with
            | Some side => negb (bool_decide (t_side trade = side))
            | None => false end); [exact H2|].
  simpl in Hadm. destruct (sizing c trade) as [copySize copyValue]. simpl in Hadm.
  destruct (Qltb copyValue MIN_ORDER_SIZE) eqn:Emin; [exact H2|].
  apply Qltb_ge in Emin. specialize (Hadm Emin).
  destruct (0 <? delay c)%Z.
  - by apply holds_suspend.
  - by apply holds_afterDelay.
Qed.

Lemma holds_step w e :
  Limits.admits K e ->
  Limits.holds I K J j0 w -> Limits.holds I K J j0 (step w e).
Proof using All.
  intros Hadm H. destruct e as [now|c trade|i|i reply]; simpl.
  - exact H.
  - by apply holds_handler.
  - unfold timerFires. destruct (inflight w !! i) as [[c trade copySize copyValue|]|] eqn:E;
      try exact H.
    apply holds_afterDelay; [|by apply holds_resume].
    destruct H as (_ & Hk & _). rewrite Forall_forall in Hk. apply Hk.
    by eapply list_elem_of_lookup_2.
  - unfold orderSettles. destruct (inflight w !! i) as [[|c trade v]|] eqn:E; try exact H.
    destruct reply as [r|].
    + apply holds_settle; [|by apply holds_resume].
      intros s. apply (I_executed (AwaitOrder c trade v) s).
      destruct H as (_ & Hk & _). rewrite Forall_forall in Hk. apply Hk.
      by eapply list_elem_of_lookup_2.
    + by apply holds_catchBlock, holds_resume.
Qed.

Lemma holds_run es w :
  Forall (Limits.admits K) es ->
  Limits.holds I K J j0 w -> Limits.holds I K J j0 (run es w).
Proof using All.
  unfold run. revert w. induction es as [|e r IH]; intros w Hes H; simpl; [exact H|].
  inversion Hes; subst. apply IH; [assumption|]. by apply holds_step.
Qed.

End Invariants.

(** ** Limits of the copies *)

Section LimitFacts.
Import AutoCopy.
Implicit Types (c : Session) (w : World) (s : AutoCopyTradingStats).

Lemma sizing_capped c trade : ((sizing c trade).2 <= maxSizePerTrade c)%Q.
Proof.
  unfold sizing.
  destruct (Qltb (maxSizePerTrade c) (t_size trade * sizeScale c * t_price trade)) eqn:E;
    simpl; [apply Qle_refl | by apply Qltb_ge].
Qed.

Lemma eventWithin_admits cap e :
  Limits.eventWithin cap e -> Limits.admits (Limits.parkedWithin cap) e.
Proof.
  destruct e as [|c trade| |]; simpl; try done.
  intros Hcap Hmin. split; simpl; [exact Hmin|].
  eapply Qle_trans; [apply sizing_capped | exact Hcap].
Qed.

Lemma parkedWithin_order cap c trade copySize copyValue tokenId :
  Limits.parkedWithin cap (AwaitDelay c trade copySize copyValue) -> dryRun c = false ->
  Limits.parkedWithin cap (AwaitOrder c trade copyValue)
  /\ Limits.effectWithin cap
       (CreateMarketOrder (stats c)
          {| mo_tokenId := tokenId; mo_side := t_side trade; mo_amount := copyValue;
             mo_price := slippagePrice c trade; mo_orderType := orderType c |}).
Proof. intros [H1 H2] _. simpl in *. by split_and!. Qed.


Lemma noOrder_backendCalls (j : list Effect) :
  Forall Limits.noOrder j -> backendCalls j = [].
Proof.
  induction 1 as [|eff j Heff _ IH]; [reflexivity|].
  unfold backendCalls in *. destruct eff; simpl in *; try exact IH. contradiction.
Qed.

Lemma effectWithin_other cap eff : Limits.noOrder eff -> Limits.effectWithin cap eff.
Proof. by destruct eff. Qed.

End LimitFacts.

(** A comparison that fails between two binary64 numbers, neither of
    them [NaN], holds the other way round. *)
Lemma binary64_not_ltb (x y : float) :
  is_nan x = false -> is_nan y = false -> (x <? y)%float = false ->
  (y <=? x)%float = true.
Proof.
  unfold is_nan. rewrite !FloatAxioms.eqb_spec, FloatAxioms.ltb_spec, FloatAxioms.leb_spec.
  unfold SFeqb, SFltb, SFleb.
  destruct (Prim2SF x) as [sx|sx| |sx mx ex], (Prim2SF y) as [sy|sy| |sy my ey];
    simpl; try discriminate; try reflexivity;
    try (destruct sx; simpl; try discriminate; reflexivity);
    try (destruct sy; simpl; try discriminate; reflexivity);
    try (destruct sx, sy; simpl; try discriminate; reflexivity).
  intros _ _.
  change (Pos.compare_cont Eq mx my) with (Pos.compare mx my).
  change (Pos.compare_cont Eq my mx) with (Pos.compare my mx).
  rewrite (Z.compare_antisym ex ey), (Pos.compare_antisym mx my).
  destruct sx, sy; simpl; try discriminate; try reflexivity;
    destruct (ex ?= ey)%Z; simpl; try discriminate; try reflexivity;
    destruct (mx ?= my)%positive; simpl; try discriminate; reflexivity.
Qed.

(** X9: every order is within the limits, for sizes and prices that are
    numbers.  Numbers read as rationals: give each session a limit at least
    its [maxSizePerTrade]; over any run of trades, timers and backend
    answers, an order handed to [createMarketOrder] is for at least the
    minimum order size and at most the limit of its session, provided the
    invocations parked at the start were within these bounds; those parked
    at the end are again.  On binary64 numbers: the guards of the handler
    let an amount through only if it compares neither below 1 nor above
    [maxSizePerTrade], so an amount that is a number lies between 1 and a
    [maxSizePerTrade] that is a number; a size that is [NaN] passes every
    guard, and the amount of its order is [NaN]. *)
Theorem orders_within_limits (cap : AutoCopy.loc -> Q) (es : list AutoCopy.Event)
    (w : AutoCopy.World) :
  Forall (Limits.parkedWithin cap) (AutoCopy.inflight w) ->
  Forall (Limits.eventWithin cap) es ->
  (Forall (Limits.parkedWithin cap) (AutoCopy.inflight (AutoCopy.run es w))
   /\ exists j,
        AutoCopy.journal (AutoCopy.run es w) = AutoCopy.journal w ++ j
        /\ Forall (Limits.effectWithin cap) j)
  /\ (forall size price sizeScale maxSizePerTrade minTradeSize amount : float,
        AutoCopy.amount64 size price sizeScale maxSizePerTrade minTradeSize = Some amount ->
        (amount <? 1)%float = false
        /\ (maxSizePerTrade <? amount)%float = false
        /\ (is_nan amount = false -> (1 <=? amount)%float = true)
        /\ (is_nan amount = false -> is_nan maxSizePerTrade = false ->
            (amount <=? maxSizePerTrade)%float = true))
  /\ AutoCopy.amount64 nan 0.5 0.25 50 10 = Some nan.
Proof.
  intros Hparked Hes. split; [|split; [|reflexivity]].
  - assert (H : Limits.holds (fun _ _ => True) (Limits.parkedWithin cap)
                  (Limits.effectWithin cap) (AutoCopy.journal w) (AutoCopy.run es w)).
    { refine (holds_run _ _ _ _ _ _ _ _ (parkedWithin_order cap) (effectWithin_other cap)
                es w _ _); try done.
      - eapply Forall_impl; [exact Hes | apply eventWithin_admits].
      - split_and!; [done | exact Hparked |]. exists []. by rewrite app_nil_r. }
    destruct H as (_ & Hk & Hj). by split.
  - intros size price sizeScale maxSizePerTrade minTradeSize amount.
    unfold AutoCopy.amount64.
    destruct (size * price <? minTradeSize)%float; [discriminate|].
    pose proof (replica_notional_clamped_binary64 size sizeScale price maxSizePerTrade)
      as Hcap.
    destruct (AutoCopy.sizing64 size sizeScale price maxSizePerTrade)
      as [copySize copyValue]. simpl in Hcap.
    destruct (copyValue <? 1)%float eqn:Emin; [discriminate|].
    intros [= <-]. split_and!; [exact Emin | exact Hcap | |].
    + intros Hnum. by apply binary64_not_ltb.
    + intros Hnum Hmax. by apply binary64_not_ltb.
Qed.

Lemma orders_within_limits_witness :
  exists j,
    AutoCopy.journal
      (AutoCopy.run [AutoCopy.Trade (Sample.session false None 0) Sample.aliceBuysBig]
         AutoCopy.emptyWorld) = [] ++ j
    /\ Forall (Limits.effectWithin (fun _ => 50%Q)) j.
Proof.
  refine (proj2 (proj1 (orders_within_limits (fun _ => 50%Q)
            [AutoCopy.Trade (Sample.session false None 0) Sample.aliceBuysBig]
            AutoCopy.emptyWorld _ _))).
  - constructor.
  - constructor; [|constructor]. simpl. apply Qle_refl.
Defined.


(** X11: dry-run sessions never reach the backend.  If every session that
    gets a trade is a dry run, and so is every invocation parked at the
    start, then over any run of events no order is handed to
    [createMarketOrder] and no invocation ever waits for the backend. *)
Theorem dry_runs_never_order (es : list AutoCopy.Event) (w : AutoCopy.World) :
  Forall Limits.dryParked (AutoCopy.inflight w) ->
  Forall Limits.dryEvent es ->
  AutoCopy.backendCalls (AutoCopy.journal (AutoCopy.run es w))
  = AutoCopy.backendCalls (AutoCopy.journal w)
  /\ Forall Limits.dryParked (AutoCopy.inflight (AutoCopy.run es w)).
Proof.
  intros Hparked Hes.
  assert (H : Limits.holds (fun _ _ => True) Limits.dryParked Limits.noOrder
                (AutoCopy.journal w) (AutoCopy.run es w)).
  { refine (holds_run _ _ _ _ _ _ _ _ _ _ es w _ _); try done.
    - intros c trade copySize copyValue tokenId Hdry Hlive. simpl in Hdry. congruence.
    - eapply Forall_impl; [exact Hes|]. intros [|c trade| |]; simpl; try done.
    - split_and!; [done | exact Hparked |]. exists []. by rewrite app_nil_r. }
  destruct H as (_ & Hk & j & Hj & HJ). split; [|exact Hk].
  by rewrite Hj, backendCalls_app, (noOrder_backendCalls j HJ), app_nil_r.
Qed.

Lemma dry_runs_never_order_witness :
  AutoCopy.backendCalls
    (AutoCopy.journal
       (AutoCopy.run [AutoCopy.Trade (Sample.session true None 0) Sample.aliceBuys]
          AutoCopy.emptyWorld))
  = AutoCopy.backendCalls (AutoCopy.journal AutoCopy.emptyWorld).
Proof.
  refine (proj1 (dry_runs_never_order
            [AutoCopy.Trade (Sample.session true None 0) Sample.aliceBuys]
            AutoCopy.emptyWorld _ _)).
  - constructor.
  - constructor; [reflexivity | constructor].
Defined.


(** ** Starting and stopping a session *)

Section StartFacts.
Import AutoCopy.

Lemma dedupe_fold (seen l : list string) :
  NoDup seen ->
  let r := foldl (fun seen x => if includes seen x then seen else seen ++ [x]) seen l in
  NoDup r /\ (forall x, x ∈ r <-> x ∈ seen \/ x ∈ l) /\ exists rest, r = seen ++ rest.
Proof.
  revert seen. induction l as [|y l IH]; intros seen Hnd; simpl.
  - split_and!; [exact Hnd | | exists []; by rewrite app_nil_r].
    intros x. rewrite elem_of_nil. tauto.
  - destruct (includes seen y) eqn:Hy; unfold includes in Hy;
      [apply bool_decide_eq_true in Hy | apply bool_decide_eq_false in Hy].
    + destruct (IH seen Hnd) as (H1 & H2 & H3). split_and!; [exact H1 | | exact H3].
      intros x. rewrite H2, elem_of_cons. split; [tauto|].
      intros [?|[->|?]]; tauto.
    + assert (Hnd' : NoDup (seen ++ [y])).
      { apply NoDup_app. split_and!; [exact Hnd | | apply NoDup_singleton].
        intros x Hx Hx'. apply list_elem_of_singleton in Hx'. by subst x. }
      destruct (IH (seen ++ [y]) Hnd') as (H1 & H2 & rest & H3).
      split_and!; [exact H1 | | exists (y :: rest); by rewrite H3, <- app_assoc].
      intros x. rewrite H2, elem_of_app, list_elem_of_singleton, elem_of_cons. tauto.
Qed.

(** [[...new Set(l)]]: no duplicates, the elements of [l], and the order
    of their first occurrences. *)
Lemma dedupe_spec (l : list string) :
  NoDup (dedupe l) /\ (forall x, x ∈ dedupe l <-> x ∈ l).
Proof.
  destruct (dedupe_fold [] l (NoDup_nil_2)) as (H1 & H2 & _). split; [exact H1|].
  intros x. unfold dedupe. rewrite H2, elem_of_nil. tauto.
Qed.

Lemma selected_lower config i entries :
  Forall (fun w => toLowerCase (w_address w) = w_address w) (Cache.selected config i entries).
Proof.
  revert i. induction entries as [|e r IH]; intros i; simpl; [constructor|].
  destruct (Cache.qualifies config e); [|apply IH].
  constructor; [apply toLowerCase_idempotent | apply IH].
Qed.

Lemma getSmartMoneyList_lower config limit now provider now' st l :
  CacheRun.coherent st ->
  Cache.result (Cache.getSmartMoneyList config limit now provider now' st) = Some l ->
  Forall (fun w => toLowerCase (w_address w) = w_address w) l.
Proof.
  intros [_ Hkeys]. unfold Cache.getSmartMoneyList.
  destruct (Cache.isCacheValid config now st).
  - simpl. intros [= <-]. unfold JsMap.values. apply Forall_fmap.
    eapply Forall_impl; [exact Hkeys|]. intros [k w] [H1 H2]. simpl in *. by rewrite <- H1.
  - destruct (provider 0%nat limit) as [entries|]; [|discriminate].
    pose proof (refresh_spec config entries now' st) as (H1 & _).
    destruct (Cache.refresh config entries now' st) as [l0 st']. simpl in *.
    intros [= <-]. rewrite H1. apply selected_lower.
Qed.

Lemma lower_fixed (l : list string) :
  Forall (fun a => toLowerCase a = a) l -> toLowerCase <$> l = l.
Proof. induction 1 as [|a l Ha _ IH]; [reflexivity|]. rewrite fmap_cons. by rewrite Ha, IH. Qed.

End StartFacts.

(** X12: a start that is rejected leaves no trace.  When
    [startAutoCopyTrading] rejects (the leaderboard failed, or no target
    address came out) no function has been registered, no upstream
    subscription opened or closed, no stats object created and nothing
    parked or done to the outside; without [topN] the engine is exactly as
    before and the explicit target list was missing or empty. *)
Theorem rejected_start_leaves_no_trace config options provider now'
    (e e' : AutoCopy.Engine) :
  AutoCopy.startAutoCopyTrading config options provider now' e = (None, e') ->
  Stream.tradeHandlers e'.1 = Stream.tradeHandlers e.1
  /\ Stream.activeSubscription e'.1 = Stream.activeSubscription e.1
  /\ Stream.upstreamOpened e'.1 = Stream.upstreamOpened e.1
  /\ Stream.upstreamClosed e'.1 = Stream.upstreamClosed e.1
  /\ AutoCopy.heap e'.2 = AutoCopy.heap e.2
  /\ AutoCopy.inflight e'.2 = AutoCopy.inflight e.2
  /\ AutoCopy.journal e'.2 = AutoCopy.journal e.2
  /\ match o_topN options with
     | Some (S _) => True
     | _ => e' = e
            /\ (o_targetAddresses options = None \/ o_targetAddresses options = Some [])
     end.
Proof.
  destruct e as [svc w]. unfold AutoCopy.startAutoCopyTrading.
  destruct (o_topN options) as [[|n]|].
  1, 3: destruct (o_targetAddresses options) as [[|a l]|]; simpl;
    [ intros [= <-]; split_and!; auto
    | destruct (Stream.subscribeSmartMoneyTrades _ _ _ _ _); discriminate
    | intros [= <-]; split_and!; auto ].
  set (r := Cache.getSmartMoneyList config (S n) (AutoCopy.clock w) provider now'
              (Stream.cache svc)).
  destruct (Cache.result r) as [smartMoneyList|].
  - destruct (AutoCopy.dedupe _) as [|a l].
    + intros [= <-]. by split_and!.
    + destruct (Stream.subscribeSmartMoneyTrades _ _ _ _ _). discriminate.
  - intros [= <-]. by split_and!.
Qed.

Lemma rejected_start_leaves_no_trace_witness :
  AutoCopy.startAutoCopyTrading defaultConfig
    {| o_targetAddresses := Some []; o_topN := None; o_sizeScale := None;
       o_maxSizePerTrade := None; o_maxSlippage := None; o_orderType := None;
       o_delay := None; o_minTradeSize := None; o_sideFilter := None;
       o_dryRun := None; o_onTrade := None; o_onError := None |}
    (Sample.board []) 0 Sample.newEngine = (None, Sample.newEngine)
  /\ Stream.tradeHandlers Sample.newEngine.1 = Stream.tradeHandlers Sample.newEngine.1.
Proof.
  split; [reflexivity|].
  refine (proj1 (rejected_start_leaves_no_trace defaultConfig
    {| o_targetAddresses := Some []; o_topN := None; o_sizeScale := None;
       o_maxSizePerTrade := None; o_maxSlippage := None; o_orderType := None;
       o_delay := None; o_minTradeSize := None; o_sideFilter := None;
       o_dryRun := None; o_onTrade := None; o_onError := None |}
    (Sample.board []) 0 Sample.newEngine Sample.newEngine _)).
  reflexivity.
Defined.

(** X13: the targets of a started session.  The list is not empty and
    holds every explicit target in lower case.  With [topN] it has no
    duplicates and holds exactly the explicit targets and the addresses of
    the wallets [getSmartMoneyList] returned; without, it is the explicit
    list in lower case, duplicates kept.  On a cache in one of its reachable
    states every target is in lower case. *)
Theorem session_targets config options provider now' (e e' : AutoCopy.Engine)
    (sub : AutoCopy.AutoCopyTradingSubscription) :
  AutoCopy.startAutoCopyTrading config options provider now' e = (Some sub, e') ->
  let explicit := toLowerCase <$> default [] (o_targetAddresses options) in
  AutoCopy.s_targetAddresses sub <> []
  /\ (forall a, a ∈ explicit -> a ∈ AutoCopy.s_targetAddresses sub)
  /\ match o_topN options with
     | Some (S n) =>
         NoDup (AutoCopy.s_targetAddresses sub)
         /\ exists smartMoneyList,
              Cache.result (Cache.getSmartMoneyList config (S n) (AutoCopy.clock e.2)
                              provider now' (Stream.cache e.1)) = Some smartMoneyList
              /\ forall a, a ∈ AutoCopy.s_targetAddresses sub
                           <-> a ∈ explicit \/ a ∈ w_address <$> smartMoneyList
     | _ => AutoCopy.s_targetAddresses sub = explicit
     end
  /\ (CacheRun.coherent (Stream.cache e.1) ->
      toLowerCase <$> AutoCopy.s_targetAddresses sub = AutoCopy.s_targetAddresses sub).
Proof.
  destruct e as [svc w]. unfold AutoCopy.startAutoCopyTrading.
  assert (Hexplicit : match o_targetAddresses options with
                      | Some (a :: l) => toLowerCase <$> (a :: l)
                      | _ => []
                      end = toLowerCase <$> default [] (o_targetAddresses options)).
  { by destruct (o_targetAddresses options) as [[|a l]|]. }
  rewrite Hexplicit. clear Hexplicit.
  set (explicit := toLowerCase <$> default [] (o_targetAddresses options)).
  assert (Hlow : toLowerCase <$> explicit = explicit).
  { unfold explicit. rewrite <- list_fmap_compose. apply list_fmap_ext.
    intros i x _. apply toLowerCase_idempotent. }
  simpl.
  destruct (o_topN options) as [[|n]|].
  1, 3: destruct explicit as [|a l] eqn:E; [discriminate|];
    destruct (Stream.subscribeSmartMoneyTrades _ _ _ _ _); intros [= <- <-]; simpl;
    split_and!; auto; discriminate.
  set (r := Cache.getSmartMoneyList config (S n) (AutoCopy.clock w) provider now'
              (Stream.cache svc)).
  destruct (Cache.result r) as [smartMoneyList|] eqn:Er; [|discriminate].
  destruct (dedupe_spec (explicit ++ (w_address <$> smartMoneyList))) as [Hnd Hin].
  destruct (AutoCopy.dedupe (explicit ++ (w_address <$> smartMoneyList)))
    as [|a l] eqn:E; [discriminate|].
  destruct (Stream.subscribeSmartMoneyTrades _ _ _ _ _); intros [= <- <-]; simpl.
  split_and!.
  - discriminate.
  - intros x Hx. apply Hin, elem_of_app. by left.
  - exact Hnd.
  - exists smartMoneyList. split; [reflexivity|].
    intros x. by rewrite Hin, elem_of_app.
  - intros Hcoh.
    pose proof (getSmartMoneyList_lower config (S n) (AutoCopy.clock w) provider now'
                  (Stream.cache svc) smartMoneyList Hcoh Er) as Hl.
    change (toLowerCase <$> (a :: l) = a :: l).
    apply lower_fixed, Forall_forall. intros y Hy'.
    apply Hin, elem_of_app in Hy'. destruct Hy' as [Hy'|Hy'].
    + rewrite <- Hlow in Hy'. apply list_elem_of_fmap in Hy'.
      destruct Hy' as (z & -> & _). apply toLowerCase_idempotent.
    + apply list_elem_of_fmap in Hy'. destruct Hy' as (z & -> & Hz).
      rewrite Forall_forall in Hl. by apply Hl.
Qed.

Lemma session_targets_witness :
  AutoCopy.s_targetAddresses Sample.startedSubscription <> [].
Proof.
  refine (proj1 (session_targets defaultConfig (Sample.followAlice true None None)
                   (Sample.board []) 0 Sample.newEngine Sample.started.2
                   Sample.startedSubscription _)).
  vm_compute. reflexivity.
Defined.

(** X14: [stop] cancels nothing in flight.  A copy that waits for its
    delay when the session is stopped still goes out: when its timer fires
    the order is handed to [createMarketOrder] with the amount and limit
    price computed when the trade arrived, and the invocation then waits
    for the backend. *)
Theorem stop_cancels_nothing_in_flight (sub : AutoCopy.AutoCopyTradingSubscription)
    (svc : Stream.t AutoCopy.World) (c : AutoCopy.Session) (trade : SmartMoneyTrade)
    (w : AutoCopy.World) (tokenId : string) :
  AutoCopy.qualifying c trade = true ->
  (0 < AutoCopy.delay c)%Z ->
  AutoCopy.dryRun c = false ->
  Stream.truthyString (t_tokenId trade) = Some tokenId ->
  let e := AutoCopy.stop sub (svc, AutoCopy.handler c trade w) in
  let w' := AutoCopy.timerFires (length (AutoCopy.inflight w)) e.2 in
  Stream.registered (Stream.onTrade (AutoCopy.s_subscription sub))
    (Stream.tradeHandlers e.1) = false
  /\ AutoCopy.journal w'
     = AutoCopy.journal w
       ++ [AutoCopy.CreateMarketOrder (AutoCopy.stats c)
             {| mo_tokenId := tokenId; mo_side := t_side trade;
                mo_amount := (AutoCopy.sizing c trade).2;
                mo_price := AutoCopy.slippagePrice c trade;
                mo_orderType := AutoCopy.orderType c |}]
  /\ AutoCopy.inflight w'
     = AutoCopy.inflight w
       ++ [AutoCopy.AwaitOrder c trade (AutoCopy.sizing c trade).2].
Proof.
  intros Hq Hdelay Hlive Htoken e w'.
  split; [apply unsubscribe_post|].
  destruct (handler_qualifying c trade w Hq) as [_ Hh].
  apply Z.ltb_lt in Hdelay. rewrite Hdelay in Hh.
  unfold w', e, AutoCopy.stop. simpl. rewrite Hh.
  unfold AutoCopy.timerFires. simpl.
  rewrite list_lookup_middle by reflexivity.
  unfold AutoCopy.afterDelay. rewrite Htoken, Hlive. simpl.
  rewrite delete_middle. by rewrite app_nil_r.
Qed.

Lemma stop_cancels_nothing_in_flight_witness :
  AutoCopy.inflight
    (AutoCopy.timerFires 0
       (AutoCopy.stop Sample.startedSubscription
          (Sample.started.2.1,
           AutoCopy.handler (Sample.session false None 500) Sample.aliceBuys
             AutoCopy.emptyWorld)).2)
  = [AutoCopy.AwaitOrder (Sample.session false None 500) Sample.aliceBuys
       (AutoCopy.sizing (Sample.session false None 500) Sample.aliceBuys).2].
Proof.
  refine (proj2 (proj2 (stop_cancels_nothing_in_flight Sample.startedSubscription
            Sample.started.2.1 (Sample.session false None 500) Sample.aliceBuys
            AutoCopy.emptyWorld "token-1" _ _ _ _))); reflexivity.
Defined.

(** X15: the stream filter of a session drops no copy.  The options
    [startAutoCopyTrading] opens the stream with (the targets as address
    filter, [minTradeSize] as minimum size) let through every event whose
    trade the handler of the session would copy, for targets in lower case, a
    size that is not negative and a price between 0 and 1. *)
Theorem session_filter_drops_no_copy (c : AutoCopy.Session) (cache : Cache.t)
    (activity : ActivityTrade) (trade : SmartMoneyTrade) :
  toLowerCase <$> AutoCopy.targetAddresses c = AutoCopy.targetAddresses c ->
  (0 <= a_size activity)%Q ->
  (0 <= a_price activity)%Q -> (a_price activity <= 1)%Q ->
  Stream.normalize noOptions cache activity = Some trade ->
  AutoCopy.qualifying c trade = true ->
  Stream.normalize
    {| filterAddresses := Some (AutoCopy.targetAddresses c);
       minSize := Some (AutoCopy.minTradeSize c);
       smartMoneyOnly := None |} cache activity = Some trade.
Proof.
  intros Hlow Hsize Hp0 Hp1 Hnone Hq. unfold Stream.normalize in *.
  destruct (Stream.truthyString (a_trader activity ≫= tr_address)) as [rawAddress|];
    [|discriminate].
  simpl in Hnone. injection Hnone as <-.
  unfold AutoCopy.qualifying in Hq. cbn [t_traderAddress t_size t_price] in Hq.
  rewrite toLowerCase_idempotent, !andb_true_iff, !negb_true_iff in Hq.
  destruct Hq as ((((Htarget & Hvalue) & _) & _) & _).
  cbn [filterAddresses minSize smartMoneyOnly].
  assert (Hfilter : match AutoCopy.targetAddresses c with
                    | a :: l => negb (includes (toLowerCase <$> (a :: l))
                                        (toLowerCase rawAddress))
                    | [] => false
                    end = false).
  { destruct (AutoCopy.targetAddresses c) as [|a l] eqn:Etargets; [reflexivity|].
    rewrite Hlow, Htarget. reflexivity. }
  rewrite Hfilter.
  assert (Hmin : match Stream.truthyNumber (Some (AutoCopy.minTradeSize c)) with
                 | Some m => Qltb (a_size activity) m
                 | None => false
                 end = false).
  { simpl. destruct (Qeq_bool (AutoCopy.minTradeSize c) 0); [reflexivity|].
    apply Qltb_ge. apply Qltb_ge in Hvalue. nra. }
  rewrite Hmin. reflexivity.
Qed.

Lemma session_filter_drops_no_copy_witness :
  is_Some
    (Stream.normalize
       {| filterAddresses := Some (AutoCopy.targetAddresses (Sample.session true None 0));
          minSize := Some (AutoCopy.minTradeSize (Sample.session true None 0));
          smartMoneyOnly := None |} Cache.empty (Sample.activity "0xAAA")).
Proof.
  eexists.
  refine (session_filter_drops_no_copy (Sample.session true None 0) Cache.empty
            (Sample.activity "0xAAA") _ _ _ _ _ _ _).
  - reflexivity.
  - vm_compute. discriminate.
  - vm_compute. discriminate.
  - vm_compute. discriminate.
  - reflexivity.
  - reflexivity.
Defined.

(** ** Market categories *)

Section RegExpFacts.

Lemma lower_upper_ascii (c : ascii) :
  lower_ascii c = c -> lower_ascii (RegExp.upper_ascii c) = c.
Proof.
  destruct c as [[] [] [] [] [] [] [] []]; vm_compute; intros H;
    first [reflexivity | discriminate H].
Qed.

Lemma isWordChar_lower (c : ascii) : RegExp.isWordChar (lower_ascii c) = RegExp.isWordChar c.
Proof. destruct c as [[] [] [] [] [] [] [] []]; reflexivity. Qed.

(** On characters that are not capital letters the [i] flag changes
    nothing. *)
Lemma matchChar_lower (p c : ascii) :
  lower_ascii p = p -> lower_ascii c = c ->
  RegExp.matchChar true p c = RegExp.matchChar false p c.
Proof.
  intros Hp Hc. unfold RegExp.matchChar.
  destruct (Ascii.eqb_spec p c) as [->|Hne]; [apply Ascii.eqb_refl|].
  apply Ascii.eqb_neq. intros E. apply Hne.
  by rewrite <- (lower_upper_ascii p Hp), <- (lower_upper_ascii c Hc), E.
Qed.

Lemma toLowerCase_cons (c : ascii) (s : string) :
  toLowerCase (String c s) = String c s -> lower_ascii c = c /\ toLowerCase s = s.
Proof. simpl. intros [= H1 H2]. by split. Qed.

Lemma matchPrefix_lower (p : string) (prev : option ascii) (s : string) :
  toLowerCase p = p -> toLowerCase s = s ->
  RegExp.matchPrefix true p prev s = RegExp.matchPrefix false p prev s.
Proof.
  revert prev s. induction p as [|a p IH]; intros prev s Hp Hs; [reflexivity|].
  destruct s as [|c s]; [reflexivity|].
  apply toLowerCase_cons in Hp as [Ha Hp]. apply toLowerCase_cons in Hs as [Hc Hs].
  cbn [RegExp.matchPrefix]. rewrite (matchChar_lower a c Ha Hc).
  destruct (RegExp.matchChar false a c); [by apply IH | reflexivity].
Qed.

Lemma matchHere_lower (alternatives : list string) (prev : option ascii) (s : string) :
  Forall (fun p => toLowerCase p = p) alternatives -> toLowerCase s = s ->
  RegExp.matchHere alternatives true prev s = RegExp.matchHere alternatives false prev s.
Proof.
  intros Halts Hs. unfold RegExp.matchHere. f_equal.
  induction Halts as [|p alts Hp _ IH]; [reflexivity|].
  cbn [existsb]. by rewrite (matchPrefix_lower p prev s Hp Hs), IH.
Qed.

Lemma matchFrom_lower (alternatives : list string) (prev : option ascii) (s : string) :
  Forall (fun p => toLowerCase p = p) alternatives -> toLowerCase s = s ->
  RegExp.matchFrom alternatives true prev s = RegExp.matchFrom alternatives false prev s.
Proof.
  intros Halts. revert prev. induction s as [|c s IH]; intros prev Hs.
  - cbn [RegExp.matchFrom]. by rewrite (matchHere_lower alternatives prev EmptyString Halts Hs).
  - pose proof (toLowerCase_cons c s Hs) as [_ Hs'].
    cbn [RegExp.matchFrom]. by rewrite (matchHere_lower alternatives prev _ Halts Hs), IH.
Qed.

Lemma words_lower :
  Forall (fun words => Forall (fun p => toLowerCase p = p) words)
    [cryptoWords; politicsWords; sportsWords; economicsWords; entertainmentWords;
     scienceWords].
Proof. repeat (constructor; [repeat (constructor; [reflexivity|]); constructor|]). constructor. Qed.

End RegExpFacts.

(** X16: one categorization.  The exported [categorizeMarket] and the
    method of the same name that the reports use give the same category to
    every title: on the lower-cased title the [i] flag of the exported
    expressions changes nothing.  The category does not depend on the letter
    case of the title. *)
Theorem categorizers_agree (title : string) :
  categorizeMarket title = Reports.categorizeMarket title
  /\ categorizeMarket (toLowerCase title) = categorizeMarket title
  /\ Reports.categorizeMarket (toLowerCase title) = Reports.categorizeMarket title.
Proof.
  pose proof words_lower as Hwords.
  repeat match type of Hwords with
         | Forall _ (_ :: _) => apply Forall_cons in Hwords as [? Hwords]
         end.
  split_and!.
  - unfold categorizeMarket, Reports.categorizeMarket, CATEGORY_KEYWORDS, RegExp.test.
    rewrite !matchFrom_lower by (assumption || apply toLowerCase_idempotent).
    reflexivity.
  - unfold categorizeMarket. by rewrite toLowerCase_idempotent.
  - unfold Reports.categorizeMarket. by rewrite toLowerCase_idempotent.
Qed.

(** ** Paging through the closed positions *)

Section FetchFacts.
Import Reports.

(** The requests of the loop: one page after the other, as many as there
    are iterations at most. *)
Lemma fetchLoop_requests api remaining offset allPositions asked :
  exists m,
    (Nat.min 1 remaining <= m <= remaining)%nat
    /\ requests (fetchLoop api remaining offset allPositions asked)
       = asked ++ ((fun i => (offset + 50 * i, 50)%nat) <$> seq 0 m).
Proof.
  revert offset allPositions asked.
  induction remaining as [|remaining IH]; intros offset allPositions asked.
  - exists 0%nat. simpl. rewrite app_nil_r. split; [lia | reflexivity].
  - assert (Hone : asked ++ [(offset, 50%nat)]
                   = asked ++ ((fun i => (offset + 50 * i, 50)%nat) <$> seq 0 1)).
    { simpl. by rewrite Nat.add_0_r. }
    cbn [fetchLoop]. destruct (api offset 50%nat) as [result|].
    + destruct (length result =? 0)%nat; [exists 1%nat; split; [lia | exact Hone]|].
      destruct (length result <? 50)%nat; [exists 1%nat; split; [lia | exact Hone]|].
      destruct (IH (offset + 50)%nat (allPositions ++ result) (asked ++ [(offset, 50%nat)]))
        as (m & Hm & ->).
      exists (S m). split; [lia|]. rewrite <- app_assoc. f_equal.
      cbn [seq fmap list_fmap]. rewrite Nat.mul_0_r, Nat.add_0_r. simpl. f_equal.
      rewrite <- fmap_S_seq, <- list_fmap_compose. apply list_fmap_ext.
      intros i x _. simpl. f_equal. lia.
    + exists 1%nat. split; [lia | exact Hone].
Qed.

(** On a data API that pages through [all], from a page boundary. *)
Lemma fetchLoop_paged all remaining offset asked :
  (offset <= length all)%nat ->
  let r := fetchLoop (paged all) remaining offset (take offset all) asked in
  fetched r = Some (take (offset + 50 * remaining) all)
  /\ length (requests r)
     = (length asked + Nat.min remaining ((length all - offset) / 50 + 1))%nat.
Proof.
  revert offset asked. induction remaining as [|remaining IH]; intros offset asked Hoffset.
  - simpl. split; [by rewrite Nat.add_0_r | lia].
  - cbn [fetchLoop].
    change (paged all offset 50%nat) with (Page (take 50 (drop offset all))).
    cbv beta iota. rewrite length_take, length_drop.
    destruct (Nat.eqb_spec (50 `min` (length all - offset)) 0) as [Hzero|Hmore].
    { cbn [fetched requests]. rewrite length_app. cbn [length].
      rewrite !take_ge by lia. split; [reflexivity|].
      rewrite (Nat.div_small (length all - offset) 50) by lia. lia. }
    destruct (Nat.ltb_spec (50 `min` (length all - offset)) 50) as [Hshort|Hfull].
    { cbn [fetched requests]. rewrite length_app. cbn [length].
      rewrite take_take_drop, !take_ge by lia. split; [reflexivity|].
      rewrite (Nat.div_small (length all - offset) 50) by lia. lia. }
    rewrite take_take_drop.
    destruct (IH (offset + 50)%nat (asked ++ [(offset, 50%nat)])) as [H1 H2]; [lia|].
    split.
    + rewrite H1. f_equal. f_equal. lia.
    + rewrite H2, length_app. cbn [length].
      replace (length all - offset)%nat with ((length all - (offset + 50)) + 1 * 50)%nat
        by lia.
      rewrite Nat.div_add by lia. lia.
Qed.

End FetchFacts.

(** X17: [fetchAllClosedPositions] pages through everything.  Its requests
    are for pages of 50 at the offsets 0, 50, 100, ..., at least one and at
    most 200 of them; without a data API it returns the empty list and asks
    nothing.  Of a data API that pages through a list it returns the first
    200 pages of 50 positions, in the order of the API, with one request
    per page, the last one short or empty. *)
Theorem fetchAllClosedPositions_pages :
  Reports.fetchAllClosedPositions None
  = {| Reports.fetched := Some []; Reports.requests := [] |}
  /\ (forall api, exists m,
        (1 <= m <= 200)%nat
        /\ Reports.requests (Reports.fetchAllClosedPositions (Some api))
           = (fun i => (50 * i, 50)%nat) <$> seq 0 m)
  /\ (forall all,
        let r := Reports.fetchAllClosedPositions (Some (Reports.paged all)) in
        Reports.fetched r = Some (take (50 * 200) all)
        /\ length (Reports.requests r) = Nat.min 200 (length all / 50 + 1)).
Proof.
  split_and!; [reflexivity | |].
  - intros api. unfold Reports.fetchAllClosedPositions.
    destruct (fetchLoop_requests api 200 0 [] []) as (m & Hm & Hreq).
    exists m. split; [lia | exact Hreq].
  - intros all. unfold Reports.fetchAllClosedPositions.
    destruct (fetchLoop_paged all 200 0 [] (Nat.le_0_l _)) as [H1 H2].
    rewrite Nat.sub_0_r in H2. split; [exact H1 | exact H2].
Qed.

(** ** Sums, maxima and counts *)

Section NumberFacts.

Lemma foldl_sum {A : Type} (f : A -> Q) (acc : Q) (l : list A) :
  (foldl (fun acc x => acc + f x) acc l == acc + JsArray.sum f l)%Q.
Proof.
  unfold JsArray.sum. revert acc. induction l as [|x l IH]; intros acc; simpl; [lra|].
  rewrite (IH (acc + f x)%Q), (IH (0 + f x)%Q). lra.
Qed.

Lemma sum_nil {A : Type} (f : A -> Q) : JsArray.sum f [] = 0%Q.
Proof. reflexivity. Qed.

Lemma sum_cons {A : Type} (f : A -> Q) (x : A) (l : list A) :
  (JsArray.sum f (x :: l) == f x + JsArray.sum f l)%Q.
Proof. unfold JsArray.sum at 1. simpl. rewrite foldl_sum. lra. Qed.

Lemma number_0 : Reports.number 0 = 0%Q.
Proof. reflexivity. Qed.

Lemma number_S (n : nat) : (Reports.number (S n) == Reports.number n + 1)%Q.
Proof. unfold Reports.number. rewrite Nat2Z.inj_succ, <- Z.add_1_r, inject_Z_plus. reflexivity. Qed.

Lemma number_nonneg (n : nat) : (0 <= Reports.number n)%Q.
Proof. unfold Reports.number. change 0%Q with (inject_Z 0). rewrite <- Zle_Qle. lia. Qed.

Lemma number_pos (n : nat) : (0 < n)%nat -> (0 < Reports.number n)%Q.
Proof.
  intros H. unfold Reports.number. change 0%Q with (inject_Z 0). rewrite <- Zlt_Qlt. lia.
Qed.

Lemma number_le (n m : nat) : (n <= m)%nat -> (Reports.number n <= Reports.number m)%Q.
Proof. intros H. unfold Reports.number. rewrite <- Zle_Qle. lia. Qed.

(** A sum lies between the count times a lower and an upper bound of its
    terms. *)
Lemma sum_bounds {A : Type} (f : A -> Q) (lo hi : Q) (l : list A) :
  Forall (fun x => lo <= f x /\ f x <= hi)%Q l ->
  (Reports.number (length l) * lo <= JsArray.sum f l
   /\ JsArray.sum f l <= Reports.number (length l) * hi)%Q.
Proof.
  induction 1 as [|x l [Hlo Hhi] _ [IH1 IH2]].
  - rewrite sum_nil. simpl. rewrite number_0. lra.
  - rewrite sum_cons. cbn [length]. rewrite number_S. lra.
Qed.

Lemma Qmax_cases (a b : Q) :
  (a <= Qmax a b /\ b <= Qmax a b)%Q /\ (Qmax a b = a \/ Qmax a b = b).
Proof.
  unfold Qmax. destruct (Qltb a b) eqn:E.
  - apply Qltb_lt in E. split; [lra | by right].
  - apply Qltb_ge in E. split; [lra | by left].
Qed.

(** [Math.max] of a list is one of its elements and none is greater. *)
Lemma Math_max_spec (x : Q) (rest : list Q) :
  Forall (fun y => y <= Math_max x rest)%Q (x :: rest) /\ Math_max x rest ∈ x :: rest.
Proof.
  unfold Math_max. revert x. induction rest as [|y rest IH]; intros x; simpl.
  - split; [constructor; [lra | constructor] | left].
  - destruct (IH (Qmax x y)) as [Hall Hin].
    destruct (Qmax_cases x y) as [[Hx Hy] Hcase].
    inversion Hall as [|? ? Hm Hrest]; subst.
    split.
    + constructor; [lra|]. constructor; [lra | exact Hrest].
    + apply elem_of_cons in Hin as [Hin|Hin].
      * rewrite Hin. destruct Hcase as [->| ->]; [left | right; left].
      * right. by right.
Qed.

Lemma maximum_spec (l : list Q) :
  let M := match l with x :: rest => Math_max x rest | [] => 0%Q end in
  Forall (fun y => y <= M)%Q l /\ (l <> [] -> M ∈ l).
Proof.
  destruct l as [|x rest]; simpl; [split; [constructor | done]|].
  destruct (Math_max_spec x rest) as [H1 H2]. by split.
Qed.

Lemma List_filter_elem_of {A : Type} (p : A -> bool) (l : list A) (x : A) :
  x ∈ List.filter p l <-> x ∈ l /\ p x = true.
Proof. rewrite !list_elem_of_In. apply filter_In. Qed.

Lemma List_filter_length {A : Type} (p : A -> bool) (l : list A) :
  (length (List.filter p l) <= length l)%nat.
Proof. induction l as [|x l IH]; simpl; [lia|]. destruct (p x); simpl; lia. Qed.

(** Two filters that no element passes together. *)
Lemma List_filter_disjoint {A : Type} (p q : A -> bool) (l : list A) :
  (forall x, p x = true -> q x = true -> False) ->
  (length (List.filter p l) + length (List.filter q l) <= length l)%nat.
Proof.
  intros Hpq. induction l as [|x l IH]; simpl; [lia|].
  destruct (p x) eqn:Ep, (q x) eqn:Eq; simpl; try lia.
  destruct (Hpq x Ep Eq).
Qed.

Lemma number_le_inv (n m : nat) :
  (Reports.number n <= Reports.number m)%Q -> (n <= m)%nat.
Proof. unfold Reports.number. rewrite <- Zle_Qle. lia. Qed.

Lemma sum_nonneg {A : Type} (f : A -> Q) (l : list A) :
  Forall (fun x => 0 <= f x)%Q l ->
  (0 <= JsArray.sum f l)%Q /\ Forall (fun x => f x <= JsArray.sum f l)%Q l.
Proof.
  induction 1 as [|x l Hx _ [IH1 IH2]].
  - rewrite sum_nil. split; [lra | constructor].
  - pose proof (sum_cons f x l) as E. split; [lra|]. constructor; [lra|].
    eapply Forall_impl; [exact IH2|]. simpl. intros y Hy. lra.
Qed.

End NumberFacts.

(** ** Performance metrics *)

Section PerformanceFacts.
Import Reports.

(** The realized PnL is the sum over the wins plus the sum over the
    losses: positions that broke even add nothing. *)
Lemma sum_wins_losses (l : list ClosedPosition) :
  (JsArray.sum cp_realizedPnl l
   == JsArray.sum cp_realizedPnl (List.filter (fun p => Qltb 0 (cp_realizedPnl p)) l)
      + JsArray.sum cp_realizedPnl (List.filter (fun p => Qltb (cp_realizedPnl p) 0) l))%Q.
Proof.
  induction l as [|p l IH]; [cbn [List.filter]; rewrite !sum_nil; lra|].
  cbn [List.filter]. rewrite sum_cons, IH.
  destruct (Qltb 0 (cp_realizedPnl p)) eqn:E1, (Qltb (cp_realizedPnl p) 0) eqn:E2;
    rewrite ?sum_cons;
    [apply Qltb_lt in E1, E2; lra | lra | lra | apply Qltb_ge in E1, E2; lra].
Qed.

End PerformanceFacts.

(** X18: the performance figures fit together, as far as counting and
    comparing go.  Wins and losses are counted apart and never exceed the
    number of markets; the win rate lies between 0 and 1, it is 0 exactly
    when no market was won and 1 exactly when every market was; the average
    win, the average loss and the profit factor are not negative; no closed
    position made more than [maxWin] or lost more than [maxLoss], and when
    there is a win (a loss) [maxWin] ([maxLoss]) is positive and is what one
    of the closed positions made (lost); without a win the average win, the
    largest win and the profit factor are 0, without a loss the average and
    the largest loss are 0.  With no closed position every figure but the
    unrealized PnL is 0. *)
Theorem performance_figures_fit (closedPositions : list Reports.ClosedPosition)
    (currentPositions : list Reports.Position) :
  let m := Reports.calculatePerformanceMetricsFromClosed closedPositions currentPositions in
  (Reports.winningMarkets m + Reports.losingMarkets m <= Reports.totalMarketsTraded m)%nat
  /\ Reports.totalMarketsTraded m = length closedPositions
  /\ (0 <= Reports.winRate m /\ Reports.winRate m <= 1)%Q
  /\ ((Reports.winRate m == 0)%Q <-> Reports.winningMarkets m = 0%nat)
  /\ ((Reports.winRate m == 1)%Q <->
      (0 < Reports.totalMarketsTraded m)%nat
      /\ Reports.winningMarkets m = Reports.totalMarketsTraded m)
  /\ (0 <= Reports.avgWin m)%Q
  /\ (0 <= Reports.avgLoss m)%Q
  /\ (0 <= Reports.profitFactor m)%Q
  /\ (forall p, p ∈ closedPositions ->
        (- Reports.maxLoss m <= Reports.cp_realizedPnl p
         /\ Reports.cp_realizedPnl p <= Reports.maxWin m)%Q)
  /\ ((0 < Reports.winningMarkets m)%nat ->
      (0 < Reports.maxWin m)%Q
      /\ exists p, p ∈ closedPositions /\ Reports.cp_realizedPnl p = Reports.maxWin m)
  /\ ((0 < Reports.losingMarkets m)%nat ->
      (0 < Reports.maxLoss m)%Q
      /\ exists p, p ∈ closedPositions /\ (Reports.cp_realizedPnl p < 0)%Q
           /\ Qabs (Reports.cp_realizedPnl p) = Reports.maxLoss m)
  /\ (Reports.winningMarkets m = 0%nat ->
      Reports.avgWin m = 0%Q /\ Reports.maxWin m = 0%Q
      /\ (Reports.profitFactor m == 0)%Q)
  /\ (Reports.losingMarkets m = 0%nat ->
      Reports.avgLoss m = 0%Q /\ Reports.maxLoss m = 0%Q)
  /\ (closedPositions = [] ->
      Reports.winRate m = 0%Q /\ Reports.profitFactor m = 0%Q
      /\ Reports.realizedPnL m = 0%Q /\ Reports.maxWin m = 0%Q /\ Reports.maxLoss m = 0%Q).
Proof.
  cbv zeta. unfold Reports.calculatePerformanceMetricsFromClosed.
  cbn [Reports.winningMarkets Reports.losingMarkets Reports.totalMarketsTraded
       Reports.winRate Reports.avgWin Reports.avgLoss Reports.maxWin Reports.maxLoss
       Reports.profitFactor Reports.realizedPnL].
  set (wins := List.filter (fun p => Qltb 0 (Reports.cp_realizedPnl p)) closedPositions).
  set (losses := List.filter (fun p => Qltb (Reports.cp_realizedPnl p) 0) closedPositions).
  destruct (maximum_spec (Reports.cp_realizedPnl <$> wins)) as [HmaxW HinW].
  destruct (maximum_spec ((fun p => Qabs (Reports.cp_realizedPnl p)) <$> losses))
    as [HmaxL HinL].
  set (maxWin := match Reports.cp_realizedPnl <$> wins with
                 | x :: rest => Math_max x rest
                 | [] => 0%Q
                 end) in *.
  set (maxLoss := match (fun p => Qabs (Reports.cp_realizedPnl p)) <$> losses with
                  | x :: rest => Math_max x rest
                  | [] => 0%Q
                  end) in *.
  assert (Hwins : Forall (fun p => 0 < Reports.cp_realizedPnl p
                    /\ Reports.cp_realizedPnl p <= maxWin)%Q wins).
  { rewrite Forall_fmap in HmaxW. rewrite Forall_forall in HmaxW |- *.
    intros p Hp. split; [|exact (HmaxW p Hp)].
    apply List_filter_elem_of in Hp as [_ Hp]. by apply Qltb_lt in Hp. }
  assert (Hlosses : Forall (fun p => - maxLoss <= Reports.cp_realizedPnl p
                      /\ Reports.cp_realizedPnl p < 0)%Q losses).
  { rewrite Forall_fmap in HmaxL. rewrite Forall_forall in HmaxL |- *.
    intros p Hp. specialize (HmaxL p Hp). simpl in HmaxL.
    apply List_filter_elem_of in Hp as [_ Hp]. apply Qltb_lt in Hp.
    rewrite Qabs_neg in HmaxL by lra. split; lra. }
  assert (Hw0 : (0 <= JsArray.sum Reports.cp_realizedPnl wins)%Q).
  { apply sum_nonneg. eapply Forall_impl; [exact Hwins|]. intros p [H1 _]. simpl. lra. }
  assert (Hl0 : (JsArray.sum Reports.cp_realizedPnl losses <= 0)%Q).
  { destruct (sum_bounds Reports.cp_realizedPnl (- maxLoss) 0 losses) as [_ H].
    - eapply Forall_impl; [exact Hlosses|]. intros p [H1 H2]. simpl. lra.
    - lra. }
  set (totalWin := JsArray.sum Reports.cp_realizedPnl wins) in *.
  set (sumLoss := JsArray.sum Reports.cp_realizedPnl losses) in *.
  assert (Habs : (Qabs sumLoss == - sumLoss)%Q) by (apply Qabs_neg; lra).
  assert (HmaxWin : (0 <= maxWin)%Q).
  { destruct wins as [|p wins']; [unfold maxWin; simpl; lra|].
    inversion Hwins as [|? ? [H1 H2] _]; subst. lra. }
  assert (HmaxLoss : (0 <= maxLoss)%Q).
  { destruct losses as [|p losses']; [unfold maxLoss; simpl; lra|].
    inversion Hlosses as [|? ? [H1 H2] _]; subst. lra. }
  assert (Hcount : (length wins + length losses <= length closedPositions)%nat).
  { apply List_filter_disjoint. intros p H1 H2.
    apply Qltb_lt in H1, H2. lra. }
  assert (Hle : (length wins <= length closedPositions)%nat) by lia.
  split_and!.
  - exact Hcount.
  - reflexivity.
  - destruct (Nat.ltb_spec 0 (length closedPositions)) as [Hpos|_]; [|lra].
    apply Qle_shift_div_l; [by apply number_pos|]. pose proof (number_nonneg (length wins)).
    lra.
  - destruct (Nat.ltb_spec 0 (length closedPositions)) as [Hpos|_]; [|lra].
    apply Qle_shift_div_r; [by apply number_pos|].
    pose proof (number_le (length wins) (length closedPositions) Hle). lra.
  - destruct (Nat.ltb_spec 0 (length closedPositions)) as [Hpos|Hzero].
    + pose proof (number_pos _ Hpos) as Hn. split.
      * intros H0. destruct (length wins) as [|n] eqn:E; [reflexivity|]. exfalso.
        assert (Hw : (0 < Reports.number (S n))%Q) by (apply number_pos; lia).
        assert (Hq : (0 < Reports.number (S n) / Reports.number (length closedPositions))%Q).
        { apply Qlt_shift_div_l; [exact Hn | lra]. }
        lra.
      * intros ->. rewrite number_0. unfold Qdiv. lra.
    + split; [intros _; lia | reflexivity].
  - destruct (Nat.ltb_spec 0 (length closedPositions)) as [Hpos|Hzero].
    + pose proof (number_pos _ Hpos) as Hn. split.
      * intros H1. split; [exact Hpos|].
        assert (Hq : (Reports.number (length wins)
                      == Reports.number (length closedPositions))%Q).
        { rewrite <- (Qmult_div_r (Reports.number (length wins))
                       (Reports.number (length closedPositions))) by lra.
          rewrite H1. lra. }
        apply Nat.le_antisymm; [exact Hle|].
        apply number_le_inv. lra.
      * intros [_ ->]. field. lra.
    + split; [intros H; lra | intros [H _]; lia].
  - destruct (Nat.ltb_spec 0 (length wins)) as [Hpos|_]; [|lra].
    apply Qle_shift_div_l; [by apply number_pos|]. lra.
  - destruct (Nat.ltb_spec 0 (length losses)) as [Hpos|_]; [|lra].
    apply Qle_shift_div_l; [by apply number_pos|]. lra.
  - destruct (Qltb 0 (Qabs sumLoss)) eqn:E; [|lra].
    apply Qltb_lt in E. apply Qle_shift_div_l; [exact E | lra].
  - intros p Hp. rewrite Forall_forall in Hwins, Hlosses.
    destruct (Qltb 0 (Reports.cp_realizedPnl p)) eqn:E1.
    { destruct (Hwins p) as [H1 H2]; [by apply List_filter_elem_of|]. split; lra. }
    destruct (Qltb (Reports.cp_realizedPnl p) 0) eqn:E2.
    { destruct (Hlosses p) as [H1 H2]; [by apply List_filter_elem_of|]. split; lra. }
    apply Qltb_ge in E1, E2. split; lra.
  - intros Hpos.
    assert (Hne : Reports.cp_realizedPnl <$> wins <> []).
    { destruct wins; [simpl in Hpos; lia | discriminate]. }
    specialize (HinW Hne). apply list_elem_of_fmap in HinW as (p & Hp & Hin).
    rewrite Forall_forall in Hwins. destruct (Hwins p Hin) as [H1 _].
    split; [rewrite Hp; exact H1|]. exists p. split; [|by symmetry].
    by apply List_filter_elem_of in Hin as [Hin _].
  - intros Hpos.
    assert (Hne : (fun p => Qabs (Reports.cp_realizedPnl p)) <$> losses <> []).
    { destruct losses; [simpl in Hpos; lia | discriminate]. }
    specialize (HinL Hne). apply list_elem_of_fmap in HinL as (p & Hp & Hin).
    rewrite Forall_forall in Hlosses. destruct (Hlosses p Hin) as [_ H2].
    split.
    + rewrite Hp, Qabs_neg by lra. lra.
    + exists p. split_and!; [|exact H2|by symmetry].
      by apply List_filter_elem_of in Hin as [Hin _].
  - intros E. apply length_zero_iff_nil in E.
    unfold maxWin, totalWin. rewrite E. cbn [length Nat.ltb Nat.leb fmap list_fmap].
    split_and!; [reflexivity | reflexivity |].
    rewrite sum_nil. destruct (Qltb 0 (Qabs sumLoss)); [unfold Qdiv|]; lra.
  - intros E. apply length_zero_iff_nil in E.
    unfold maxLoss, sumLoss. rewrite E. split; reflexivity.
  - intros E. unfold maxWin, maxLoss, totalWin, sumLoss, wins, losses. rewrite E.
    split_and!; reflexivity.
Qed.

(** ** Sorting *)

Section SortFacts.
Context {A : Type} (compare : A -> A -> Q).

Lemma insert_Permutation (x : A) (l : list A) : JsArray.insert compare x l ≡ₚ x :: l.
Proof.
  induction l as [|y l IH]; simpl; [reflexivity|].
  destruct (Qle_bool (compare x y) 0); [reflexivity|].
  rewrite IH. apply Permutation_swap.
Qed.

Lemma sort_Permutation (l : list A) : JsArray.sort compare l ≡ₚ l.
Proof.
  induction l as [|x l IH]; [reflexivity|].
  unfold JsArray.sort in *. simpl. by rewrite insert_Permutation, IH.
Qed.

(** The comparator orders the elements. *)
Hypothesis compare_total : forall x y, (~ compare x y <= 0 -> compare y x <= 0)%Q.
Hypothesis compare_trans :
  forall x y z, (compare x y <= 0 -> compare y z <= 0 -> compare x z <= 0)%Q.

Lemma insert_sorted (x : A) (l : list A) :
  StronglySorted (fun a b => compare a b <= 0)%Q l ->
  StronglySorted (fun a b => compare a b <= 0)%Q (JsArray.insert compare x l).
Proof using compare_total compare_trans.
  induction 1 as [|y l Hl IH Hy]; simpl; [repeat constructor|].
  destruct (Qle_bool (compare x y) 0) eqn:E.
  - apply Qle_bool_iff in E. constructor; [by constructor|].
    constructor; [exact E|]. eapply Forall_impl; [exact Hy|].
    intros z Hz. by eapply compare_trans.
  - constructor; [exact IH|].
    assert (Hyx : (compare y x <= 0)%Q).
    { apply compare_total. intros H. apply Qle_bool_iff in H. congruence. }
    rewrite Forall_forall. intros z Hz.
    rewrite insert_Permutation in Hz. apply elem_of_cons in Hz as [->|Hz]; [exact Hyx|].
    rewrite Forall_forall in Hy. by apply Hy.
Qed.

Lemma sort_sorted (l : list A) :
  StronglySorted (fun a b => compare a b <= 0)%Q (JsArray.sort compare l).
Proof using compare_total compare_trans.
  induction l as [|x l IH]; [constructor|].
  unfold JsArray.sort in *. simpl. by apply insert_sorted.
Qed.

(** The first [limit] of the elements that pass [keep], in the order of
    the comparator: nothing that comes strictly before a listed element is
    left out. *)
Lemma ranking_spec (keep : A -> bool) (l : list A) (limit : nat) :
  let ranked := JsArray.slice0 limit (JsArray.sort compare (List.filter keep l)) in
  length ranked = Nat.min limit (length (List.filter keep l))
  /\ (forall x, x ∈ ranked -> x ∈ l /\ keep x = true)
  /\ StronglySorted (fun a b => compare a b <= 0)%Q ranked
  /\ (forall x y, x ∈ l -> keep x = true -> y ∈ ranked ->
        (~ compare y x <= 0)%Q -> x ∈ ranked).
Proof using compare_total compare_trans.
  intros ranked. unfold ranked, JsArray.slice0.
  set (sorted := JsArray.sort compare (List.filter keep l)).
  assert (Hperm : sorted ≡ₚ List.filter keep l) by apply sort_Permutation.
  assert (Hsorted : StronglySorted (fun a b => compare a b <= 0)%Q sorted)
    by apply sort_sorted.
  rewrite <- (take_drop limit sorted) in Hsorted.
  split_and!.
  - by rewrite length_take, Hperm.
  - intros x Hx. apply List_filter_elem_of. rewrite <- Hperm.
    eapply elem_of_sublist; [exact Hx | apply sublist_take].
  - by apply StronglySorted_app_1_l in Hsorted.
  - intros x y Hx Hkeep Hy Hbefore.
    assert (Hin : x ∈ take limit sorted ++ drop limit sorted).
    { rewrite take_drop, Hperm. by apply List_filter_elem_of. }
    apply elem_of_app in Hin as [Hin|Hin]; [exact Hin|].
    destruct Hbefore. by eapply (StronglySorted_app_1_elem_of _ _ _ y x Hsorted).
Qed.

End SortFacts.

(** ** Best and worst markets *)

Section MarketFacts.
Import Reports.

Lemma descending_total (key : ClosedPosition -> Q) (x y : ClosedPosition) :
  (~ key y - key x <= 0 -> key x - key y <= 0)%Q.
Proof. intros H. destruct (Qlt_le_dec (key x) (key y)); lra. Qed.

Lemma descending_trans (key : ClosedPosition -> Q) (x y z : ClosedPosition) :
  (key y - key x <= 0 -> key z - key y <= 0 -> key z - key x <= 0)%Q.
Proof. lra. Qed.

End MarketFacts.

(** X19: the best markets.  [getTopMarkets] lists min([limit], number of
    winning positions) markets, each one a closed position with a positive
    PnL, marked [win], in order of falling PnL; a closed position that made
    more than a listed one is listed too. *)
Theorem top_markets_are_the_best (positions : list Reports.ClosedPosition) (limit : nat) :
  let top := Reports.getTopMarkets positions limit in
  length top
  = Nat.min limit
      (Reports.winningMarkets (Reports.calculatePerformanceMetricsFromClosed positions []))
  /\ Forall (fun m => (0 < Reports.ms_pnl m)%Q /\ Reports.ms_outcome m = Reports.win
                      /\ exists p, p ∈ positions /\ m = Reports.toMarketStats Reports.win p)
       top
  /\ StronglySorted (fun a b => Reports.ms_pnl b <= Reports.ms_pnl a)%Q top
  /\ (forall p m, p ∈ positions -> m ∈ top ->
        (Reports.ms_pnl m < Reports.cp_realizedPnl p)%Q ->
        Reports.toMarketStats Reports.win p ∈ top).
Proof.
  intros top. unfold top, Reports.getTopMarkets.
  destruct (ranking_spec
              (fun a b => Reports.cp_realizedPnl b - Reports.cp_realizedPnl a)%Q
              (fun x y => descending_total Reports.cp_realizedPnl x y)
              (fun x y z => descending_trans Reports.cp_realizedPnl x y z)
              (fun p => Qltb 0 (Reports.cp_realizedPnl p)) positions limit)
    as (Hlen & Hin & Hsorted & Hbest).
  set (ranked := JsArray.slice0 limit _) in *.
  split_and!.
  - by rewrite length_fmap, Hlen.
  - apply Forall_fmap, Forall_forall. intros p Hp. destruct (Hin p Hp) as [Hpos Hkeep].
    apply Qltb_lt in Hkeep. simpl. split_and!; [exact Hkeep | reflexivity|].
    by exists p.
  - eapply StronglySorted_fmap; [|exact Hsorted]. simpl. intros x y H. lra.
  - intros p m Hp Hm Hlt. apply list_elem_of_fmap in Hm as (q & -> & Hq).
    apply list_elem_of_fmap. exists p. split; [reflexivity|]. simpl in Hlt.
    apply (Hbest p q); [exact Hp | | exact Hq | lra].
    destruct (Hin q Hq) as [_ Hkeep]. apply Qltb_lt in Hkeep. apply Qltb_lt. lra.
Qed.


(** ** Category distribution *)

Section KeyedMapFacts.
Context {K V : Type} `{EqDecision K}.
Implicit Types (m : list (K * V)) (k : K) (v : V).

Lemma KeyedMap_get_set k k' v m :
  KeyedMap.get k (KeyedMap.set k' v m) = if decide (k' = k) then Some v else KeyedMap.get k m.
Proof.
  induction m as [|[k0 v0] m IH]; simpl.
  - by destruct (decide (k' = k)).
  - destruct (decide (k0 = k')) as [->|Hne]; simpl.
    + by destruct (decide (k' = k)).
    + rewrite IH. destruct (decide (k0 = k)) as [->|]; [|reflexivity].
      by rewrite decide_False.
Qed.

Lemma KeyedMap_get_None k m : KeyedMap.get k m = None <-> k ∉ m.*1.
Proof.
  induction m as [|[k0 v0] m IH]; simpl.
  - split; [intros _; apply not_elem_of_nil | done].
  - rewrite not_elem_of_cons. destruct (decide (k0 = k)) as [->|Hne].
    + split; [discriminate | intros [? _]; congruence].
    + rewrite IH. split; [intros ?; split; [congruence | done] | tauto].
Qed.

Lemma KeyedMap_get_elem k v m : KeyedMap.get k m = Some v -> (k, v) ∈ m.
Proof.
  induction m as [|[k0 v0] m IH]; simpl; [discriminate|].
  destruct (decide (k0 = k)) as [->|Hne]; [intros [= ->]; left | intros H; right; auto].
Qed.

Lemma KeyedMap_elem_get k v m : NoDup m.*1 -> (k, v) ∈ m -> KeyedMap.get k m = Some v.
Proof.
  induction m as [|[k0 v0] m IH]; simpl; intros Hnd Hin; [by apply elem_of_nil in Hin|].
  apply NoDup_cons in Hnd as [Hk0 Hnd].
  apply elem_of_cons in Hin as [[= -> ->]|Hin]; [by rewrite decide_True|].
  destruct (decide (k0 = k)) as [->|Hne]; [|by apply IH].
  destruct Hk0. apply list_elem_of_fmap. by exists (k, v).
Qed.

Lemma KeyedMap_set_keys k v m :
  (KeyedMap.set k v m).*1 = if decide (k ∈ m.*1) then m.*1 else m.*1 ++ [k].
Proof.
  induction m as [|[k0 v0] m IH]; [reflexivity|].
  cbn [KeyedMap.set]. rewrite fmap_cons. cbn [fst].
  destruct (decide (k0 = k)) as [->|Hne].
  - rewrite decide_True by left. reflexivity.
  - rewrite fmap_cons, IH. cbn [fst]. destruct (decide (k ∈ m.*1)) as [Hin|Hout].
    + rewrite decide_True by (by right). reflexivity.
    + rewrite decide_False; [reflexivity|].
      rewrite not_elem_of_cons. split; [congruence | done].
Qed.

Lemma KeyedMap_set_NoDup k v m : NoDup m.*1 -> NoDup (KeyedMap.set k v m).*1.
Proof.
  intros Hnd. rewrite KeyedMap_set_keys. destruct (decide (k ∈ m.*1)); [exact Hnd|].
  apply NoDup_app. split_and!; [exact Hnd | | apply NoDup_singleton].
  intros x Hx Hx'. apply list_elem_of_singleton in Hx'. by subst x.
Qed.

End KeyedMapFacts.

Section DistributionFacts.
Import Reports.

Lemma sum_list_Permutation (l k : list nat) : l ≡ₚ k -> sum_list l = sum_list k.
Proof. induction 1; simpl; lia. Qed.

Lemma positionsIn_snoc c (l : list ClosedPosition) (p : ClosedPosition) :
  positionsIn c (l ++ [p])
  = (positionsIn c l + if decide (categorizeMarket (cp_title p) = c) then 1 else 0)%nat.
Proof.
  unfold positionsIn. rewrite List.filter_app, length_app. simpl.
  unfold bool_decide. by destruct (decide_rel eq _ c).
Qed.

Lemma positionsIn_le c (l : list ClosedPosition) : (positionsIn c l <= length l)%nat.
Proof. apply List_filter_length. Qed.

Lemma positionsIn_pos (l : list ClosedPosition) (p : ClosedPosition) :
  p ∈ l -> (0 < positionsIn (categorizeMarket (cp_title p)) l)%nat.
Proof.
  intros Hp. unfold positionsIn.
  assert (Hin : p ∈ List.filter
                  (fun q => bool_decide (categorizeMarket (cp_title q)
                                         = categorizeMarket (cp_title p))) l).
  { apply List_filter_elem_of. split; [exact Hp | by apply bool_decide_eq_true]. }
  destruct (List.filter _ l); [by apply elem_of_nil in Hin | simpl; lia].
Qed.

Lemma sum_counts_set (m : list (MarketCategory * Tally)) (k : MarketCategory) (v : Tally) :
  count v = (from_option count 0 (KeyedMap.get k m) + 1)%nat ->
  sum_list ((fun kv => count kv.2) <$> KeyedMap.set k v m)
  = S (sum_list ((fun kv => count kv.2) <$> m)).
Proof.
  induction m as [|[k0 v0] m IH]; intros Hv; [simpl in *; lia|].
  cbn [KeyedMap.set KeyedMap.get] in *.
  destruct (decide (k0 = k)) as [->|Hne]; rewrite !fmap_cons; cbn [sum_list snd].
  - simpl in Hv. unfold id. lia.
  - rewrite (IH Hv). unfold id. lia.
Qed.

(** What the map holds after the positions [seen]. *)
Lemma tallyStep_invariant (m : list (MarketCategory * Tally)) (seen : list ClosedPosition)
    (p : ClosedPosition) :
  (NoDup m.*1
   /\ (forall c, match KeyedMap.get c m with
                 | Some t => count t = positionsIn c seen /\ (0 < count t)%nat
                 | None => positionsIn c seen = 0%nat
                 end)
   /\ sum_list ((fun kv => count kv.2) <$> m) = length seen) ->
  let m' := tallyStep m p in
  NoDup m'.*1
  /\ (forall c, match KeyedMap.get c m' with
                | Some t => count t = positionsIn c (seen ++ [p]) /\ (0 < count t)%nat
                | None => positionsIn c (seen ++ [p]) = 0%nat
                end)
  /\ sum_list ((fun kv => count kv.2) <$> m') = length (seen ++ [p]).
Proof.
  intros (Hnd & Hget & Hsum). simpl. unfold tallyStep.
  set (category := categorizeMarket (cp_title p)).
  split_and!.
  - by apply KeyedMap_set_NoDup.
  - intros c. rewrite KeyedMap_get_set, positionsIn_snoc. fold category.
    specialize (Hget c).
    destruct (decide (category = c)) as [->|Hne].
    + destruct (KeyedMap.get c m) as [t|]; simpl; [destruct Hget|]; lia.
    + rewrite Nat.add_0_r. exact Hget.
  - rewrite length_app, (sum_counts_set m category).
    + simpl. lia.
    + by destruct (KeyedMap.get category m).
Qed.

Lemma tally_invariant (positions : list ClosedPosition) :
  let m := tally positions in
  NoDup m.*1
  /\ (forall c, match KeyedMap.get c m with
                | Some t => count t = positionsIn c positions /\ (0 < count t)%nat
                | None => positionsIn c positions = 0%nat
                end)
  /\ sum_list ((fun kv => count kv.2) <$> m) = length positions.
Proof.
  unfold tally.
  assert (Hgen : forall l seen m,
    (NoDup m.*1
     /\ (forall c, match KeyedMap.get c m with
                   | Some t => count t = positionsIn c seen /\ (0 < count t)%nat
                   | None => positionsIn c seen = 0%nat
                   end)
     /\ sum_list ((fun kv => count kv.2) <$> m) = length seen) ->
    let m' := foldl tallyStep m l in
    NoDup m'.*1
    /\ (forall c, match KeyedMap.get c m' with
                  | Some t => count t = positionsIn c (seen ++ l) /\ (0 < count t)%nat
                  | None => positionsIn c (seen ++ l) = 0%nat
                  end)
    /\ sum_list ((fun kv => count kv.2) <$> m') = length (seen ++ l)).
  { induction l as [|p l IH]; intros seen m Hm; simpl.
    - by rewrite app_nil_r.
    - specialize (IH (seen ++ [p]) (tallyStep m p) (tallyStep_invariant m seen p Hm)).
      simpl in IH. by rewrite <- app_assoc in IH. }
  apply (Hgen positions [] []). split_and!; [constructor | done | done].
Qed.

Lemma categories_at_most_seven (l : list MarketCategory) : NoDup l -> (length l <= 7)%nat.
Proof.
  intros Hnd.
  change 7%nat with (length [crypto; politics; sports; entertainment; economics; science;
                             other]).
  apply submseteq_length, NoDup_submseteq; [exact Hnd|].
  intros c _. destruct c; set_solver.
Qed.

End DistributionFacts.

(** X21: the category distribution.  [calculateCategoryDistributionFromClosed]
    has one entry per category that occurs among the positions, at most
    seven, none for the others; the [tradeCount] of an entry is the number
    of positions in its category, its percentage is that share of all
    positions, more than 0 and at most 100; the counts add up to the number
    of positions; the entries come in order of falling count. *)
Theorem category_distribution_counts (positions : list Reports.ClosedPosition) :
  let d := Reports.calculateCategoryDistributionFromClosed positions in
  NoDup (Reports.cs_category <$> d)
  /\ (length d <= 7)%nat
  /\ (forall p, p ∈ positions ->
        Reports.categorizeMarket (Reports.cp_title p) ∈ Reports.cs_category <$> d)
  /\ Forall (fun s =>
       Reports.cs_tradeCount s = Reports.positionsIn (Reports.cs_category s) positions
       /\ (0 < Reports.cs_tradeCount s)%nat
       /\ (Reports.cs_percentage s
           == Reports.number (Reports.cs_tradeCount s)
              / Reports.number (length positions) * 100)%Q
       /\ (0 < Reports.cs_percentage s)%Q /\ (Reports.cs_percentage s <= 100)%Q) d
  /\ sum_list (Reports.cs_tradeCount <$> d) = length positions
  /\ StronglySorted (fun a b => Reports.cs_tradeCount b <= Reports.cs_tradeCount a)%nat d.
Proof.
  intros d. unfold d, Reports.calculateCategoryDistributionFromClosed.
  destruct (tally_invariant positions) as (Hnd & Hget & Hsum).
  set (m := Reports.tally positions) in *.
  set (mk := fun '(category, stats) => _).
  set (compare := fun a b : Reports.CategoryStats => _).
  assert (Hperm : JsArray.sort compare (mk <$> m) ≡ₚ mk <$> m) by apply sort_Permutation.
  assert (Hcats : Reports.cs_category <$> (mk <$> m) = m.*1).
  { rewrite <- list_fmap_compose. apply list_fmap_ext. by intros i [c t] _. }
  assert (Hcounts : Reports.cs_tradeCount <$> (mk <$> m) = (fun kv => Reports.count kv.2) <$> m).
  { rewrite <- list_fmap_compose. apply list_fmap_ext. by intros i [c t] _. }
  split_and!.
  - by rewrite Hperm, Hcats.
  - rewrite <- (length_fmap Reports.cs_category). apply categories_at_most_seven.
    by rewrite Hperm, Hcats.
  - intros p Hp. rewrite Hperm, Hcats. apply dec_stable. intros Hout.
    apply KeyedMap_get_None in Hout. specialize (Hget (Reports.categorizeMarket (Reports.cp_title p))).
    rewrite Hout in Hget. pose proof (positionsIn_pos positions p Hp). lia.
  - rewrite Hperm. apply Forall_fmap, Forall_forall. intros [c t] Hin.
    pose proof (KeyedMap_elem_get c t m Hnd Hin) as Hc. specialize (Hget c).
    rewrite Hc in Hget. destruct Hget as [Hcount Hpos]. simpl.
    pose proof (positionsIn_le c positions) as Hle.
    assert (Htotal : (0 < length positions)%nat) by lia.
    destruct (Nat.ltb_spec 0 (length positions)) as [_|?]; [|lia].
    pose proof (number_pos _ Htotal) as Ht. pose proof (number_pos _ Hpos) as Hc'.
    assert (Hc'' : (Reports.number (Reports.count t) <= Reports.number (length positions))%Q)
      by (apply number_le; lia).
    assert (Hshare : (0 < Reports.number (Reports.count t)
                          / Reports.number (length positions))%Q
                     /\ (Reports.number (Reports.count t)
                         / Reports.number (length positions) <= 1)%Q).
    { split; [apply Qlt_shift_div_l; lra | apply Qle_shift_div_r; lra]. }
    split_and!; [exact Hcount | exact Hpos | reflexivity | lra | lra].
  - rewrite (sum_list_Permutation _ (Reports.cs_tradeCount <$> (mk <$> m))).
    + by rewrite Hcounts.
    + by apply fmap_Permutation.
  - assert (Hsorted : StronglySorted (fun a b => compare a b <= 0)%Q
                        (JsArray.sort compare (mk <$> m))).
    { apply sort_sorted.
      - intros x y H. unfold compare in *.
        destruct (Qlt_le_dec (Reports.number (Reports.cs_tradeCount x))
                    (Reports.number (Reports.cs_tradeCount y))); lra.
      - intros x y z. unfold compare. lra. }
    rewrite <- (list_fmap_id (JsArray.sort compare (mk <$> m))).
    eapply StronglySorted_fmap; [|exact Hsorted].
    intros x y H. simpl. apply number_le_inv. unfold compare in H. lra.
Qed.

(** ** Trading patterns *)

Section PatternFacts.
Import Reports.

Lemma take_NoDup {A : Type} (n : nat) (l : list A) : NoDup l -> NoDup (take n l).
Proof. intros H. eapply sublist_NoDup; [exact H | apply sublist_take]. Qed.

Lemma distribution_NoDup (positions : list ClosedPosition) :
  NoDup (cs_category <$> calculateCategoryDistributionFromClosed positions)
  /\ forall c, c ∈ cs_category <$> calculateCategoryDistributionFromClosed positions ->
       (0 < positionsIn c positions)%nat.
Proof.
  unfold calculateCategoryDistributionFromClosed.
  destruct (tally_invariant positions) as (Hnd & Hget & _).
  set (m := tally positions) in *.
  set (mk := fun '(category, stats) => _).
  set (compare := fun a b : CategoryStats => _).
  assert (Hperm : JsArray.sort compare (mk <$> m) ≡ₚ mk <$> m) by apply sort_Permutation.
  assert (Hcats : cs_category <$> (mk <$> m) = m.*1).
  { rewrite <- list_fmap_compose. apply list_fmap_ext. by intros i [c t] _. }
  split; [by rewrite Hperm, Hcats|].
  intros c Hc. rewrite Hperm, Hcats in Hc. specialize (Hget c).
  destruct (KeyedMap.get c m) as [t|] eqn:E; [lia|].
  by apply KeyedMap_get_None in E.
Qed.

End PatternFacts.

(** X22: the trading patterns.  The trades per day are between 0 and the
    number of closed positions, the trades per week seven times as many;
    the top categories are at most three different categories, each with a
    closed position; the preferred side is YES exactly when the YES and UP
    positions are more than one and a half times the NO and DOWN ones, NO in
    the converse case if not YES; with position values that are not negative
    the concentration is between 0 and 1. *)
Theorem trading_patterns_bounds (closedPositions : list Reports.ClosedPosition)
    (currentPositions : list Reports.Position) :
  let t := Reports.analyzeTradingPatterns closedPositions currentPositions in
  let yes := length (List.filter (Reports.outcomeIs "yes" "up") currentPositions) in
  let no := length (List.filter (Reports.outcomeIs "no" "down") currentPositions) in
  (0 <= Reports.avgTradesPerDay t
   /\ Reports.avgTradesPerDay t <= Reports.number (length closedPositions))%Q
  /\ (Reports.avgTradesPerWeek t == Reports.avgTradesPerDay t * 7)%Q
  /\ (length (Reports.topCategories t) <= 3)%nat
  /\ NoDup (Reports.topCategories t)
  /\ (forall c, c ∈ Reports.topCategories t ->
        (0 < Reports.positionsIn c closedPositions)%nat)
  /\ (Reports.preferredSide t = Reports.YES <-> (3 * no < 2 * yes)%nat)
  /\ (Reports.preferredSide t = Reports.NO
      <-> (2 * yes <= 3 * no)%nat /\ (3 * yes < 2 * no)%nat)
  /\ (Forall (fun p => 0 <= Reports.positionValue p)%Q currentPositions ->
      (0 <= Reports.positionConcentration t /\ Reports.positionConcentration t <= 1)%Q).
Proof.
  cbv zeta. unfold Reports.analyzeTradingPatterns.
  set (days := match Reports.cp_timestamp <$> closedPositions with
               | t :: ts => _
               | [] => (0%Q, 0%Q)
               end).
  assert (Hdays : (0 <= days.1 /\ days.1 <= Reports.number (length closedPositions))%Q
                  /\ (days.2 == days.1 * 7)%Q).
  { unfold days. destruct closedPositions as [|p ps];
      [pose proof (number_nonneg 0); simpl; split; [split|]; lra|].
    rewrite fmap_cons. cbv zeta. cbn [fst snd].
    set (totalDays := Z.max 1 _).
    assert (Hone : (1 <= inject_Z totalDays)%Q).
    { change 1%Q with (inject_Z 1). rewrite <- Zle_Qle. unfold totalDays. lia. }
    pose proof (number_nonneg (length (p :: ps))) as Hn.
    split; [split|reflexivity].
    - apply Qle_shift_div_l; lra.
    - apply Qle_shift_div_r; [lra | nra]. }
  destruct days as [perDay perWeek]. cbn [fst snd] in Hdays.
  cbn [Reports.avgTradesPerDay Reports.avgTradesPerWeek Reports.topCategories
       Reports.preferredSide Reports.positionConcentration].
  set (yes := length (List.filter (Reports.outcomeIs "yes" "up") currentPositions)).
  set (no := length (List.filter (Reports.outcomeIs "no" "down") currentPositions)).
  destruct (distribution_NoDup closedPositions) as [Hnd Hpos].
  assert (Hyes : Qltb (Reports.number no * (3 # 2)) (Reports.number yes) = true
                 <-> (3 * no < 2 * yes)%nat).
  { rewrite Qltb_lt. unfold Reports.number.
    assert (E : (inject_Z (Z.of_nat no) * (3 # 2) < inject_Z (Z.of_nat yes)
                 <-> inject_Z (3 * Z.of_nat no) < inject_Z (2 * Z.of_nat yes))%Q).
    { rewrite !inject_Z_mult. change (inject_Z 3) with 3%Q. change (inject_Z 2) with 2%Q.
      split; intros H; lra. }
    rewrite E, <- Zlt_Qlt. lia. }
  assert (Hno : Qltb (Reports.number yes * (3 # 2)) (Reports.number no) = true
                <-> (3 * yes < 2 * no)%nat).
  { rewrite Qltb_lt. unfold Reports.number.
    assert (E : (inject_Z (Z.of_nat yes) * (3 # 2) < inject_Z (Z.of_nat no)
                 <-> inject_Z (3 * Z.of_nat yes) < inject_Z (2 * Z.of_nat no))%Q).
    { rewrite !inject_Z_mult. change (inject_Z 3) with 3%Q. change (inject_Z 2) with 2%Q.
      split; intros H; lra. }
    rewrite E, <- Zlt_Qlt. lia. }
  split_and!.
  - tauto.
  - tauto.
  - tauto.
  - rewrite length_fmap. unfold JsArray.slice0. rewrite length_take. lia.
  - unfold JsArray.slice0. rewrite fmap_take. by apply take_NoDup.
  - intros c Hc. apply Hpos. unfold JsArray.slice0 in Hc. rewrite fmap_take in Hc.
    eapply elem_of_sublist; [exact Hc | apply sublist_take].
  - destruct (Qltb (Reports.number no * (3 # 2)) (Reports.number yes)).
    + split; [intros _; by apply Hyes | reflexivity].
    + split; [|intros H; apply Hyes in H; discriminate].
      destruct (Qltb (Reports.number yes * (3 # 2)) (Reports.number no)); discriminate.
  - destruct (Qltb (Reports.number no * (3 # 2)) (Reports.number yes)).
    + split; [discriminate|]. intros [H _]. assert (3 * no < 2 * yes)%nat by by apply Hyes.
      lia.
    + assert (Hle : (2 * yes <= 3 * no)%nat).
      { destruct (Nat.le_gt_cases (2 * yes) (3 * no)) as [?|Hgt]; [assumption|].
        apply Hyes in Hgt. discriminate. }
      destruct (Qltb (Reports.number yes * (3 # 2)) (Reports.number no)).
      * split; [intros _; split; [exact Hle | by apply Hno] | reflexivity].
      * split; [discriminate|]. intros [_ H]. apply Hno in H. discriminate.
  - intros Hvalues.
    destruct (sum_nonneg Reports.positionValue currentPositions Hvalues) as [Htotal Heach].
    set (totalValue := JsArray.sum Reports.positionValue currentPositions) in *.
    destruct (Qltb 0 totalValue) eqn:E; [|split; lra].
    apply Qltb_lt in E.
    destruct (maximum_spec (Reports.positionValue <$> currentPositions)) as [_ Hmax].
    set (maxValue := match Reports.positionValue <$> currentPositions with
                     | x :: rest => Math_max x rest
                     | [] => 0%Q
                     end) in *.
    assert (Hbounds : (0 <= maxValue /\ maxValue <= totalValue)%Q).
    { destruct currentPositions as [|p ps]; [unfold maxValue; simpl; split; lra|].
      specialize (Hmax ltac:(discriminate)).
      apply list_elem_of_fmap in Hmax as (q & -> & Hq).
      rewrite Forall_forall in Hvalues, Heach. split; [by apply Hvalues | by apply Heach]. }
    split; [apply Qle_shift_div_l; lra | apply Qle_shift_div_r; lra].
Qed.

(** ** Recommendation *)

Section RecommendationFacts.
Import Reports.

(** The win rate and the counts it is made of. *)
Lemma winRate_counts (closedPositions : list ClosedPosition)
    (currentPositions : list Position) :
  let m := calculatePerformanceMetricsFromClosed closedPositions currentPositions in
  (winRate m * number (totalMarketsTraded m) == number (winningMarkets m))%Q
  /\ (winningMarkets m + losingMarkets m <= totalMarketsTraded m)%nat.
Proof.
  simpl. split.
  - destruct (Nat.ltb_spec 0 (length closedPositions)) as [Hpos|Hzero].
    + pose proof (number_pos _ Hpos). rewrite Qmult_comm. apply Qmult_div_r. lra.
    + assert (E : closedPositions = []) by (destruct closedPositions; [done | simpl in *; lia]).
      rewrite E. simpl. rewrite number_0. lra.
  - apply List_filter_disjoint. intros p H1 H2. apply Qltb_lt in H1, H2. lra.
Qed.

(** From a win rate of one half on, the losses are not more than the
    wins. *)
Lemma winRate_half (closedPositions : list ClosedPosition)
    (currentPositions : list Position) :
  let m := calculatePerformanceMetricsFromClosed closedPositions currentPositions in
  (1 # 2 <= winRate m)%Q -> (losingMarkets m <= winningMarkets m)%nat.
Proof.
  intros m Hhalf. destruct (winRate_counts closedPositions currentPositions) as [Hrate Hsum].
  fold m in Hrate, Hsum.
  apply number_le_inv.
  pose proof (number_le _ _ Hsum) as Hle.
  assert (E : (number (winningMarkets m + losingMarkets m)
               == number (winningMarkets m) + number (losingMarkets m))%Q).
  { unfold number. rewrite Nat2Z.inj_add, inject_Z_plus. reflexivity. }
  pose proof (number_nonneg (totalMarketsTraded m)).
  nra.
Qed.

End RecommendationFacts.

(** X23: verdict and warnings fit together.  Whatever the formatting of
    the numbers, the recommendation computed from the positions of a wallet
    has one of the four verdicts; a wallet that is recommended, cautiously or
    not, carries neither the high-risk warning nor the warning about more
    losing than winning markets; [AVOID] is only said of a realized PnL that
    is not positive; and a wallet without closed positions gets [AVOID] with
    the high-risk warning. *)
Theorem verdict_and_warnings_fit (toFixed : Q -> nat -> string)
    (closedPositions : list Reports.ClosedPosition)
    (currentPositions : list Reports.Position) :
  let r := Assessment.recommend toFixed closedPositions currentPositions in
  let m := Reports.calculatePerformanceMetricsFromClosed closedPositions currentPositions in
  Assessment.verdict r
  ∈ ["RECOMMENDED"; "CAUTIOUSLY RECOMMENDED"; "NOT RECOMMENDED"; "AVOID"]
  /\ (Assessment.verdict r = "RECOMMENDED" \/ Assessment.verdict r = "CAUTIOUSLY RECOMMENDED" ->
      ("High risk profile detected" ∉ Assessment.warnings r)
      /\ ("More losing markets than winning markets" ∉ Assessment.warnings r))
  /\ (Assessment.verdict r = "AVOID" -> (Reports.realizedPnL m <= 0)%Q)
  /\ (closedPositions = [] ->
      Assessment.verdict r = "AVOID"
      /\ "High risk profile detected" ∈ Assessment.warnings r).
Proof.
  intros r m.
  pose proof (winRate_half closedPositions currentPositions) as Hhalf. fold m in Hhalf.
  cbv zeta in Hhalf.
  unfold r, Assessment.recommend, Assessment.generateRecommendation. fold m.
  set (patterns := Reports.analyzeTradingPatterns closedPositions currentPositions).
  set (d := Reports.calculateCategoryDistributionFromClosed closedPositions).
  set (style := Assessment.analyzeTradingStyle toFixed patterns d).
  assert (Hrisk : String_includes "HIGH" (Assessment.overallRisk (Assessment.assessRisk m patterns d))
                  = Qltb (Reports.winRate m) (4 # 10) || Qltb (Reports.profitFactor m) 1).
  { unfold Assessment.assessRisk. cbn [Assessment.overallRisk].
    destruct (Qltb (Reports.winRate m) (4 # 10) || Qltb (Reports.profitFactor m) 1);
      [reflexivity|].
    destruct (Qltb (Reports.winRate m) (1 # 2) || Qltb (Reports.profitFactor m) (3 # 2));
      [reflexivity|].
    destruct (Qltb (1 # 2) (Reports.positionConcentration patterns)); reflexivity. }
  rewrite Hrisk. clear Hrisk.
  assert (Hwarn : forall (b1 b2 b3 : bool),
    let warnings :=
      (if b3 then
         (if b2 then (if b1 then [] ++ ["High risk profile detected"] else [])
                     ++ ["More losing markets than winning markets"]
          else (if b1 then [] ++ ["High risk profile detected"] else []))
         ++ ["High-frequency trading may incur significant fees when copying"]
       else
         (if b2 then (if b1 then [] ++ ["High risk profile detected"] else [])
                     ++ ["More losing markets than winning markets"]
          else (if b1 then [] ++ ["High risk profile detected"] else []))) in
    ("High risk profile detected" ∈ warnings <-> b1 = true)
    /\ ("More losing markets than winning markets" ∈ warnings <-> b2 = true)).
  { intros [] [] []; simpl; split; split; try done; intros H;
      repeat (apply elem_of_cons in H as [H|H]; [discriminate H|]);
      try (by apply elem_of_nil in H); set_solver. }
  specialize (Hwarn (Qltb (Reports.winRate m) (4 # 10) || Qltb (Reports.profitFactor m) 1)
                    (Reports.winningMarkets m <? Reports.losingMarkets m)%nat
                    (String_includes "High-frequency" (Assessment.tradingFrequency style))).
  cbv zeta in Hwarn. destruct Hwarn as [Hhigh Hlosing].
  destruct (Qle_bool (6 # 10) (Reports.winRate m) && Qle_bool (3 # 2) (Reports.profitFactor m))
    eqn:E1.
  { apply andb_true_iff in E1 as [Ew Ep]. apply Qle_bool_iff in Ew, Ep.
    cbn [Assessment.verdict Assessment.warnings].
    split_and!; [set_solver | | discriminate | ].
    - intros _. rewrite Hhigh, Hlosing. split.
      + intros H. apply orb_true_iff in H as [H|H]; apply Qltb_lt in H; lra.
      + intros H. apply Nat.ltb_lt in H. assert (1 # 2 <= Reports.winRate m)%Q by lra.
        specialize (Hhalf ltac:(assumption)). lia.
    - intros E. exfalso. subst closedPositions. vm_compute in Ew. by apply Ew. }
  destruct (Qle_bool (1 # 2) (Reports.winRate m) && Qle_bool (12 # 10) (Reports.profitFactor m))
    eqn:E2.
  { apply andb_true_iff in E2 as [Ew Ep]. apply Qle_bool_iff in Ew, Ep.
    cbn [Assessment.verdict Assessment.warnings].
    split_and!; [set_solver | | discriminate | ].
    - intros _. rewrite Hhigh, Hlosing. split.
      + intros H. apply orb_true_iff in H as [H|H]; apply Qltb_lt in H; lra.
      + intros H. apply Nat.ltb_lt in H. specialize (Hhalf Ew). lia.
    - intros E. exfalso. subst closedPositions. vm_compute in Ew. by apply Ew. }
  destruct (Qltb 0 (Reports.realizedPnL m)) eqn:E3.
  { cbn [Assessment.verdict Assessment.warnings].
    split_and!; [set_solver | intros [?|?]; discriminate | discriminate | ].
    intros E. exfalso. subst closedPositions. vm_compute in E3. discriminate. }
  cbn [Assessment.verdict Assessment.warnings].
  split_and!; [set_solver | intros [?|?]; discriminate | intros _; by apply Qltb_ge | ].
  intros E. split; [reflexivity|]. apply Hhigh. subst closedPositions. reflexivity.
Qed.

(** ** Comparing wallets *)

Lemma row_spec (walletService : Comparison.WalletService) (period address : string) :
  let r := Comparison.row walletService period address in
  Comparison.r_address r = address
  /\ (0 <= Comparison.r_winRate r /\ Comparison.r_winRate r <= 100)%Q
  /\ (Comparison.getWalletPositions walletService address = Comparison.Failed ->
      Comparison.r_positionCount r = 0%nat /\ Comparison.r_winRate r = 0%Q)
  /\ (Comparison.getUserPeriodPnl walletService address period = Comparison.Failed ->
      Comparison.r_pnl r = 0%Q /\ Comparison.r_volume r = 0%Q
      /\ Comparison.r_rank r = None /\ Comparison.r_userName r = None).
Proof.
  unfold Comparison.row. cbv zeta.
  cbn [Comparison.r_winRate Comparison.r_address Comparison.r_positionCount
       Comparison.r_pnl Comparison.r_volume Comparison.r_rank Comparison.r_userName].
  set (positions := match Comparison.getWalletPositions walletService address with
                    | Comparison.Fulfilled positions => positions
                    | Comparison.Failed => []
                    end).
  set (winning := List.filter _ positions).
  split_and!.
  - reflexivity.
  - destruct (Nat.ltb_spec 0 (length positions)) as [Hpos|_]; [|lra].
    pose proof (number_pos _ Hpos). pose proof (number_nonneg (length winning)).
    assert (0 <= Reports.number (length winning) / Reports.number (length positions))%Q
      by (apply Qle_shift_div_l; lra).
    lra.
  - destruct (Nat.ltb_spec 0 (length positions)) as [Hpos|_]; [|lra].
    pose proof (number_pos _ Hpos).
    pose proof (number_le (length winning) (length positions) (List_filter_length _ _)).
    assert (Reports.number (length winning) / Reports.number (length positions) <= 1)%Q
      by (apply Qle_shift_div_r; lra).
    lra.
  - intros E. unfold winning, positions. rewrite E. by split.
  - intros ->. by split_and!.
Qed.

(** X24: the comparison table.  [compareWallets] returns one row per
    address given, in order of falling PnL; the period is [week] unless one
    is given; a win rate is between 0 and 100; an address whose positions
    cannot be fetched has no positions and a win rate of 0, one whose period
    figures cannot be fetched has PnL and volume 0 and no rank. *)
Theorem compareWallets_table (walletService : Comparison.WalletService)
    (addresses : list string) (optionsPeriod : option string) (now : Z) :
  let c := Comparison.compareWallets walletService addresses optionsPeriod now in
  Comparison.period c = default "week" optionsPeriod
  /\ Comparison.wallets c
     ≡ₚ Comparison.row walletService (Comparison.period c) <$> addresses
  /\ Comparison.r_address <$> Comparison.wallets c ≡ₚ addresses
  /\ length (Comparison.wallets c) = length addresses
  /\ StronglySorted (fun a b => Comparison.r_pnl b <= Comparison.r_pnl a)%Q
       (Comparison.wallets c)
  /\ Forall (fun r =>
       (0 <= Comparison.r_winRate r /\ Comparison.r_winRate r <= 100)%Q
       /\ (Comparison.getWalletPositions walletService (Comparison.r_address r)
           = Comparison.Failed ->
           Comparison.r_positionCount r = 0%nat /\ Comparison.r_winRate r = 0%Q)
       /\ (Comparison.getUserPeriodPnl walletService (Comparison.r_address r)
             (Comparison.period c) = Comparison.Failed ->
           Comparison.r_pnl r = 0%Q /\ Comparison.r_volume r = 0%Q
           /\ Comparison.r_rank r = None /\ Comparison.r_userName r = None))
       (Comparison.wallets c).
Proof.
  intros c. unfold c, Comparison.compareWallets.
  cbn [Comparison.period Comparison.wallets].
  set (period := default "week" optionsPeriod).
  set (compare := fun a b : Comparison.Row => _).
  set (results := Comparison.row walletService period <$> addresses).
  assert (Hperm : JsArray.sort compare results ≡ₚ results) by apply sort_Permutation.
  assert (Haddresses : Comparison.r_address <$> results = addresses).
  { unfold results. rewrite <- list_fmap_compose.
    clear. induction addresses as [|a l IH]; [reflexivity|].
      rewrite fmap_cons. f_equal. exact IH. }
  split_and!.
  - reflexivity.
  - exact Hperm.
  - by rewrite Hperm, Haddresses.
  - rewrite Hperm. unfold results. by rewrite length_fmap.
  - assert (Hsorted : StronglySorted (fun a b => compare a b <= 0)%Q
                        (JsArray.sort compare results)).
    { apply sort_sorted.
      - intros x y H. unfold compare in *.
        destruct (Qlt_le_dec (Comparison.r_pnl x) (Comparison.r_pnl y)); lra.
      - intros x y z. unfold compare. lra. }
    rewrite <- (list_fmap_id (JsArray.sort compare results)).
    eapply StronglySorted_fmap; [|exact Hsorted].
    intros x y H. simpl. unfold compare in H. lra.
  - rewrite Hperm. unfold results. apply Forall_fmap, Forall_forall. intros address _.
    destruct (row_spec walletService period address) as (Ha & Hrate & Hpositions & Hpnl).
    unfold compose. cbv beta. rewrite Ha. exact (conj Hrate (conj Hpositions Hpnl)).
Qed.

(** ** Pie charts *)

Section ChartFacts.
Import Charts.

Lemma sum_Permutation {A : Type} (f : A -> Q) (l k : list A) :
  l ≡ₚ k -> (JsArray.sum f l == JsArray.sum f k)%Q.
Proof.
  induction 1 as [|x l k _ IH|x y l|l k j _ IH1 _ IH2].
  - reflexivity.
  - rewrite !sum_cons, IH. reflexivity.
  - rewrite !sum_cons. lra.
  - by rewrite IH1.
Qed.

Lemma sum_fmap {A B : Type} (f : B -> Q) (g : A -> B) (l : list A) :
  (JsArray.sum f (g <$> l) == JsArray.sum (fun x => f (g x)) l)%Q.
Proof.
  induction l as [|x l IH]; [reflexivity|].
  rewrite fmap_cons, !sum_cons, IH. reflexivity.
Qed.

Lemma sum_ext {A : Type} (f g : A -> Q) (l : list A) :
  (forall x, f x == g x)%Q -> (JsArray.sum f l == JsArray.sum g l)%Q.
Proof.
  intros H. induction l as [|x l IH]; [reflexivity|]. rewrite !sum_cons, IH, (H x).
  reflexivity.
Qed.

Lemma sum_scale {A : Type} (f : A -> Q) (c : Q) (l : list A) :
  (JsArray.sum (fun x => f x * c) l == JsArray.sum f l * c)%Q.
Proof.
  induction l as [|x l IH]; [rewrite !sum_nil; lra|].
  rewrite !sum_cons, IH. lra.
Qed.

Lemma truthyNumber_value (x : option Q) :
  (default 0 (Stream.truthyNumber x) == from_option (fun q => q) 0 x)%Q.
Proof.
  destruct x as [q|]; simpl; [|reflexivity].
  destruct (Qeq_bool q 0) eqn:E; simpl; [|reflexivity].
  apply Qeq_bool_iff in E. by rewrite E.
Qed.

Lemma sum_values_set (m : list (MarketCategory * Q)) (k : MarketCategory) (v x : Q) :
  (v == from_option (fun q => q) 0 (KeyedMap.get k m) + x)%Q ->
  (JsArray.sum (fun b => b) (KeyedMap.set k v m).*2
   == JsArray.sum (fun b => b) m.*2 + x)%Q.
Proof.
  induction m as [|[k0 v0] m IH]; intros Hv.
  - change ((KeyedMap.set k v []).*2) with [v].
    change (([] : list (MarketCategory * Q)).*2) with ([] : list Q).
    rewrite sum_cons, !sum_nil. simpl in Hv. lra.
  - cbn [KeyedMap.set KeyedMap.get] in *.
    destruct (decide (k0 = k)) as [->|Hne]; rewrite !fmap_cons; cbn [snd].
    + simpl in Hv. rewrite !sum_cons. lra.
    + rewrite !sum_cons, (IH Hv). lra.
Qed.

Lemma pie_invariant (items : list Item) :
  let m := foldl pieStep [] items in
  NoDup m.*1
  /\ (JsArray.sum (fun b => b) m.*2 == JsArray.sum i_value items)%Q.
Proof.
  assert (Hgen : forall l (seen : list Item) (m : list (MarketCategory * Q)),
    NoDup m.*1 /\ (JsArray.sum (fun b => b) m.*2 == JsArray.sum i_value seen)%Q ->
    NoDup (foldl pieStep m l).*1
    /\ (JsArray.sum (fun b => b) (foldl pieStep m l).*2
        == JsArray.sum i_value (seen ++ l))%Q).
  { induction l as [|item l IH]; intros seen m [Hnd Hsum]; simpl.
    - by rewrite app_nil_r.
    - specialize (IH (seen ++ [item]) (pieStep m item)).
      rewrite <- app_assoc in IH. apply IH. split.
      + by apply KeyedMap_set_NoDup.
      + unfold pieStep. rewrite (sum_values_set m _ _ (i_value item)).
        * rewrite Hsum. rewrite (sum_Permutation i_value (seen ++ [item]) (item :: seen)).
          -- rewrite sum_cons. lra.
          -- by rewrite Permutation_app_comm.
        * by rewrite truthyNumber_value. }
  apply (Hgen items [] []). split; [constructor | reflexivity].
Qed.

Lemma labels_inj : Inj eq eq CATEGORY_LABELS.
Proof. intros [] []; simpl; intros H; first [reflexivity | discriminate H]. Qed.

Lemma KeyedMap_set_Forall {K V : Type} `{EqDecision K} (P : K * V -> Prop)
    (k : K) (v : V) (m : list (K * V)) :
  P (k, v) -> Forall P m -> Forall P (KeyedMap.set k v m).
Proof.
  intros Hv. induction 1 as [|[k0 v0] m H0 Hm IH]; simpl.
  - constructor; [exact Hv | constructor].
  - destruct (decide (k0 = k)); constructor; auto.
Qed.

(** The keys of the map are the categories of the items. *)
Lemma pie_keys (items : list Item) (c : MarketCategory) :
  c ∈ (foldl pieStep [] items).*1
  <-> exists item, item ∈ items /\ Reports.categorizeMarket (i_title item) = c.
Proof.
  assert (Hgen : forall l (seen : list Item) (m : list (MarketCategory * Q)),
    (c ∈ m.*1 <-> exists item, item ∈ seen /\ Reports.categorizeMarket (i_title item) = c) ->
    (c ∈ (foldl pieStep m l).*1
     <-> exists item, item ∈ seen ++ l /\ Reports.categorizeMarket (i_title item) = c)).
  { induction l as [|item l IH]; intros seen m Hm; simpl.
    - by rewrite app_nil_r.
    - specialize (IH (seen ++ [item]) (pieStep m item)).
      rewrite <- app_assoc in IH. apply IH. unfold pieStep.
      rewrite KeyedMap_set_keys.
      set (category := Reports.categorizeMarket (i_title item)).
      assert (Hsnoc : (exists item0, item0 ∈ seen ++ [item]
                         /\ Reports.categorizeMarket (i_title item0) = c)
                      <-> (exists item0, item0 ∈ seen
                             /\ Reports.categorizeMarket (i_title item0) = c)
                          \/ category = c).
      { split.
        - intros (x & Hx & Hc). apply elem_of_app in Hx as [Hx|Hx]; [left; eauto|].
          apply list_elem_of_singleton in Hx. subst x. by right.
        - intros [(x & Hx & Hc)|Hc].
          + exists x. split; [apply elem_of_app; by left | exact Hc].
          + exists item. split; [apply elem_of_app; right; left | exact Hc]. }
      rewrite Hsnoc, <- Hm. destruct (decide (category ∈ m.*1)) as [Hin|Hout].
      + split; [tauto | intros [?| <-]; done].
      + rewrite elem_of_app, list_elem_of_singleton. split; intros [?|?]; auto. }
  apply (Hgen items [] []). split; [intros H; by apply elem_of_nil in H|].
  intros (x & Hx & _). by apply elem_of_nil in Hx.
Qed.

(** Items without a negative value give a map without one. *)
Lemma pie_nonneg (items : list Item) :
  Forall (fun item => 0 <= i_value item)%Q items ->
  Forall (fun kv : MarketCategory * Q => 0 <= kv.2)%Q (foldl pieStep [] items).
Proof.
  assert (Hgen : forall l (m : list (MarketCategory * Q)),
    Forall (fun item => 0 <= i_value item)%Q l ->
    Forall (fun kv : MarketCategory * Q => 0 <= kv.2)%Q m ->
    Forall (fun kv : MarketCategory * Q => 0 <= kv.2)%Q (foldl pieStep m l)).
  { induction l as [|item l IH]; intros m Hl Hm; simpl; [exact Hm|].
    inversion Hl as [|? ? Hitem Hrest]; subst. apply IH; [exact Hrest|].
    unfold pieStep. apply KeyedMap_set_Forall; [|exact Hm]. simpl.
    pose proof (truthyNumber_value
                  (KeyedMap.get (Reports.categorizeMarket (i_title item)) m)) as E.
    destruct (KeyedMap.get (Reports.categorizeMarket (i_title item)) m) as [v|] eqn:Hget;
      cbn [from_option] in E.
    - apply KeyedMap_get_elem in Hget. rewrite Forall_forall in Hm.
      specialize (Hm _ Hget). simpl in Hm. lra.
    - lra. }
  intros H. apply Hgen; [exact H | constructor].
Qed.

(** When every closed position counts 1, the map counts the positions of
    each category. *)
Lemma pie_counts (closedPositions : list Reports.ClosedPosition) (c : MarketCategory) :
  match KeyedMap.get c
          (foldl pieStep []
             ((fun p => {| i_title := Reports.cp_title p; i_value := 1 |})
                <$> closedPositions)) with
  | Some v => (v == Reports.number (Reports.positionsIn c closedPositions))%Q
              /\ (0 < Reports.positionsIn c closedPositions)%nat
  | None => Reports.positionsIn c closedPositions = 0%nat
  end.
Proof.
  set (unit := fun p => {| i_title := Reports.cp_title p; i_value := 1 |}).
  assert (Hgen : forall l (seen : list Reports.ClosedPosition)
                   (m : list (MarketCategory * Q)),
    match KeyedMap.get c m with
    | Some v => (v == Reports.number (Reports.positionsIn c seen))%Q
                /\ (0 < Reports.positionsIn c seen)%nat
    | None => Reports.positionsIn c seen = 0%nat
    end ->
    match KeyedMap.get c (foldl pieStep m (unit <$> l)) with
    | Some v => (v == Reports.number (Reports.positionsIn c (seen ++ l)))%Q
                /\ (0 < Reports.positionsIn c (seen ++ l))%nat
    | None => Reports.positionsIn c (seen ++ l) = 0%nat
    end).
  { induction l as [|p l IH]; intros seen m Hm.
    - rewrite app_nil_r. exact Hm.
    - rewrite fmap_cons. cbn [foldl].
      specialize (IH (seen ++ [p]) (pieStep m (unit p))).
      rewrite <- app_assoc in IH. apply IH. clear IH.
      unfold pieStep. rewrite KeyedMap_get_set, positionsIn_snoc.
      cbn [unit i_title i_value].
      destruct (decide (Reports.categorizeMarket (Reports.cp_title p) = c)) as [Hc|Hne].
      + rewrite Hc.
        pose proof (truthyNumber_value (KeyedMap.get c m)) as E.
        destruct (KeyedMap.get c m) as [v|]; cbn [from_option] in E.
        * destruct Hm as [Hv Hpos]. split; [|lia].
          rewrite E, Hv, Nat.add_1_r, number_S. reflexivity.
        * split; [|lia]. rewrite E, Hm. reflexivity.
      + rewrite Nat.add_0_r. exact Hm. }
  apply (Hgen closedPositions [] []). reflexivity.
Qed.

End ChartFacts.

(** X25: the slices of a pie chart, as far as counting and comparing go.
    [buildPieChart] makes one slice per category that occurs among its
    items, at most seven, each under its own label, the largest value
    first; when the total is not positive every percentage is 0; when no
    item has a negative value, the total is not negative, every slice has a
    value between 0 and the total and a percentage between 0 and 100.  In
    the trade distribution of [getWalletChartData], where every closed
    position counts 1, the total is the number of closed positions and the
    value of a slice is the number of closed positions of its category,
    which is not 0. *)
Theorem pie_chart_slices (name : string) (items : list Charts.Item)
    (valueField : Charts.ValueField) :
  let chart := Charts.buildPieChart name items valueField in
  NoDup (Charts.ps_name <$> Charts.pc_data chart)
  /\ (length (Charts.pc_data chart) <= 7)%nat
  /\ (forall label,
        label ∈ Charts.ps_name <$> Charts.pc_data chart
        <-> exists item, item ∈ items
              /\ label = CATEGORY_LABELS (Reports.categorizeMarket (Charts.i_title item)))
  /\ StronglySorted (fun a b => Charts.ps_value b <= Charts.ps_value a)%Q
       (Charts.pc_data chart)
  /\ (~ (0 < Charts.pc_total chart)%Q ->
      Forall (fun s => Charts.ps_percentage s = 0%Q) (Charts.pc_data chart))
  /\ (Forall (fun item => 0 <= Charts.i_value item)%Q items ->
      (0 <= Charts.pc_total chart)%Q
      /\ Forall (fun s => (0 <= Charts.ps_value s
                           /\ Charts.ps_value s <= Charts.pc_total chart)
                          /\ (0 <= Charts.ps_percentage s
                              /\ Charts.ps_percentage s <= 100))%Q
           (Charts.pc_data chart))
  /\ (forall closedPositions : list Reports.ClosedPosition,
        items = (fun p => {| Charts.i_title := Reports.cp_title p; Charts.i_value := 1 |})
                  <$> closedPositions ->
        (Charts.pc_total chart == Reports.number (length closedPositions))%Q
        /\ Forall (fun s => exists c,
                     Charts.ps_name s = CATEGORY_LABELS c
                     /\ (Charts.ps_value s
                         == Reports.number (Reports.positionsIn c closedPositions))%Q
                     /\ (0 < Reports.positionsIn c closedPositions)%nat)
             (Charts.pc_data chart)).
Proof.
  intros chart. unfold chart, Charts.buildPieChart.
  cbn [Charts.pc_total Charts.pc_data].
  destruct (pie_invariant items) as [Hnd Hsum].
  pose proof (pie_keys items) as Hkeys.
  pose proof (pie_nonneg items) as Hnonneg.
  set (m := foldl Charts.pieStep [] items) in *.
  set (total := JsArray.sum (fun b => b) m.*2) in *.
  set (mk := fun '(category, value) => _).
  set (compare := fun a b : Charts.PieSlice => _).
  assert (Hperm : JsArray.sort compare (mk <$> m) ≡ₚ mk <$> m) by apply sort_Permutation.
  assert (Hnames : Charts.ps_name <$> (mk <$> m) = CATEGORY_LABELS <$> m.*1).
  { rewrite <- !list_fmap_compose. apply list_fmap_ext. by intros i [c v] _. }
  split_and!.
  - rewrite Hperm, Hnames. apply NoDup_fmap_2; [apply labels_inj | exact Hnd].
  - rewrite Hperm, length_fmap, <- (length_fmap fst). by apply categories_at_most_seven.
  - intros label. rewrite Hperm, Hnames, list_elem_of_fmap. split.
    + intros (c & -> & Hc). apply Hkeys in Hc as (item & Hitem & <-). eauto.
    + intros (item & Hitem & ->). eexists. split; [reflexivity|].
      apply Hkeys. eauto.
  - assert (Hsorted : StronglySorted (fun a b => compare a b <= 0)%Q
                        (JsArray.sort compare (mk <$> m))).
    { apply sort_sorted.
      - intros x y H. unfold compare in *.
        destruct (Qlt_le_dec (Charts.ps_value x) (Charts.ps_value y)); lra.
      - intros x y z. unfold compare. lra. }
    rewrite <- (list_fmap_id (JsArray.sort compare (mk <$> m))).
    eapply StronglySorted_fmap; [|exact Hsorted].
    intros x y H. simpl. unfold compare in H. lra.
  - intros Htotal. rewrite Hperm. apply Forall_fmap, Forall_forall. intros [c v] _.
    unfold compose, mk. cbn [Charts.ps_percentage].
    destruct (Qltb 0 total) eqn:E; [|reflexivity].
    apply Qltb_lt in E. contradiction.
  - intros Hitems. specialize (Hnonneg Hitems).
    assert (Hvalues : Forall (fun x : Q => 0 <= x)%Q m.*2).
    { apply Forall_fmap. exact Hnonneg. }
    destruct (sum_nonneg (fun b : Q => b) m.*2 Hvalues) as [Htotal Hbelow].
    fold total in Htotal, Hbelow. split; [exact Htotal|].
    rewrite Hperm. apply Forall_fmap, Forall_forall. intros [c v] Hin.
    unfold compose, mk. cbn [Charts.ps_percentage Charts.ps_value].
    assert (Hv : (0 <= v /\ v <= total)%Q).
    { rewrite Forall_forall in Hvalues, Hbelow.
      assert (Hv : v ∈ m.*2) by (apply list_elem_of_fmap; by exists (c, v)).
      split; [exact (Hvalues v Hv) | exact (Hbelow v Hv)]. }
    split; [exact Hv|].
    destruct (Qltb 0 total) eqn:E; [|lra].
    apply Qltb_lt in E. split.
    + apply Qmult_le_0_compat; [|lra]. apply Qle_shift_div_l; [exact E | lra].
    + assert (Hq : (v / total <= 1)%Q) by (apply Qle_shift_div_r; [exact E | lra]).
      lra.
  - intros closedPositions Hitems. split.
    + fold total. rewrite Hsum, Hitems, sum_fmap. simpl. clear.
      induction closedPositions as [|p l IH]; [reflexivity|].
      cbn [length]. rewrite sum_cons, IH, number_S. lra.
    + rewrite Hperm. apply Forall_fmap, Forall_forall. intros [c v] Hin.
      unfold compose, mk. cbn [Charts.ps_name Charts.ps_value]. exists c.
      split; [reflexivity|].
      pose proof (pie_counts closedPositions c) as Hc.
      rewrite <- Hitems in Hc. fold m in Hc.
      rewrite (KeyedMap_elem_get c v m Hnd Hin) in Hc. exact Hc.
Qed.
